(** * Document indexing pipeline: structure extraction and normalization

    A shallow embedding of

      - [app/service/Indexing/document_paresing_and_extracting_structuerd.py]
        (class [DocumentParser]) and
      - [app/service/Indexing/normalization_and_cleaning.py]
        (class [DocumentNormalizer]),

    followed by the properties of the two stages.

    Conventions.
      - A Python [str] is a list of Unicode code points ([list N]).
      - A Python [int] is a [Z]; a [float] is an exact rational [Q]
        (the only floats are percentages, means and the quality score,
        which the code compares with constants).
      - The interpreter's Unicode data base (categories, case mapping,
        NFC) is not part of the repository: the embedding takes it as a
        record [unicode_tables].  [ascii_tables] gives the tables on the
        ASCII range, which is all that an ASCII input consults.
      - The element id [f"element_{position}"] is the string
        ["element_" +:+ pretty position].
      - A loop that may fail to terminate takes fuel and returns [None]
        when it runs out; a raised exception is [None] as well. *)

From Stdlib Require Import NArith ZArith QArith Qminmax Lia.
From stdpp Require Import base list strings gmap pretty sorting.

Open Scope Z_scope.

(** ** Text *)

Abbreviation text := (list N).

Definition LF : N := 10%N.
Definition CR : N := 13%N.
Definition TAB : N := 9%N.
Definition SP : N := 32%N.

Fixpoint text_of_string (s : string) : text :=
  match s with
  | EmptyString => []
  | String a s' => Ascii.N_of_ascii a :: text_of_string s'
  end.

(** [len(s)] *)
Definition len (s : text) : Z := Z.of_nat (length s).

Definition in_range (lo hi c : N) : bool := ((lo <=? c) && (c <=? hi))%N.

Definition is_char (a c : N) : bool := (c =? a)%N.

(** The characters [str.isspace], [str.strip], [str.split] and the
    pattern [\s] treat as white space (CPython's
    [_PyUnicode_IsWhitespace]). *)
Definition isspace (c : N) : bool :=
  in_range 0x09 0x0D c || in_range 0x1C 0x1F c || is_char 0x20 c
  || is_char 0x85 c || is_char 0xA0 c || is_char 0x1680 c
  || in_range 0x2000 0x200A c || is_char 0x2028 c || is_char 0x2029 c
  || is_char 0x202F c || is_char 0x205F c || is_char 0x3000 c.

Fixpoint lstrip (s : text) : text :=
  match s with
  | c :: s' => if isspace c then lstrip s' else s
  | [] => []
  end.

Definition rstrip (s : text) : text := reverse (lstrip (reverse s)).

(** [s.strip()] *)
Definition strip (s : text) : text := rstrip (lstrip s).

(** [s.split('\n')]: never empty, [''.split('\n') = ['']]. *)
Fixpoint split_lines (s : text) : list text :=
  match s with
  | [] => [[]]
  | c :: s' =>
      if (c =? LF)%N then [] :: split_lines s'
      else match split_lines s' with
           | l :: ls => (c :: l) :: ls
           | [] => [[c]]
           end
  end.

(** ['\n'.join(ls)] *)
Fixpoint join_lines (ls : list text) : text :=
  match ls with
  | [] => []
  | [l] => l
  | l :: ls' => l ++ LF :: join_lines ls'
  end.

(** [s.split()]: the maximal runs of non-space characters. *)
Fixpoint split_ws_go (cur : text) (s : text) : list text :=
  match s with
  | [] => match cur with [] => [] | _ => [reverse cur] end
  | c :: s' =>
      if isspace c
      then match cur with
           | [] => split_ws_go [] s'
           | _ => reverse cur :: split_ws_go [] s'
           end
      else split_ws_go (c :: cur) s'
  end.

Definition split_ws (s : text) : list text := split_ws_go [] s.

Fixpoint startswith (p s : text) : bool :=
  match p, s with
  | [], _ => true
  | a :: p', c :: s' => (a =? c)%N && startswith p' s'
  | _ :: _, [] => false
  end.

Definition text_eqb (a b : text) : bool := bool_decide (a = b).

(** [s.replace(old, new)] for a non-empty [old]: leftmost,
    non-overlapping occurrences. *)
Fixpoint str_replace_go (fuel : nat) (old new s : text) : text :=
  match fuel with
  | O => s
  | S fuel' =>
      match s with
      | [] => []
      | c :: s' =>
          if startswith old s
          then new ++ str_replace_go fuel' old new (drop (length old) s)
          else c :: str_replace_go fuel' old new s'
      end
  end.

Definition str_replace (old new s : text) : text :=
  str_replace_go (length s) old new s.

(** ** The interpreter's Unicode tables *)

Record unicode_tables := {
  uc_isdecimal : N → bool;   (* [\d]: general category Nd *)
  uc_isword : N → bool;      (* [\w]: alphanumeric or underscore *)
  uc_islower : N → bool;     (* [c.islower()] for one character *)
  uc_isalnum : N → bool;     (* [c.isalnum()] *)
  uc_tolower : N → N;        (* simple lower-case mapping *)
  uc_nfc : text → text       (* [unicodedata.normalize('NFC', _)] *)
}.

Definition ascii_tables : unicode_tables := {|
  uc_isdecimal := in_range 48 57;
  uc_isword c := in_range 48 57 c || in_range 65 90 c || in_range 97 122 c
                 || is_char 95 c;
  uc_islower := in_range 97 122;
  uc_isalnum c := in_range 48 57 c || in_range 65 90 c || in_range 97 122 c;
  uc_tolower c := if in_range 65 90 c then (c + 32)%N else c;
  uc_nfc s := s
|}.

(** ** Regular expressions

    A backtracking matcher for the fragment the two classes use: every
    quantifier is applied to a character class, there is at most one
    capture group, and [$] comes last.  The order of the attempts is the
    one of Python's [re]: alternatives left to right, greedy quantifiers
    from the longest repetition, lazy ones from the shortest. *)

Inductive re : Type :=
| Nil                                   (* the empty pattern *)
| Chr (p : N → bool)                    (* one character of a class *)
| Seq (r1 r2 : re)
| Alt (r1 r2 : re)
| Rep (greedy : bool) (lo : nat) (hi : option nat) (p : N → bool)
                                        (* class{lo,hi} or class{lo,hi}? *)
| Grp (r : re)                          (* capture group 1 *)
| Eos.                                  (* [$] *)

Definition below (n : nat) (hi : option nat) : bool :=
  match hi with
  | Some h => bool_decide (n < h)%nat
  | None => true
  end.

Section Matcher.
Context {A : Type}.

(** [n] characters of the class have been taken *)
Fixpoint rep_greedy (p : N → bool) (lo : nat) (hi : option nat)
    (n : nat) (s : text) (k : text → option A) : option A :=
  match s with
  | c :: s' =>
      if p c && below n hi
      then match rep_greedy p lo hi (S n) s' k with
           | Some a => Some a
           | None => if bool_decide (lo ≤ n)%nat then k s else None
           end
      else if bool_decide (lo ≤ n)%nat then k s else None
  | [] => if bool_decide (lo ≤ n)%nat then k s else None
  end.

Fixpoint rep_lazy (p : N → bool) (lo : nat) (hi : option nat)
    (n : nat) (s : text) (k : text → option A) : option A :=
  match (if bool_decide (lo ≤ n)%nat then k s else None) with
  | Some a => Some a
  | None =>
      match s with
      | c :: s' =>
          if p c && below n hi then rep_lazy p lo hi (S n) s' k else None
      | [] => None
      end
  end.

Fixpoint run (r : re) (s : text) (g : option text)
    (k : text → option text → option A) : option A :=
  match r with
  | Nil => k s g
  | Chr p =>
      match s with
      | c :: s' => if p c then k s' g else None
      | [] => None
      end
  | Seq r1 r2 => run r1 s g (λ s1 g1, run r2 s1 g1 k)
  | Alt r1 r2 =>
      match run r1 s g k with
      | Some a => Some a
      | None => run r2 s g k
      end
  | Rep true lo hi p => rep_greedy p lo hi 0 s (λ s', k s' g)
  | Rep false lo hi p => rep_lazy p lo hi 0 s (λ s', k s' g)
  | Grp r1 =>
      run r1 s g (λ s1 _, k s1 (Some (take (length s - length s1) s)))
  | Eos =>
      match s with
      | [] => k s g
      | [c] => if (c =? LF)%N then k s g else None
      | _ => None
      end
  end.
End Matcher.

(** [re.match(r, s)]: the text after the match and group 1. *)
Definition re_match (r : re) (s : text) : option (text * option text) :=
  run r s None (λ s' g, Some (s', g)).

Definition matches (r : re) (s : text) : bool :=
  bool_decide (is_Some (re_match r s)).

(** [re.search(r, s)] *)
Fixpoint re_search (r : re) (s : text) : bool :=
  matches r s ||
  match s with
  | _ :: s' => re_search r s'
  | [] => false
  end.

(** [re.search('^' + r, s, re.MULTILINE)]: [^] holds at the start and
    after every newline. *)
Fixpoint re_search_bol_go (r : re) (bol : bool) (s : text) : bool :=
  (bol && matches r s) ||
  match s with
  | c :: s' => re_search_bol_go r (c =? LF)%N s'
  | [] => false
  end.

Definition re_search_bol (r : re) (s : text) : bool := re_search_bol_go r true s.

(** [re.sub(r, repl, s)] for a pattern that matches no empty string. *)
Fixpoint re_sub_go (fuel : nat) (r : re) (repl s : text) : text :=
  match fuel with
  | O => s
  | S fuel' =>
      match s with
      | [] => []
      | c :: s' =>
          match re_match r s with
          | Some (rest, _) =>
              if bool_decide (length rest < length s)%nat
              then repl ++ re_sub_go fuel' r repl rest
              else c :: re_sub_go fuel' r repl s'
          | None => c :: re_sub_go fuel' r repl s'
          end
      end
  end.

Definition re_sub (r : re) (repl s : text) : text :=
  re_sub_go (length s) r repl s.

(** Pattern notation *)
Definition seq (rs : list re) : re := foldr Seq Nil rs.
Definition alt (rs : list re) : re :=
  match rs with
  | [] => Nil
  | r :: rs' => foldl Alt r rs'
  end.
Definition lit (s : string) : re := seq (Chr ∘ is_char <$> text_of_string s).
Definition star (p : N → bool) : re := Rep true 0 None p.
Definition plus (p : N → bool) : re := Rep true 1 None p.
Definition dot (c : N) : bool := negb (c =? LF)%N.
Definition cls_AZ : N → bool := in_range 65 90.
Definition cls_az : N → bool := in_range 97 122.
Definition one_of (s : string) (c : N) : bool :=
  bool_decide (c ∈ text_of_string s).
Definition either (p q : N → bool) (c : N) : bool := p c || q c.

(** ** Data model ([document_paresing_and_extracting_structuerd.py]) *)

Inductive ContentType :=
| TITLE | HEADING | SUBHEADING | PARAGRAPH | LIST_ITEM | TABLE
| CODE_BLOCK | QUOTE | METADATA | UNKNOWN.

Global Instance ContentType_eq_dec : EqDecision ContentType.
Proof. solve_decision. Defined.

(** The [metadata] dict of an element: the parser stores the line range,
    the normalizer adds ['cleaned': True]. *)
Record ElementMetadata := {
  line_start : Z;
  line_end : Z;
  cleaned : bool
}.

Record DocumentElement := {
  content : text;
  element_type : ContentType;
  level : Z;
  position : Z;
  metadata : ElementMetadata;
  parent_id : option string;
  children_ids : list string
}.

(** [DocumentElement(content, element_type, level, position, metadata)]:
    [parent_id] defaults to [None], [__post_init__] makes
    [children_ids] the empty list. *)
Definition mkElement (c : text) (ty : ContentType) (lvl pos : Z)
    (md : ElementMetadata) : DocumentElement :=
  {| content := c; element_type := ty; level := lvl; position := pos;
     metadata := md; parent_id := None; children_ids := [] |}.

(** [element.parent_id = pid] *)
Definition set_parent_id (e : DocumentElement) (pid : string) : DocumentElement :=
  {| content := content e; element_type := element_type e; level := level e;
     position := position e; metadata := metadata e;
     parent_id := Some pid; children_ids := children_ids e |}.

Record TocEntry := {
  toc_title : text;
  toc_level : Z;
  toc_position : Z;
  toc_element_id : string
}.

(** The [metadata] dict of a document. *)
Record DocMetadata := {
  total_elements : Z;
  element_types : list (ContentType * Z);
  word_count : Z;
  char_count : Z;
  line_count : Z;
  title : option text
}.

Record DocumentStructure := {
  elements : list DocumentElement;
  hierarchy : gmap string (list string);
  doc_metadata : option DocMetadata;      (* [None] is the empty dict *)
  table_of_contents : list TocEntry
}.

(** [f"element_{position}"] *)
Definition element_id_of (pos : Z) : string := "element_" +:+ pretty pos.

Definition is_heading_type (ty : ContentType) : bool :=
  bool_decide (ty = TITLE ∨ ty = HEADING).

(** ** [DocumentParser] *)

Section Parser.
Variable U : unicode_tables.

Definition digit : N → bool := uc_isdecimal U.

(** [lambda m: len(m.group(1).split()[0])]; [None] is the
    [IndexError] of an empty [split()]. *)
Definition level_of_first_word (g : option text) : option Z :=
  match g with
  | Some g1 =>
      match split_ws g1 with
      | w :: _ => Some (len w)
      | [] => None
      end
  | None => None
  end.

Definition heading_patterns (doc_format : string)
    : option (list (re * (option text → option Z))) :=
  if bool_decide (doc_format = "markdown") then
    Some [ (seq [Rep true 1 (Some 6%nat) (is_char 35); plus isspace;
                 Grp (plus dot); Eos],
            level_of_first_word);
           (seq [Grp (seq [Chr cls_AZ; star (λ c, negb (is_char 46 c));
                           Chr (is_char 46)]); Eos],
            λ _, Some 1) ]
  else if bool_decide (doc_format = "general") then
    Some [ (seq [Chr cls_AZ; Rep true 10 None (either cls_AZ isspace); Eos],
            λ _, Some 1);
           (seq [plus digit; Chr (is_char 46); plus isspace; Chr cls_AZ],
            λ _, Some 2);
           (seq [Chr cls_AZ; plus (either cls_az isspace); Chr (is_char 58);
                 Eos],
            λ _, Some 2) ]
  else None.

(** [-], the bullet U+2022 and [*] *)
Definition bullet (c : N) : bool :=
  is_char 45 c || is_char 0x2022 c || is_char 42 c.

Definition list_patterns : list re :=
  [ seq [star isspace; Chr bullet; plus isspace; Grp (plus dot); Eos];
    seq [star isspace; plus digit; Chr (is_char 46); plus isspace;
         Grp (plus dot); Eos];
    seq [star isspace; Chr (either cls_az cls_AZ); Chr (is_char 46);
         plus isspace; Grp (plus dot); Eos] ].

Definition table_patterns : list re :=
  [ seq [Chr (is_char 124); star dot; Chr (is_char 124)];
    seq [star isspace; Chr (is_char 43);
         plus (λ c, is_char 45 c || is_char 43 c || isspace c);
         Chr (is_char 43); star isspace; Eos] ].

Definition code_patterns : list re :=
  [ seq [lit "```"; star (uc_isword U); Chr (is_char LF);
         Rep false 0 None dot; Chr (is_char LF); lit "```"; Eos];
    seq [Rep true 4 None isspace; star dot; Eos] ].

(** [re.search(r'^#{1,6}\s+', content, re.MULTILINE)] and
    [re.match(r'^#{1,6}\s+', line)] *)
Definition hash_prefix : re :=
  seq [Rep true 1 (Some 6%nat) (is_char 35); plus isspace].

Definition _detect_format (content : text) (file_type : string) : string :=
  if bool_decide (file_type = "md") then "markdown"
  else if re_search_bol hash_prefix content then "markdown"
  else if re_search (seq [Chr (is_char 124); star dot; Chr (is_char 124)])
            content then "markdown"
  else "plain_text".

(** [self._is_structured_line(line)] *)
Definition _is_structured_line (line0 : text) : bool :=
  let line := strip line0 in
  if matches hash_prefix line then true
  else if existsb (λ r, matches r line) list_patterns then true
  else existsb (λ r, matches r line) table_patterns.

(** The loop of [_extract_paragraph] from index [i] on, over
    [lines[i:]]. *)
Fixpoint _extract_paragraph_from (ls : list text) : list text :=
  match ls with
  | [] => []
  | raw :: rest =>
      let line := strip raw in
      if bool_decide (line = []) then []
      else if _is_structured_line line then []
      else line :: _extract_paragraph_from rest
  end.

Definition _extract_paragraph (lines : list text) (start_idx : nat)
    : list text :=
  _extract_paragraph_from (drop start_idx lines).

(** [r'^[\s|\|+-]'] *)
Definition table_continue : re :=
  Chr (λ c, isspace c || is_char 124 c || is_char 43 c || is_char 45 c).

Fixpoint _extract_table_from (ls : list text) : list text :=
  match ls with
  | [] => []
  | line :: rest =>
      line ::
      match rest with
      | [] => []
      | next :: _ =>
          if bool_decide (strip next = []) then []
          else if negb (matches table_continue next) then []
          else _extract_table_from rest
      end
  end.

Definition _extract_table (lines : list text) (start_idx : nat) : list text :=
  _extract_table_from (drop start_idx lines).

Definition fence : text := text_of_string "```".

(** the lines before the closing fence, and the closing fence when
    there is one *)
Fixpoint fenced_body (ls : list text) : list text :=
  match ls with
  | [] => []
  | l :: rest =>
      if startswith fence (strip l) then [l] else l :: fenced_body rest
  end.

Fixpoint indented_body (ls : list text) : list text :=
  match ls with
  | [] => []
  | l :: rest =>
      if startswith (text_of_string "    ") l then l :: indented_body rest
      else []
  end.

Definition _extract_code_block (lines : list text) (start_idx : nat)
    : option (list text) :=
  match lines !! start_idx with
  | None => None
  | Some raw =>
      let line := strip raw in
      if startswith fence line
      then Some (line :: fenced_body (drop (S start_idx) lines))
      else Some (indented_body (drop start_idx lines))
  end.

(** The first pattern of a heading rule set that matches, with its
    level. *)
Fixpoint first_heading (ps : list (re * (option text → option Z)))
    (line : text) : option (option Z) :=
  match ps with
  | [] => None
  | (r, level_func) :: ps' =>
      match re_match r line with
      | Some (_, g) => Some (level_func g)
      | None => first_heading ps' line
      end
  end.

(** [self._identify_element(lines, start_idx, doc_format)] *)
Definition _identify_element (lines : list text) (start_idx : nat)
    (doc_format : string) : option (ContentType * Z * list text * nat) :=
  match lines !! start_idx with
  | None => None
  | Some raw =>
      let line := strip raw in
      match first_heading (default [] (heading_patterns doc_format)) line with
      | Some lvl => l ← lvl; Some (HEADING, l, [line], 1%nat)
      | None =>
      match first_heading (default [] (heading_patterns "general")) line with
      | Some lvl => l ← lvl; Some (HEADING, l, [line], 1%nat)
      | None =>
      if existsb (λ r, matches r line) list_patterns
      then Some (LIST_ITEM, 1, [line], 1%nat)
      else if existsb (λ r, matches r line) table_patterns
      then let table_lines := _extract_table lines start_idx in
           Some (TABLE, 1, table_lines, length table_lines)
      else if existsb (λ r, matches r line) code_patterns
      then code_lines ← _extract_code_block lines start_idx;
           Some (CODE_BLOCK, 1, code_lines, length code_lines)
      else Some (UNKNOWN, 0, [], 0%nat)
      end
      end
  end.

(** The [while i < len(lines)] loop of [_parse_elements]. *)
Fixpoint _parse_elements_loop (fuel : nat) (lines : list text)
    (doc_format : string) (i : nat) (pos : Z)
    (acc : list DocumentElement) : option (list DocumentElement) :=
  match fuel with
  | O => None
  | S fuel' =>
      match lines !! i with
      | None => Some acc
      | Some raw =>
          if bool_decide (strip raw = [])
          then _parse_elements_loop fuel' lines doc_format (S i) pos acc
          else
            '(ty, lvl, content_lines, consumed) ←
               _identify_element lines i doc_format;
            if bool_decide (ty ≠ UNKNOWN) then
              let element :=
                mkElement (join_lines content_lines) ty lvl pos
                  {| line_start := Z.of_nat i;
                     line_end := Z.of_nat i + Z.of_nat consumed - 1;
                     cleaned := false |} in
              _parse_elements_loop fuel' lines doc_format (i + consumed)
                (pos + 1) (acc ++ [element])
            else
              let paragraph_lines := _extract_paragraph lines i in
              let element :=
                mkElement (join_lines paragraph_lines) PARAGRAPH 0 pos
                  {| line_start := Z.of_nat i;
                     line_end :=
                       Z.of_nat i + Z.of_nat (length paragraph_lines) - 1;
                     cleaned := false |} in
              _parse_elements_loop fuel' lines doc_format
                (i + length paragraph_lines) (pos + 1) (acc ++ [element])
      end
  end.

Definition _parse_elements (fuel : nat) (lines : list text)
    (doc_format : string) : option (list DocumentElement) :=
  _parse_elements_loop fuel lines doc_format 0 0 [].

(** [while parent_stack and parent_stack[-1][1] >= level: pop()];
    the top of the stack is the head of the list. *)
Fixpoint pop_parents (stack : list (string * Z)) (lvl : Z)
    : list (string * Z) :=
  match stack with
  | (pid, l) :: stack' =>
      if bool_decide (l >= lvl) then pop_parents stack' lvl else stack
  | [] => []
  end.

Record hier_state := {
  hs_done : list DocumentElement;          (* elements seen, updated *)
  hs_hierarchy : gmap string (list string);
  hs_stack : list (string * Z)
}.

(** One iteration of the loop of [_build_hierarchy].  The loop
    assigns [element.parent_id] in place: the updated element goes to
    [hs_done]. *)
Definition hier_step (st : hier_state) (element : DocumentElement)
    : hier_state :=
  let element_id := element_id_of (position element) in
  let stack := pop_parents (hs_stack st) (level element) in
  let '(element', h) :=
    match stack with
    | (pid, _) :: _ =>
        (set_parent_id element pid,
         <[pid := default [] (hs_hierarchy st !! pid) ++ [element_id]]>
           (hs_hierarchy st))
    | [] => (element, hs_hierarchy st)
    end in
  {| hs_done := hs_done st ++ [element'];
     hs_hierarchy := h;
     hs_stack := if is_heading_type (element_type element)
                 then (element_id, level element) :: stack else stack |}.

(** [_build_hierarchy]: the hierarchy dict, and the elements as the
    loop leaves them. *)
Definition _build_hierarchy (els : list DocumentElement)
    : list DocumentElement * gmap string (list string) :=
  let st := foldl hier_step
              {| hs_done := []; hs_hierarchy := ∅; hs_stack := [] |} els in
  (hs_done st, hs_hierarchy st).

(** [d[k] = d.get(k, 0) + 1] on a dict in insertion order *)
Fixpoint count_up {K} `{EqDecision K} (k : K) (d : list (K * Z))
    : list (K * Z) :=
  match d with
  | [] => [(k, 1)]
  | (k', n) :: d' =>
      if bool_decide (k' = k) then (k', n + 1) :: d'
      else (k', n) :: count_up k d'
  end.

Definition _extract_metadata (els : list DocumentElement)
    (full_content : text) : DocMetadata :=
  {| total_elements := Z.of_nat (length els);
     element_types :=
       foldl (λ d e, count_up (element_type e) d) [] els;
     word_count := Z.of_nat (length (split_ws full_content));
     char_count := len full_content;
     line_count := Z.of_nat (length (split_lines full_content));
     title :=
       content <$>
       head (filter (λ e, is_heading_type (element_type e) = true
                          ∧ level e = 1) els) |}.

Definition _generate_table_of_contents (els : list DocumentElement)
    : list TocEntry :=
  (λ e, {| toc_title := content e; toc_level := level e;
           toc_position := position e;
           toc_element_id := element_id_of (position e) |})
  <$> filter (λ e, is_heading_type (element_type e) = true) els.

(** [parse_document(content, file_type)] *)
Definition parse_document (fuel : nat) (content : text)
    (file_type : string) : option DocumentStructure :=
  if bool_decide (content = [] ∨ strip content = []) then
    Some {| elements := []; hierarchy := ∅; doc_metadata := None;
            table_of_contents := [] |}
  else
    let lines := split_lines content in
    let doc_format := _detect_format content file_type in
    els0 ← _parse_elements fuel lines doc_format;
    let '(els, h) := _build_hierarchy els0 in
    Some {| elements := els; hierarchy := h;
            doc_metadata := Some (_extract_metadata els content);
            table_of_contents := _generate_table_of_contents els |}.

(** [get_element_by_id(structure, element_id)] *)
Definition get_element_by_id (structure : DocumentStructure)
    (element_id : string) : option DocumentElement :=
  head (filter (λ e, element_id_of (position e) = element_id)
          (elements structure)).
End Parser.

(** ** Data model ([normalization_and_cleaning.py]) *)

Inductive CleaningLevel := MINIMAL | STANDARD | AGGRESSIVE.

Global Instance CleaningLevel_eq_dec : EqDecision CleaningLevel.
Proof. solve_decision. Defined.

Record CleaningStats := {
  original_chars : Z;
  cleaned_chars : Z;
  headers_removed : Z;
  footers_removed : Z;
  unicode_fixed : Z;
  whitespace_normalized : Z;
  line_breaks_fixed : Z;
  invisible_chars_removed : Z;
  language_detected : string
}.

(** [CleaningStats()] *)
Definition new_stats : CleaningStats :=
  {| original_chars := 0; cleaned_chars := 0; headers_removed := 0;
     footers_removed := 0; unicode_fixed := 0; whitespace_normalized := 0;
     line_breaks_fixed := 0; invisible_chars_removed := 0;
     language_detected := "unknown" |}.

(** Assignments to the fields of the accumulator *)
Definition set_original_chars (n : Z) (st : CleaningStats) : CleaningStats :=
  {| original_chars := n; cleaned_chars := cleaned_chars st;
     headers_removed := headers_removed st;
     footers_removed := footers_removed st;
     unicode_fixed := unicode_fixed st;
     whitespace_normalized := whitespace_normalized st;
     line_breaks_fixed := line_breaks_fixed st;
     invisible_chars_removed := invisible_chars_removed st;
     language_detected := language_detected st |}.

Definition set_cleaned_chars (n : Z) (st : CleaningStats) : CleaningStats :=
  {| original_chars := original_chars st; cleaned_chars := n;
     headers_removed := headers_removed st;
     footers_removed := footers_removed st;
     unicode_fixed := unicode_fixed st;
     whitespace_normalized := whitespace_normalized st;
     line_breaks_fixed := line_breaks_fixed st;
     invisible_chars_removed := invisible_chars_removed st;
     language_detected := language_detected st |}.

Definition add_headers_removed (n : Z) (st : CleaningStats) : CleaningStats :=
  {| original_chars := original_chars st; cleaned_chars := cleaned_chars st;
     headers_removed := headers_removed st + n;
     footers_removed := footers_removed st;
     unicode_fixed := unicode_fixed st;
     whitespace_normalized := whitespace_normalized st;
     line_breaks_fixed := line_breaks_fixed st;
     invisible_chars_removed := invisible_chars_removed st;
     language_detected := language_detected st |}.

Definition add_footers_removed (n : Z) (st : CleaningStats) : CleaningStats :=
  {| original_chars := original_chars st; cleaned_chars := cleaned_chars st;
     headers_removed := headers_removed st;
     footers_removed := footers_removed st + n;
     unicode_fixed := unicode_fixed st;
     whitespace_normalized := whitespace_normalized st;
     line_breaks_fixed := line_breaks_fixed st;
     invisible_chars_removed := invisible_chars_removed st;
     language_detected := language_detected st |}.

Definition add_unicode_fixed (n : Z) (st : CleaningStats) : CleaningStats :=
  {| original_chars := original_chars st; cleaned_chars := cleaned_chars st;
     headers_removed := headers_removed st;
     footers_removed := footers_removed st;
     unicode_fixed := unicode_fixed st + n;
     whitespace_normalized := whitespace_normalized st;
     line_breaks_fixed := line_breaks_fixed st;
     invisible_chars_removed := invisible_chars_removed st;
     language_detected := language_detected st |}.

Definition add_whitespace_normalized (n : Z) (st : CleaningStats)
    : CleaningStats :=
  {| original_chars := original_chars st; cleaned_chars := cleaned_chars st;
     headers_removed := headers_removed st;
     footers_removed := footers_removed st;
     unicode_fixed := unicode_fixed st;
     whitespace_normalized := whitespace_normalized st + n;
     line_breaks_fixed := line_breaks_fixed st;
     invisible_chars_removed := invisible_chars_removed st;
     language_detected := language_detected st |}.

Definition add_line_breaks_fixed (n : Z) (st : CleaningStats) : CleaningStats :=
  {| original_chars := original_chars st; cleaned_chars := cleaned_chars st;
     headers_removed := headers_removed st;
     footers_removed := footers_removed st;
     unicode_fixed := unicode_fixed st;
     whitespace_normalized := whitespace_normalized st;
     line_breaks_fixed := line_breaks_fixed st + n;
     invisible_chars_removed := invisible_chars_removed st;
     language_detected := language_detected st |}.

Definition add_invisible_chars_removed (n : Z) (st : CleaningStats)
    : CleaningStats :=
  {| original_chars := original_chars st; cleaned_chars := cleaned_chars st;
     headers_removed := headers_removed st;
     footers_removed := footers_removed st;
     unicode_fixed := unicode_fixed st;
     whitespace_normalized := whitespace_normalized st;
     line_breaks_fixed := line_breaks_fixed st;
     invisible_chars_removed := invisible_chars_removed st + n;
     language_detected := language_detected st |}.

Definition set_language_detected (l : string) (st : CleaningStats)
    : CleaningStats :=
  {| original_chars := original_chars st; cleaned_chars := cleaned_chars st;
     headers_removed := headers_removed st;
     footers_removed := footers_removed st;
     unicode_fixed := unicode_fixed st;
     whitespace_normalized := whitespace_normalized st;
     line_breaks_fixed := line_breaks_fixed st;
     invisible_chars_removed := invisible_chars_removed st;
     language_detected := l |}.

(** [x > y] on floats *)
Definition Qgtb (x y : Q) : bool := negb (Qle_bool x y).

(** [CleaningStats.get_reduction_percentage] *)
Definition get_reduction_percentage (st : CleaningStats) : Q :=
  if bool_decide (original_chars st = 0) then 0%Q
  else ((inject_Z (original_chars st - cleaned_chars st)
         / inject_Z (original_chars st)) * 100)%Q.

(** The [metadata] dict of a normalized document *)
Record NormMetadata := {
  nm_cleaning_level : CleaningLevel;
  elements_processed : Z;
  elements_kept : Z
}.

Record NormalizedDocument := {
  original_structure : DocumentStructure;
  cleaned_elements : list DocumentElement;
  cleaning_stats : CleaningStats;
  detected_language : string;
  quality_score : Q;
  norm_metadata : NormMetadata
}.

(** [sum(len(elem.content) for elem in els)] *)
Definition total_chars (els : list DocumentElement) : Z :=
  foldr (λ e n, len (content e) + n) 0 els.

(** ** [DocumentNormalizer] *)

Section Normalizer.
Variable U : unicode_tables.

(** [langdetect.detect]: [None] is a [LangDetectException]. *)
Variable detect : text → option string.

(** [self.cleaning_level] *)
Variable cleaning_level : CleaningLevel.

(** A literal of a pattern compiled with [re.IGNORECASE].  The
    patterns spell their letters in lower case; [i] and [s] also match
    the dotless i and the long s. *)
Definition ci (l c : N) : bool :=
  if cls_az l then
    let lc := uc_tolower U c in
    (lc =? l)%N || (is_char 105 l && (lc =? 0x131)%N)
    || (is_char 115 l && (lc =? 0x17F)%N)
  else (c =? l)%N.

Definition ilit (s : string) : re := seq (Chr ∘ ci <$> text_of_string s).

Definition lazy_dots (n : nat) : re := Rep false 0 (Some n) dot.

Definition digits (lo hi : nat) : re := Rep true lo (Some hi) (digit U).

Definition date_pattern : re :=
  seq [digits 1 2; Chr (is_char 47); digits 1 2; Chr (is_char 47);
       digits 2 4].

(** matched with [re.match(_, line, re.IGNORECASE)] *)
Definition header_patterns : list re :=
  [ seq [lazy_dots 50; alt [ilit "page"; ilit "p."]; star isspace;
         plus (digit U); Eos];
    seq [lazy_dots 30; alt [ilit "confidential"; ilit "draft";
                            ilit "internal"]];
    seq [lazy_dots 30; date_pattern];
    seq [lazy_dots 30; alt [ilit "chapter"; ilit "ch."; ilit "section"];
         plus isspace; plus (digit U)] ].

(** matched with [re.search(_, line, re.IGNORECASE)]; the copyright
    sign is U+00A9 *)
Definition footer_patterns : list re :=
  [ seq [lazy_dots 50; alt [ilit "page"; ilit "p."]; star isspace;
         plus (digit U); Eos];
    seq [lazy_dots 30; date_pattern];
    seq [lazy_dots 30; alt [ilit "copyright"; Chr (ci 0xA9);
                            ilit "all rights reserved"]] ].

Definition invisible_chars : list N :=
  [0x200B; 0x200C; 0x200D; 0x2060; 0xFEFF; 0x00A0; 0x3000]%N.

(** [[\x00-\x08\x0B\x0C\x0E-\x1F\x7F]] *)
Definition control_char (c : N) : bool :=
  in_range 0x00 0x08 c || is_char 0x0B c || is_char 0x0C c
  || in_range 0x0E 0x1F c || is_char 0x7F c.

Definition is_header_line (line : text) : bool :=
  existsb (λ r, matches r line) header_patterns.

Definition is_footer_line (line : text) : bool :=
  existsb (λ r, re_search r line) footer_patterns.

(** The loop of [_remove_headers_footers] over the lines. *)
Fixpoint remove_hf_lines (ls : list text) (stats : CleaningStats)
    : list text * CleaningStats :=
  match ls with
  | [] => ([], stats)
  | line :: rest =>
      let line_stripped := strip line in
      if is_header_line line_stripped then
        remove_hf_lines rest (add_headers_removed 1 stats)
      else if is_footer_line line_stripped then
        remove_hf_lines rest (add_footers_removed 1 stats)
      else
        let '(kept, stats') := remove_hf_lines rest stats in
        (line :: kept, stats')
  end.

Definition _remove_headers_footers (content : text) (stats : CleaningStats)
    : text * CleaningStats :=
  let '(cleaned_lines, stats') :=
    remove_hf_lines (split_lines content) stats in
  (join_lines cleaned_lines, stats').

Definition _normalize_unicode (content : text) (stats : CleaningStats)
    : text * CleaningStats :=
  let normalized := uc_nfc U content in
  (normalized,
   if bool_decide (normalized ≠ content) then add_unicode_fixed 1 stats
   else stats).

Definition _remove_invisible_characters (content : text)
    (stats : CleaningStats) : text * CleaningStats :=
  let original_length := len content in
  let content1 :=
    foldl (λ s char, str_replace [char] [] s) content invisible_chars in
  let content2 := re_sub (Chr control_char) [] content1 in
  let removed_count := original_length - len content2 in
  (content2,
   if bool_decide (removed_count > 0)
   then add_invisible_chars_removed removed_count stats else stats).

(** [line and line[-1].islower()] *)
Definition ends_lower (line : text) : bool :=
  match last line with
  | Some c => uc_islower U c
  | None => false
  end.

(** [line and line[0].islower()] *)
Definition starts_lower (line : text) : bool :=
  match head line with
  | Some c => uc_islower U c
  | None => false
  end.

(** The [enumerate(lines)] loop of [_fix_line_breaks]. *)
Fixpoint fix_lines (ls : list text) (stats : CleaningStats)
    : list text * CleaningStats :=
  match ls with
  | [] => ([], stats)
  | raw :: rest =>
      let line := strip raw in
      let broken :=
        match rest with
        | next :: _ => ends_lower line && starts_lower (strip next)
        | [] => false
        end in
      if broken then
        let '(fixed, stats') :=
          fix_lines rest (add_line_breaks_fixed 1 stats) in
        ((line ++ [SP]) :: fixed, stats')
      else
        let '(fixed, stats') := fix_lines rest stats in
        (line :: fixed, stats')
  end.

Definition _fix_line_breaks (content : text) (stats : CleaningStats)
    : text * CleaningStats :=
  let content1 := str_replace [CR] [LF] (str_replace [CR; LF] [LF] content) in
  let '(fixed_lines, stats') := fix_lines (split_lines content1) stats in
  (join_lines fixed_lines, stats').

Definition _standardize_whitespace (content : text) (stats : CleaningStats)
    : text * CleaningStats :=
  let original_content := content in
  let content1 := re_sub (Rep true 2 None (is_char SP)) [SP] content in
  let content2 := re_sub (plus (is_char TAB)) [SP] content1 in
  let content3 := join_lines (strip <$> split_lines content2) in
  let content4 := re_sub (Rep true 3 None (is_char LF)) [LF; LF] content3 in
  (content4,
   if bool_decide (content4 ≠ original_content)
   then add_whitespace_normalized 1 stats else stats).

(** [sum(1 for c in line if not c.isalnum() and not c.isspace())] *)
Definition special_chars (line : text) : Z :=
  len (filter (λ c, uc_isalnum U c = false ∧ isspace c = false) line).

(** One iteration of the loop of [_remove_redundant_content];
    [filtered_lines] grows at its end. *)
Definition redundant_step (filtered_lines : list text) (raw : text)
    : list text :=
  let line := strip raw in
  if bool_decide (len line < 3) then filtered_lines
  else if Qgtb (inject_Z (special_chars line) / inject_Z (len line))
            (7 # 10)
  then filtered_lines
  else if bool_decide (last filtered_lines = Some line) then filtered_lines
  else filtered_lines ++ [line].

Definition _remove_redundant_content (content : text)
    (stats : CleaningStats) : text * CleaningStats :=
  (join_lines (foldl redundant_step [] (split_lines content)), stats).

(** [_clean_element] *)
Definition _clean_element (element : DocumentElement)
    (stats : CleaningStats) : option DocumentElement * CleaningStats :=
  let content0 := content element in
  if bool_decide (content0 = [] ∨ strip content0 = []) then (None, stats)
  else
    let '(content1, stats1) :=
      if bool_decide (cleaning_level = STANDARD ∨ cleaning_level = AGGRESSIVE)
      then _remove_headers_footers content0 stats
      else (content0, stats) in
    let '(content2, stats2) := _normalize_unicode content1 stats1 in
    let '(content3, stats3) := _remove_invisible_characters content2 stats2 in
    let '(content4, stats4) := _fix_line_breaks content3 stats3 in
    let '(content5, stats5) := _standardize_whitespace content4 stats4 in
    let '(content6, stats6) :=
      if bool_decide (cleaning_level = AGGRESSIVE)
      then _remove_redundant_content content5 stats5
      else (content5, stats5) in
    (Some (mkElement content6 (element_type element) (level element)
             (position element)
             {| line_start := line_start (metadata element);
                line_end := line_end (metadata element);
                cleaned := true |}),
     stats6).

(** [max(language_counts, key=language_counts.get)]: the first key,
    in insertion order, whose count is the largest. *)
Fixpoint max_by_count (best : string * Z) (d : list (string * Z)) : string :=
  match d with
  | [] => best.1
  | (k, n) :: d' =>
      if bool_decide (n > best.2) then max_by_count (k, n) d'
      else max_by_count best d'
  end.

Definition _determine_language (detected_languages : list string) : string :=
  match foldl (λ d lang, count_up lang d) [] detected_languages with
  | [] => "unknown"
  | kv :: d => max_by_count kv d
  end.

Definition _calculate_quality_score (els : list DocumentElement)
    (stats : CleaningStats) : Q :=
  let score := 1%Q in
  let reduction := get_reduction_percentage stats in
  let score :=
    if Qgtb reduction 50 then (score - (3 # 10))%Q
    else if Qgtb reduction 30 then (score - (2 # 10))%Q
    else if Qgtb reduction 15 then (score - (1 # 10))%Q
    else score in
  let score :=
    if bool_decide (0 < length els)%nat then
      let avg_content_length :=
        (inject_Z (total_chars els) / inject_Z (Z.of_nat (length els)))%Q in
      if Qgtb avg_content_length 100 then (score + (1 # 10))%Q
      else if Qgtb 20 avg_content_length then (score - (1 # 10))%Q
      else score
    else score in
  let score :=
    if Qgtb (inject_Z (headers_removed stats + footers_removed stats))
         (inject_Z (Z.of_nat (length els)) * (1 # 2))
    then (score - (2 # 10))%Q else score in
  Qmax 0 (Qmin 1 score).

(** The state of the loop of [normalize_document].  [ns_calls] is not
    a variable of the program: it records the arguments [detect] is
    called with, in order. *)
Record norm_state := {
  ns_stats : CleaningStats;
  ns_cleaned : list DocumentElement;
  ns_languages : list string;
  ns_calls : list text
}.

Definition norm_step (st : norm_state) (element : DocumentElement)
    : norm_state :=
  let '(cleaned_element, stats) := _clean_element element (ns_stats st) in
  match cleaned_element with
  | Some ce =>
      if bool_decide (strip (content ce) ≠ []) then
        if bool_decide (len (strip (content ce)) > 50) then
          {| ns_stats := stats;
             ns_cleaned := ns_cleaned st ++ [ce];
             ns_languages :=
               match detect (content ce) with
               | Some lang => ns_languages st ++ [lang]
               | None => ns_languages st
               end;
             ns_calls := ns_calls st ++ [content ce] |}
        else
          {| ns_stats := stats; ns_cleaned := ns_cleaned st ++ [ce];
             ns_languages := ns_languages st; ns_calls := ns_calls st |}
      else
        {| ns_stats := stats; ns_cleaned := ns_cleaned st;
           ns_languages := ns_languages st; ns_calls := ns_calls st |}
  | None =>
      {| ns_stats := stats; ns_cleaned := ns_cleaned st;
         ns_languages := ns_languages st; ns_calls := ns_calls st |}
  end.

Definition norm_loop (structure : DocumentStructure) : norm_state :=
  foldl norm_step
    {| ns_stats := set_original_chars (total_chars (elements structure))
                     new_stats;
       ns_cleaned := []; ns_languages := []; ns_calls := [] |}
    (elements structure).

(** [normalize_document(structure)] *)
Definition normalize_document (structure : DocumentStructure)
    : NormalizedDocument :=
  let st := norm_loop structure in
  let final_language := _determine_language (ns_languages st) in
  let stats := set_language_detected final_language (ns_stats st) in
  let quality := _calculate_quality_score (ns_cleaned st) stats in
  let stats := set_cleaned_chars (total_chars (ns_cleaned st)) stats in
  {| original_structure := structure;
     cleaned_elements := ns_cleaned st;
     cleaning_stats := stats;
     detected_language := final_language;
     quality_score := quality;
     norm_metadata :=
       {| nm_cleaning_level := cleaning_level;
          elements_processed := Z.of_nat (length (elements structure));
          elements_kept := Z.of_nat (length (ns_cleaned st)) |} |}.

(** The calls of [detect] during [normalize_document(structure)] *)
Definition detect_calls (structure : DocumentStructure) : list text :=
  ns_calls (norm_loop structure).
End Normalizer.


(** ** [DocumentNormalizer.validate_cleaning] *)

(** The dict [validate_cleaning] returns *)
Record Validation := {
  is_valid : bool;
  warnings : list string;
  errors : list string
}.

Definition add_error (msg : string) (v : Validation) : Validation :=
  {| is_valid := false; warnings := warnings v; errors := errors v ++ [msg] |}.

Definition add_warning (msg : string) (v : Validation) : Validation :=
  {| is_valid := is_valid v; warnings := warnings v ++ [msg];
     errors := errors v |}.

Definition validate_cleaning (normalized_doc : NormalizedDocument)
    : Validation :=
  let validation := {| is_valid := true; warnings := []; errors := [] |} in
  let reduction :=
    get_reduction_percentage (cleaning_stats normalized_doc) in
  let validation :=
    if Qgtb reduction 60
    then add_error "Excessive content reduction detected" validation
    else if Qgtb reduction 40
    then add_warning "High content reduction detected" validation
    else validation in
  let validation :=
    if Qgtb (5 # 10) (quality_score normalized_doc)
    then add_error "Low quality score" validation
    else if Qgtb (7 # 10) (quality_score normalized_doc)
    then add_warning "Moderate quality score" validation
    else validation in
  if bool_decide (length (cleaned_elements normalized_doc) = 0%nat)
  then add_error "No content remaining after cleaning" validation
  else validation.

(** ** [DocumentAcquisition._validate_content]
    ([documnt_accution.py]) *)

(** [' '.join(ts)] *)
Fixpoint join_spaces (ts : list text) : text :=
  match ts with
  | [] => []
  | [t] => t
  | t :: ts' => t ++ SP :: join_spaces ts'
  end.

(** The warning the function logs for a short content does not change
    what it returns. *)
Definition _validate_content (content : text) : text :=
  if bool_decide (content = [] ∨ len (strip content) < 10) then []
  else join_spaces (split_ws content).
(** ** Inputs of the scenarios *)

Definition txt : string → text := text_of_string.

Definition plain_metadata : ElementMetadata :=
  {| line_start := 0; line_end := 0; cleaned := false |}.

(** A structure with one element, as a caller may build it *)
Definition single (c : text) : DocumentStructure :=
  {| elements := [mkElement c PARAGRAPH 0 0 plain_metadata];
     hierarchy := ∅; doc_metadata := None; table_of_contents := [] |}.

(** ["# Title\n\nSome paragraph text here."] *)
Definition scenario_A : text :=
  join_lines [txt "# Title"; txt ""; txt "Some paragraph text here."].

(** A fenced block and an indented block *)
Definition fenced_input : text :=
  join_lines [txt "```python"; txt "x = 1"; txt "```"].

Definition indented_input : text :=
  join_lines [txt "    x = 1"; txt "    y = 2"].

(** ["ok\n!!!!!!!!!!\nok\nok"] *)
Definition scenario_D : text :=
  join_lines [txt "ok"; txt "!!!!!!!!!!"; txt "ok"; txt "ok"].

(** ["hello\nworld"]: a sentence wrapped in the middle *)
Definition wrapped_sentence : text := join_lines [txt "hello"; txt "world"].


(** ["Page 1\n\n"] followed by a sentence of 50 characters *)
Definition page_then_sentence : text :=
  join_lines [txt "Page 1"; txt "";
              txt "The quick brown fox jumps over the lazy dog again."].

(** Two headings, the second below the first, and a paragraph *)
Definition nested_headings : text :=
  join_lines [txt "# A"; txt "# Abc"; txt "plain words"].

(** ["page 1"] with a zero-width space (U+200B) inside the word *)
Definition broken_page_marker : text := txt "pa" ++ [0x200B%N] ++ txt "ge 1".

(** A detector that always answers ["en"] *)
Definition detect_en (s : text) : option string := Some "en".

(** The tables of [ascii_tables] with the NFC form of the Devanagari
    letter QA (U+0958), which Unicode excludes from composition: KA
    (U+0915) followed by NUKTA (U+093C).  On a text of ASCII characters
    and Devanagari letters without other marks this is the
    interpreter's [unicodedata.normalize('NFC', _)]. *)
Definition nukta_tables : unicode_tables := {|
  uc_isdecimal := uc_isdecimal ascii_tables;
  uc_isword := uc_isword ascii_tables;
  uc_islower := uc_islower ascii_tables;
  uc_isalnum := uc_isalnum ascii_tables;
  uc_tolower := uc_tolower ascii_tables;
  uc_nfc s :=
    s ≫= λ c, if (c =? 0x0958)%N then [0x0915; 0x093C]%N else [c]
|}.

(** The Hindi word qalam, "pen", spelled with the letter QA *)
Definition qalam : text := [0x0958; 0x0932; 0x092E]%N.

(** A markdown heading after two spaces: ["  # Title"] *)
Definition indented_heading : text := txt "  # Title".

(** ** Invariants of the parser *)

(** The level [_parse_elements] gives to an element of each kind *)
Definition level_ok (e : DocumentElement) : Prop :=
  match element_type e with
  | HEADING => 1 ≤ level e
  | PARAGRAPH => level e = 0
  | LIST_ITEM | TABLE | CODE_BLOCK => level e = 1
  | _ => False
  end.

(** The [i]-th element as [_parse_elements] creates it *)
Definition fresh_element (i : nat) (e : DocumentElement) : Prop :=
  position e = Z.of_nat i ∧ parent_id e = None ∧ level_ok e.

Definition parsed_shape (els : list DocumentElement) : Prop :=
  ∀ i e, els !! i = Some e → fresh_element i e.

(** The invariant of the loop of [_build_hierarchy] *)
Record hier_inv (st : hier_state) : Prop := {
  hi_pos : ∀ i e, hs_done st !! i = Some e →
             position e = Z.of_nat i ∧ level_ok e;
  hi_stack : ∀ id l, (id, l) ∈ hs_stack st →
               1 ≤ l ∧ ∃ p, p ∈ hs_done st
                             ∧ element_id_of (position p) = id ∧ level p = l;
  hi_parent : ∀ e pid, e ∈ hs_done st → parent_id e = Some pid →
                ∃ p, p ∈ hs_done st ∧ element_id_of (position p) = pid
                     ∧ level p < level e;
  hi_leaf : ∀ e, e ∈ hs_done st →
              is_heading_type (element_type e) = false → parent_id e = None;
  hi_children : ∀ pid cs id, hs_hierarchy st !! pid = Some cs → id ∈ cs →
                  ∃ e, e ∈ hs_done st ∧ element_id_of (position e) = id
                       ∧ parent_id e = Some pid
}.

(** ** The language vote *)

(** How often [l] was returned *)
Definition occurrences (l : string) (langs : list string) : nat :=
  length (filter (λ x, x = l) langs).

(** [r] is the most frequent code of [langs] and, among the codes that
    are as frequent, the one met first: no code occurs more often, and
    every code met before the first [r] occurs strictly less often. *)
Definition most_frequent_first_seen (langs : list string) (r : string)
    : Prop :=
  ∃ pre post,
    langs = pre ++ r :: post ∧ (r ∉ pre)
    ∧ (∀ l, l ∈ langs → (occurrences l langs ≤ occurrences r langs)%nat)
    ∧ (∀ l, l ∈ pre → (occurrences l langs < occurrences r langs)%nat).

(** The keys of the dict of counts: the codes in the order in which
    they are first met *)
Definition first_seen (langs : list string) : list string :=
  foldl (λ ks x, if bool_decide (x ∈ ks) then ks else ks ++ [x]) [] langs.

(** The dict of counts of [_determine_language] *)
Definition language_counts (langs : list string) : list (string * Z) :=
  foldl (λ d lang, count_up lang d) [] langs.

(** The elements on which [normalize_document] calls the detector *)
Definition qualifies (ce : DocumentElement) : Prop :=
  len (strip (content ce)) > 50.

Global Instance qualifies_dec ce : Decision (qualifies ce).
Proof. unfold qualifies. apply _. Defined.

(** The value of a key of a dict of counts, 0 when the key is absent *)
Fixpoint dcount (k : string) (d : list (string * Z)) : Z :=
  match d with
  | [] => 0
  | (k', n) :: d' => if bool_decide (k' = k) then n else dcount k d'
  end.

(** ** Characters and lengths through the cleaning passes *)

(** Neither one of [invisible_chars] nor a control character of
    [_remove_invisible_characters] *)
Definition visible (c : N) : Prop :=
  (c ∉ invisible_chars) ∧ control_char c = false.

Global Instance visible_dec c : Decision (visible c).
Proof. unfold visible. apply _. Defined.

(** Normalization to NFC brings in no invisible character. *)
Definition nfc_keeps_visible (U : unicode_tables) : Prop :=
  ∀ s, Forall visible s → Forall visible (uc_nfc U s).

(** Normalization to NFC does not lengthen a text. *)
Definition nfc_not_longer (U : unicode_tables) : Prop :=
  ∀ s, (length (uc_nfc U s) ≤ length s)%nat.

(** The cleaned elements taken as a new structure *)
Definition rewrap (els : list DocumentElement) : DocumentStructure :=
  {| elements := els; hierarchy := ∅; doc_metadata := None;
     table_of_contents := [] |}.

(** The length of the longest prefix of [s] in the class [p] *)
Fixpoint span_len (p : N → bool) (s : text) : nat :=
  match s with
  | c :: s' => if p c then S (span_len p s') else O
  | [] => O
  end.

(** The characters of the lines and one newline for each *)
Definition lines_size (ls : list text) : nat :=
  foldr (λ l n, S (length l + n)) O ls.

(** The counters of removed headers, footers and invisible characters
    are the same in both statistics. *)
Definition same_removals (st st' : CleaningStats) : Prop :=
  headers_removed st' = headers_removed st
  ∧ footers_removed st' = footers_removed st
  ∧ invisible_chars_removed st' = invisible_chars_removed st.

(** What [fix_lines] makes of the line [l]: the stripped line, with a
    space after it when it is taken for a broken sentence *)
Definition fixed_from (l f : text) : Prop :=
  f = strip l ∨ (is_Some (last (strip l)) ∧ f = strip l ++ [SP]).

(** The substitutions of [_standardize_whitespace] on one line *)
Definition squeeze_spaces : text → text :=
  re_sub (Rep true 2 None (is_char SP)) [SP].

Definition squeeze_tabs : text → text :=
  re_sub (Rep true 1 None (is_char TAB)) [SP].

(** ** Further notions for the parser *)

(** [DocumentStructure([], {}, {}, [])] *)
Definition empty_structure : DocumentStructure :=
  {| elements := []; hierarchy := ∅; doc_metadata := None;
     table_of_contents := [] |}.

(** What [_build_hierarchy] leaves untouched in an element *)
Definition element_core (e : DocumentElement)
    : text * ContentType * Z * Z * ElementMetadata :=
  (content e, element_type e, level e, position e, metadata e).

(** The kinds of element the parser produces *)
Definition parsed_kind (ty : ContentType) : Prop :=
  ty = HEADING ∨ ty = PARAGRAPH ∨ ty = LIST_ITEM ∨ ty = TABLE.

(** The lines an element covers lie in the text, and before the line
    [bound] *)
Definition span_below (bound : Z) (e : DocumentElement) : Prop :=
  0 ≤ line_start (metadata e) ≤ line_end (metadata e)
  ∧ line_end (metadata e) < bound.

(** The elements cover disjoint line ranges, in order. *)
Definition spans_ordered (els : list DocumentElement) : Prop :=
  ∀ i j e1 e2, els !! i = Some e1 → els !! j = Some e2 → (i < j)%nat →
               line_end (metadata e1) < line_start (metadata e2).

(** A line as [parse_document] hands it to [_identify_element]: a
    line of [content.split('\n')] *)
Definition source_lines (lines : list text) : Prop :=
  Forall (λ l, LF ∉ l) lines.

(** Further invariant of the loop of [_build_hierarchy]: the parent
    ids and the hierarchy dict agree, and a parent is a heading that
    comes earlier in the list. *)
Record hier_links (st : hier_state) : Prop := {
  hl_child : ∀ e pid, e ∈ hs_done st → parent_id e = Some pid →
               ∃ cs, hs_hierarchy st !! pid = Some cs
                     ∧ element_id_of (position e) ∈ cs;
  hl_stack : ∀ id l, (id, l) ∈ hs_stack st →
               ∃ i p, hs_done st !! i = Some p
                      ∧ id = element_id_of (position p)
                      ∧ is_heading_type (element_type p) = true;
  hl_parent : ∀ j e pid, hs_done st !! j = Some e → parent_id e = Some pid →
                ∃ i p, (i < j)%nat ∧ hs_done st !! i = Some p
                       ∧ element_id_of (position p) = pid
                       ∧ is_heading_type (element_type p) = true
}.

(** The sum of the counts of a dict of counts *)
Definition counts_total {K} (d : list (K * Z)) : Z :=
  foldr (λ kv n, kv.2 + n) 0 d.

(** ** Further notions for the normalizer *)

(** What cleaning keeps of an element *)
Definition element_key (e : DocumentElement) : ContentType * Z * Z :=
  (element_type e, level e, position e).

(** A line that [_remove_headers_footers] removes as a header *)
Definition header_line (U : unicode_tables) (line : text) : Prop :=
  is_header_line U (strip line) = true.

(** A line that it removes as a footer: no header, and a footer *)
Definition footer_line (U : unicode_tables) (line : text) : Prop :=
  is_header_line U (strip line) = false
  ∧ is_footer_line U (strip line) = true.

(** A line that it keeps *)
Definition body_line (U : unicode_tables) (line : text) : Prop :=
  is_header_line U (strip line) = false
  ∧ is_footer_line U (strip line) = false.

(** No line of the list repeats the line before it. *)
Definition no_repeat (ls : list text) : Prop :=
  ∀ i a b, ls !! i = Some a → ls !! S i = Some b → a ≠ b.

(** A token of [str.split()]: not empty, no white space *)
Definition token (w : text) : Prop :=
  w ≠ [] ∧ Forall (λ c, isspace c = false) w.

Global Instance header_line_dec U l : Decision (header_line U l).
Proof. unfold header_line. apply _. Defined.

Global Instance footer_line_dec U l : Decision (footer_line U l).
Proof. unfold footer_line. apply _. Defined.

Global Instance body_line_dec U l : Decision (body_line U l).
Proof. unfold body_line. apply _. Defined.

(** From [st] to [st'] the character totals and the language are
    untouched, no counter has gone down, [unicode_fixed] has gone up by
    at most [ku] and [whitespace_normalized] by at most [kw]. *)
Definition stats_grow (ku kw : Z) (st st' : CleaningStats) : Prop :=
  original_chars st' = original_chars st
  ∧ cleaned_chars st' = cleaned_chars st
  ∧ language_detected st' = language_detected st
  ∧ headers_removed st ≤ headers_removed st'
  ∧ footers_removed st ≤ footers_removed st'
  ∧ line_breaks_fixed st ≤ line_breaks_fixed st'
  ∧ invisible_chars_removed st ≤ invisible_chars_removed st'
  ∧ unicode_fixed st ≤ unicode_fixed st' ≤ unicode_fixed st + ku
  ∧ whitespace_normalized st ≤ whitespace_normalized st'
    ≤ whitespace_normalized st + kw.

(** [x] with [a] replaced by [b] *)
Definition subst_char (a b x : N) : N := if (x =? a)%N then b else x.

(** More than 70% of the characters of the line are neither
    alphanumeric nor white space. *)
Definition mostly_symbols (U : unicode_tables) (line : text) : Prop :=
  Qgtb (inject_Z (special_chars U line) / inject_Z (len line)) (7 # 10)
  = true.

(** A character of cleaned text: visible, and neither a carriage
    return nor a tab. *)
Definition clean_char (c : N) : Prop := visible c ∧ c ≠ CR ∧ c ≠ TAB.

(** The lines [line_start .. line_end] of the text, for an element *)
Definition span_lines (lines : list text) (e : DocumentElement) : list text :=
  take (Z.to_nat (line_end (metadata e) - line_start (metadata e) + 1))
    (drop (Z.to_nat (line_start (metadata e))) lines).

(** The content of the element is the text of the lines it spans: as
    they are for a table, stripped one by one for the other kinds. *)
Definition content_of_span (lines : list text) (e : DocumentElement) : Prop :=
  content e
  = join_lines (if decide (element_type e = TABLE) then span_lines lines e
                else strip <$> span_lines lines e).
(** ** Scenario A (C1) *)

(** C1, as stated, fails: no run of [parse_document] on
    ["# Title\n\nSome paragraph text here."] returns a level-1 heading
    followed by a paragraph with a one-entry table of contents. *)
Lemma scenario_A_not_heading_then_paragraph :
  ¬ ∃ (fuel : nat) (S : DocumentStructure) (h p : DocumentElement),
      parse_document ascii_tables fuel scenario_A "unknown" = Some S
      ∧ elements S = [h; p]
      ∧ element_type h = HEADING ∧ level h = 1
      ∧ content h = txt "# Title" ∧ position h = 0
      ∧ element_type p = PARAGRAPH
      ∧ content p = txt "Some paragraph text here." ∧ position p = 1
      ∧ table_of_contents S =
          [{| toc_title := txt "# Title"; toc_level := 1; toc_position := 0;
              toc_element_id := "element_0" |}].
Proof.
  intros (fuel & S & h & p & Hrun & Hels & _ & _ & _ & _ & Hp & _).
  do 4 (destruct fuel as [|fuel]; [vm_compute in Hrun; discriminate|]).
  vm_compute in Hrun.
  injection Hrun as <-.
  simpl in Hels. injection Hels as <- <-.
  discriminate Hp.
Qed.

(** C1, amended: on ["# Title\n\nSome paragraph text here."] the parser
    returns exactly two elements, both headings: ["# Title"] at position
    0 and ["Some paragraph text here."], of level 1, at position 1 (the
    markdown rule set takes a capitalized line ending in a period for a
    level-1 heading); the table of contents has exactly these two
    entries.  Whatever the Unicode tables, four iterations suffice. *)
Theorem scenario_A_two_headings (U : unicode_tables) (n : nat) :
  ∃ (S : DocumentStructure) (h1 h2 : DocumentElement) (t1 t2 : TocEntry),
    parse_document U (4 + n) scenario_A "unknown" = Some S
    ∧ elements S = [h1; h2]
    ∧ element_type h1 = HEADING
    ∧ content h1 = txt "# Title" ∧ position h1 = 0
    ∧ element_type h2 = HEADING ∧ level h2 = 1
    ∧ content h2 = txt "Some paragraph text here." ∧ position h2 = 1
    ∧ table_of_contents S = [t1; t2]
    ∧ toc_title t1 = txt "# Title" ∧ toc_position t1 = 0
    ∧ toc_title t2 = txt "Some paragraph text here."
    ∧ toc_level t2 = 1 ∧ toc_position t2 = 1.
Proof.
  eexists _, _, _, _, _.
  split; [vm_compute; reflexivity|].
  repeat split; reflexivity.
Qed.

(** ** Code blocks (C4) *)

(** C4: on a text that opens a fenced block, and on a text whose lines
    are indented by four spaces, [parse_document] returns one paragraph
    and no code block: [_identify_element] tests the code patterns on
    the stripped line, which holds neither a newline nor leading
    spaces. *)
Theorem code_blocks_parsed_as_paragraphs (n : nat) :
  (∃ S e, parse_document ascii_tables (2 + n) fenced_input "unknown" = Some S
          ∧ elements S = [e] ∧ element_type e = PARAGRAPH
          ∧ content e = fenced_input)
  ∧ (∃ S e, parse_document ascii_tables (2 + n) indented_input "unknown"
            = Some S
            ∧ elements S = [e] ∧ element_type e = PARAGRAPH
            ∧ content e = join_lines [txt "x = 1"; txt "y = 2"]).
Proof.
  split; eexists _, _; (split; [vm_compute; reflexivity|]);
    repeat split; reflexivity.
Qed.

(** ** Line-break repair (C3) *)

(** C3: on ["hello\nworld"] the repair pass counts one join but returns
    ["hello \nworld"]: the newline is still there, and so it is in the
    content of the cleaned element. *)
Theorem fix_line_breaks_keeps_newline :
  _fix_line_breaks ascii_tables wrapped_sentence new_stats
  = (join_lines [txt "hello "; txt "world"],
     add_line_breaks_fixed 1 new_stats)
  ∧ ∃ ce st,
      _clean_element ascii_tables STANDARD
        (mkElement wrapped_sentence PARAGRAPH 0 0 plain_metadata) new_stats
      = (Some ce, st)
      ∧ content ce = wrapped_sentence
      ∧ LF ∈ content ce
      ∧ line_breaks_fixed st = 1.
Proof.
  split; [vm_compute; reflexivity|].
  eexists _, _. split; [vm_compute; reflexivity|].
  split; [reflexivity|]. split; [|reflexivity].
  vm_compute. set_solver.
Qed.

(** ** Quality score (C2) *)

(** C2: for the structure parsed from ["Hello world"], cleaning removes
    nothing and the reduction of the returned statistics is 0, yet the
    returned score is 0.6 = 1.0 - 0.3 - 0.1: [normalize_document]
    computes the score while [cleaned_chars] is still 0, that is with a
    reduction of 100.  Computed from the returned statistics the score
    is 0.9. *)
Theorem quality_score_uses_stale_reduction :
  ∃ S doc,
    parse_document ascii_tables 2 (txt "Hello world") "unknown" = Some S
    ∧ doc = normalize_document ascii_tables (λ _, Some "en") STANDARD S
    ∧ content <$> cleaned_elements doc = [txt "Hello world"]
    ∧ (get_reduction_percentage (cleaning_stats doc) == 0)%Q
    ∧ (quality_score doc == 6 # 10)%Q
    ∧ (_calculate_quality_score (cleaned_elements doc) (cleaning_stats doc)
       == 9 # 10)%Q.
Proof.
  eexists _, _. split; [vm_compute; reflexivity|].
  split; [reflexivity|].
  repeat split; vm_compute; reflexivity.
Qed.

(** ** Scenario D (C5) *)

(** C5, as stated, fails: after aggressive cleaning of
    ["ok\n!!!!!!!!!!\nok\nok"] the content does not hold two lines
    ["ok"]. *)
Lemma scenario_D_no_ok_survives :
  ¬ ∃ ce st,
      _clean_element ascii_tables AGGRESSIVE
        (mkElement scenario_D PARAGRAPH 0 0 plain_metadata) new_stats
      = (Some ce, st)
      ∧ length (filter (λ l, l = txt "ok") (split_lines (content ce)))
        = 2%nat.
Proof.
  intros (ce & st & Hrun & Hcount).
  vm_compute in Hrun. injection Hrun as <- _.
  vm_compute in Hcount. discriminate.
Qed.

(** C5, amended: aggressive cleaning of ["ok\n!!!!!!!!!!\nok\nok"] drops
    every line: the three lines ["ok"] because they are shorter than 3
    characters, the line ["!!!!!!!!!!"] because its ratio of special
    characters, 1, exceeds 0.7.  The cleaned content is empty and
    [normalize_document] keeps no element. *)
Theorem scenario_D_all_lines_dropped :
  len (txt "ok") < 3
  ∧ ¬ len (txt "!!!!!!!!!!") < 3
  ∧ Qgtb (inject_Z (special_chars ascii_tables (txt "!!!!!!!!!!"))
          / inject_Z (len (txt "!!!!!!!!!!"))) (7 # 10) = true
  ∧ (∃ ce st,
       _clean_element ascii_tables AGGRESSIVE
         (mkElement scenario_D PARAGRAPH 0 0 plain_metadata) new_stats
       = (Some ce, st)
       ∧ content ce = [])
  ∧ cleaned_elements
      (normalize_document ascii_tables (λ _, Some "en") AGGRESSIVE
         (single scenario_D)) = [].
Proof.
  split; [vm_compute; reflexivity|].
  split; [vm_compute; discriminate|].
  split; [vm_compute; reflexivity|].
  split; [|vm_compute; reflexivity].
  eexists _, _. split; [vm_compute; reflexivity|reflexivity].
Qed.

(** ** Text and pattern lemmas *)

Lemma lstrip_suffix (s : text) : lstrip s `suffix_of` s.
Proof.
  induction s as [|c s IH]; simpl; [done|].
  destruct (isspace c); [by apply suffix_cons_r|done].
Qed.

(** [strip] cuts a prefix and a suffix off. *)
Lemma strip_decomp (s : text) : ∃ pre post, s = pre ++ strip s ++ post.
Proof.
  unfold strip, rstrip.
  destruct (lstrip_suffix s) as [pre Hpre].
  destruct (lstrip_suffix (reverse (lstrip s))) as [q Hq].
  exists pre, (reverse q). rewrite Hpre at 1. f_equal.
  rewrite <- reverse_app, <- Hq. by rewrite reverse_involutive.
Qed.

Lemma strip_length (s : text) : (length (strip s) ≤ length s)%nat.
Proof.
  destruct (strip_decomp s) as (pre & post & Hs).
  rewrite Hs at 2. rewrite !length_app. lia.
Qed.

Lemma strip_Forall (P : N → Prop) (s : text) :
  Forall P s → Forall P (strip s).
Proof.
  destruct (strip_decomp s) as (pre & post & Hs).
  rewrite Hs at 1. by intros [_ [? _]%Forall_app]%Forall_app.
Qed.

Lemma lstrip_head (s : text) (c : N) :
  head (lstrip s) = Some c → isspace c = false.
Proof.
  induction s as [|a s IH]; simpl; [done|].
  destruct (isspace a) eqn:Ha; [done|]. simpl. by intros [= <-].
Qed.

Lemma lstrip_app (w v : text) :
  lstrip (w ++ v) = match lstrip w with [] => lstrip v | t => t ++ v end.
Proof.
  induction w as [|a w IH]; simpl; [by destruct (lstrip v)|].
  destruct (isspace a); [done|done].
Qed.

(** The last character of a stripped text is no white space. *)
Lemma strip_last (s : text) (c : N) :
  last (strip s) = Some c → isspace c = false.
Proof.
  unfold strip, rstrip. rewrite last_reverse. apply lstrip_head.
Qed.

(** A trailing white space does not survive [strip]. *)
Lemma strip_snoc_space (w : text) (a : N) :
  isspace a = true → strip (w ++ [a]) = strip w.
Proof.
  intros Ha. unfold strip. rewrite lstrip_app.
  destruct (lstrip w) as [|b t] eqn:Hw; simpl; [by rewrite Ha|].
  unfold rstrip. rewrite app_comm_cons, reverse_app. simpl.
  by rewrite Ha.
Qed.

Lemma split_lines_nonempty (s : text) : split_lines s ≠ [].
Proof.
  induction s as [|c s IH]; simpl; [done|].
  destruct (c =? LF)%N; [done|]. by destruct (split_lines s).
Qed.

Lemma split_lines_Forall (P : N → Prop) (s : text) :
  Forall P s → Forall (Forall P) (split_lines s).
Proof.
  induction 1 as [|c s Hc Hs IH]; simpl; [by repeat constructor|].
  destruct (c =? LF)%N; [by repeat constructor|].
  destruct IH as [|l ls Hl Hls]; repeat constructor; done.
Qed.

Lemma join_lines_cons (l : text) (ls : list text) :
  ls ≠ [] → join_lines (l :: ls) = l ++ LF :: join_lines ls.
Proof. by destruct ls. Qed.

Lemma join_lines_Forall (P : N → Prop) (ls : list text) :
  P LF → Forall (Forall P) ls → Forall P (join_lines ls).
Proof.
  intros HLF. induction 1 as [|l ls Hl Hls IH]; [constructor|].
  destruct ls as [|l' ls]; [done|].
  rewrite join_lines_cons by done.
  apply Forall_app. split; [done|]. by constructor.
Qed.

Lemma join_split_lines (s : text) : join_lines (split_lines s) = s.
Proof.
  induction s as [|c s IH]; simpl; [done|].
  destruct (c =? LF)%N eqn:Hc.
  - apply N.eqb_eq in Hc as ->.
    rewrite join_lines_cons by apply split_lines_nonempty.
    by rewrite IH.
  - pose proof (split_lines_nonempty s) as Hne.
    destruct (split_lines s) as [|l ls]; [done|].
    destruct ls as [|l' ls]; simpl in *; by rewrite <- IH.
Qed.

Lemma split_lines_no_LF (s : text) :
  Forall (λ l, LF ∉ l) (split_lines s).
Proof.
  induction s as [|c s IH]; simpl.
  - repeat constructor. apply not_elem_of_nil.
  - destruct (c =? LF)%N eqn:Hc.
    + constructor; [apply not_elem_of_nil|done].
    + apply N.eqb_neq in Hc.
      destruct IH as [|l ls Hl Hls].
      * repeat constructor. intros ?%list_elem_of_singleton. congruence.
      * constructor; [|done]. intros [?|?]%elem_of_cons; congruence.
Qed.

Lemma split_lines_app_LF (l s : text) :
  LF ∉ l → split_lines (l ++ LF :: s) = l :: split_lines s.
Proof.
  induction l as [|c l IH]; intros Hl; simpl; [done|].
  rewrite (proj2 (N.eqb_neq c LF)) by (intros ->; apply Hl; by left).
  rewrite IH; [done|]. intros ?. apply Hl. by right.
Qed.

Lemma split_lines_single (l : text) : LF ∉ l → split_lines l = [l].
Proof.
  induction l as [|c l IH]; intros Hl; simpl; [done|].
  rewrite (proj2 (N.eqb_neq c LF)) by (intros ->; apply Hl; by left).
  rewrite IH; [done|]. intros ?. apply Hl. by right.
Qed.

Lemma split_join_lines (ls : list text) :
  ls ≠ [] → Forall (λ l, LF ∉ l) ls → split_lines (join_lines ls) = ls.
Proof.
  intros Hne Hls. induction Hls as [|l ls Hl Hls IH]; [done|].
  destruct ls as [|l' ls]; [by apply split_lines_single|].
  rewrite join_lines_cons by done.
  rewrite split_lines_app_LF by done. by rewrite IH.
Qed.

Lemma lines_size_cons (l : text) (ls : list text) :
  lines_size (l :: ls) = S (length l + lines_size ls).
Proof. done. Qed.

Lemma join_lines_size (ls : list text) :
  ls ≠ [] → S (length (join_lines ls)) = lines_size ls.
Proof.
  induction ls as [|l ls IH]; [done|]. intros _.
  destruct ls as [|l' ls]; [simpl; lia|].
  rewrite join_lines_cons by done.
  rewrite length_app. cbn [length lines_size foldr] in *.
  rewrite <- IH by done. lia.
Qed.

Lemma join_lines_length_le (ls ls' : list text) :
  ls' ≠ [] → (lines_size ls ≤ lines_size ls')%nat →
  (length (join_lines ls) ≤ length (join_lines ls'))%nat.
Proof.
  intros Hne Hle. destruct ls as [|l ls]; [simpl; lia|].
  pose proof (join_lines_size (l :: ls)). pose proof (join_lines_size ls').
  naive_solver lia.
Qed.

Lemma lines_size_sublist (ls ls' : list text) :
  ls `sublist_of` ls' → (lines_size ls ≤ lines_size ls')%nat.
Proof. induction 1; simpl; lia. Qed.

Lemma lines_size_Forall2 (f : text → text → Prop) (ls ls' : list text) :
  (∀ l l', f l l' → (length l ≤ length l')%nat) →
  Forall2 f ls ls' → (lines_size ls ≤ lines_size ls')%nat.
Proof.
  intros Hf. induction 1 as [|l l' ls ls' Hl _ IH]; simpl; [lia|].
  apply Hf in Hl. lia.
Qed.

(** *** The matcher only moves forward *)

Lemma rep_greedy_suffix {A} (p : N → bool) (lo : nat) (hi : option nat)
    (n : nat) (s : text) (k : text → option A) (a : A) :
  rep_greedy p lo hi n s k = Some a →
  ∃ s', s' `suffix_of` s ∧ k s' = Some a.
Proof.
  revert n. induction s as [|c s IH]; intros n; simpl.
  - case_bool_decide; [|done]. intros Hk. by exists [].
  - assert ((if bool_decide (lo ≤ n)%nat then k (c :: s) else None) = Some a →
            ∃ s', s' `suffix_of` c :: s ∧ k s' = Some a) as Hstop.
    { case_bool_decide; [|done]. intros Hk. by exists (c :: s). }
    destruct (p c && below n hi); [|done].
    destruct (rep_greedy p lo hi (S n) s k) as [a'|] eqn:Hrec; [|done].
    intros [= ->]. destruct (IH _ Hrec) as (s' & Hs' & Hk).
    exists s'. split; [by apply suffix_cons_r|done].
Qed.

Lemma rep_lazy_suffix {A} (p : N → bool) (lo : nat) (hi : option nat)
    (n : nat) (s : text) (k : text → option A) (a : A) :
  rep_lazy p lo hi n s k = Some a →
  ∃ s', s' `suffix_of` s ∧ k s' = Some a.
Proof.
  revert n. induction s as [|c s IH]; intros n; simpl.
  - case_bool_decide; [|done].
    destruct (k []) eqn:Hk; [|done]. intros [= ->]. by exists [].
  - destruct (if bool_decide (lo ≤ n)%nat then k (c :: s) else None)
      as [a'|] eqn:Hstop.
    + intros [= ->]. case_bool_decide; [|done]. by exists (c :: s).
    + destruct (p c && below n hi); [|done].
      intros Hrec. destruct (IH _ Hrec) as (s' & Hs' & Hk).
      exists s'. split; [by apply suffix_cons_r|done].
Qed.

Lemma run_suffix {A} (r : re) (s : text) (g : option text)
    (k : text → option text → option A) (a : A) :
  run r s g k = Some a →
  ∃ s' g', s' `suffix_of` s ∧ k s' g' = Some a.
Proof.
  revert s g k. induction r as [|p|r1 IH1 r2 IH2|r1 IH1 r2 IH2
                                |greedy lo hi p|r IH|]; intros s g k; simpl.
  - intros Hk. by exists s, g.
  - destruct s as [|c s]; [done|]. destruct (p c); [|done].
    intros Hk. exists s, g. split; [by apply suffix_cons_r|done].
  - intros H1. destruct (IH1 _ _ _ H1) as (s1 & g1 & Hs1 & H2).
    destruct (IH2 _ _ _ H2) as (s2 & g2 & Hs2 & Hk).
    exists s2, g2. split; [by etrans|done].
  - destruct (run r1 s g k) as [a'|] eqn:H1.
    + intros [= ->]. by eapply IH1.
    + apply IH2.
  - destruct greedy.
    + intros (s' & ? & ?)%rep_greedy_suffix. by exists s', g.
    + intros (s' & ? & ?)%rep_lazy_suffix. by exists s', g.
  - intros H1. destruct (IH _ _ _ H1) as (s1 & g1 & Hs1 & Hk).
    by eexists _, _.
  - destruct s as [|c [|c' s]]; [|destruct (c =? LF)%N|]; try done;
      intros Hk; eexists _, _; (split; [|exact Hk]); done.
Qed.

Lemma re_match_suffix (r : re) (s rest : text) (g : option text) :
  re_match r s = Some (rest, g) → rest `suffix_of` s.
Proof.
  unfold re_match. intros (s' & g' & Hs' & [= -> _])%run_suffix. done.
Qed.

Lemma suffix_Forall (P : N → Prop) (s' s : text) :
  s' `suffix_of` s → Forall P s → Forall P s'.
Proof. intros [pre ->]. by intros [_ ?]%Forall_app. Qed.

(** *** [re.sub] *)

Lemma re_sub_go_Forall (P : N → Prop) (r : re) (repl : text) (fuel : nat)
    (s : text) :
  Forall P repl → Forall P s → Forall P (re_sub_go fuel r repl s).
Proof.
  intros Hrepl. revert s.
  induction fuel as [|fuel IH]; intros s Hs; simpl; [done|].
  destruct s as [|c s]; [done|].
  assert (Forall P (c :: re_sub_go fuel r repl s)) as Hskip.
  { inversion Hs; subst. constructor; [done|by apply IH]. }
  destruct (re_match r (c :: s)) as [[rest g]|] eqn:Hm; [|done].
  case_bool_decide; [|done].
  apply Forall_app. split; [done|]. apply IH.
  eapply suffix_Forall; [by eapply re_match_suffix|done].
Qed.

Lemma re_sub_Forall (P : N → Prop) (r : re) (repl s : text) :
  Forall P repl → Forall P s → Forall P (re_sub r repl s).
Proof. apply re_sub_go_Forall. Qed.

Lemma re_sub_go_fuel (r : re) (repl : text) (f1 f2 : nat) (s : text) :
  (length s ≤ f1)%nat → (length s ≤ f2)%nat →
  re_sub_go f1 r repl s = re_sub_go f2 r repl s.
Proof.
  revert f2 s. induction f1 as [|f1 IH]; intros f2 s H1 H2.
  - destruct s; [|simpl in H1; lia]. by destruct f2.
  - destruct f2 as [|f2]; [destruct s; [done|simpl in H2; lia]|].
    simpl. destruct s as [|c s]; [done|]. simpl in H1, H2.
    destruct (re_match r (c :: s)) as [[rest g]|]; [|f_equal; apply IH; lia].
    case_bool_decide as Hlt; [|f_equal; apply IH; lia].
    simpl in Hlt. f_equal. apply IH; lia.
Qed.

(** The equation of [re.sub] at a non-empty text *)
Lemma re_sub_cons (r : re) (repl : text) (c : N) (s : text) :
  re_sub r repl (c :: s)
  = match re_match r (c :: s) with
    | Some (rest, _) =>
        if bool_decide (length rest < length (c :: s))%nat
        then repl ++ re_sub r repl rest
        else c :: re_sub r repl s
    | None => c :: re_sub r repl s
    end.
Proof.
  unfold re_sub at 1. cbn [length re_sub_go].
  destruct (re_match r (c :: s)) as [[rest g]|]; [|done].
  case_bool_decide as Hlt; [|done].
  f_equal. apply re_sub_go_fuel; [simpl in Hlt; lia|done].
Qed.

Lemma re_sub_nil (r : re) (repl : text) : re_sub r repl [] = [].
Proof. done. Qed.

(** A substitution whose matches are at least as long as the
    replacement does not lengthen the text. *)
Lemma re_sub_length (r : re) (repl s : text) :
  (∀ s0 rest g, re_match r s0 = Some (rest, g) →
                (length rest < length s0)%nat →
                (length rest + length repl ≤ length s0)%nat) →
  (length (re_sub r repl s) ≤ length s)%nat.
Proof.
  intros Hr.
  induction s as [s IH] using (induction_ltof1 _ length).
  unfold ltof in IH.
  destruct s as [|c s]; [done|]. rewrite re_sub_cons.
  assert (length (re_sub r repl s) ≤ length s)%nat as IHs
    by (apply IH; simpl; lia).
  destruct (re_match r (c :: s)) as [[rest g]|] eqn:Hm; [|simpl; lia].
  case_bool_decide as Hlt; [|simpl; lia].
  rewrite length_app. pose proof (Hr _ _ _ Hm Hlt). pose proof (IH rest Hlt).
  lia.
Qed.

(** *** [str.replace] *)

Lemma str_replace_go_Forall (P : N → Prop) (old new : text) (fuel : nat)
    (s : text) :
  Forall P new → Forall P s → Forall P (str_replace_go fuel old new s).
Proof.
  intros Hnew. revert s.
  induction fuel as [|fuel IH]; intros s Hs; simpl; [done|].
  destruct s as [|c s]; [done|].
  destruct (startswith old (c :: s)).
  - apply Forall_app. split; [done|]. apply IH. by apply Forall_drop.
  - inversion Hs; subst. constructor; [done|by apply IH].
Qed.

Lemma str_replace_Forall (P : N → Prop) (old new s : text) :
  Forall P new → Forall P s → Forall P (str_replace old new s).
Proof. apply str_replace_go_Forall. Qed.

Lemma str_replace_go_length (old new : text) (fuel : nat) (s : text) :
  (length new ≤ length old)%nat →
  (length (str_replace_go fuel old new s) ≤ length s)%nat.
Proof.
  intros Hlen. revert s.
  induction fuel as [|fuel IH]; intros s; simpl; [done|].
  destruct s as [|c s]; [done|].
  destruct (startswith old (c :: s)) eqn:Hst.
  - rewrite length_app.
    assert (length old ≤ length (c :: s))%nat as Hold.
    { clear -Hst. revert Hst. generalize (c :: s). clear.
      induction old as [|a old IH]; intros s; simpl; [lia|].
      destruct s as [|c s]; [done|].
      intros [_ ?]%andb_true_iff. simpl. apply IH in H. lia. }
    specialize (IH (drop (length old) (c :: s))).
    rewrite length_drop in IH. lia.
  - simpl. specialize (IH s). lia.
Qed.

Lemma str_replace_length (old new s : text) :
  (length new ≤ length old)%nat →
  (length (str_replace old new s) ≤ length s)%nat.
Proof. apply str_replace_go_length. Qed.

(** Deleting one character is a filter. *)
Lemma str_replace_go_delete (a : N) (fuel : nat) (s : text) :
  (length s ≤ fuel)%nat →
  str_replace_go fuel [a] [] s = filter (λ c, c ≠ a) s.
Proof.
  revert s. induction fuel as [|fuel IH]; intros s Hlen.
  - by destruct s; [|simpl in Hlen; lia].
  - destruct s as [|c s]; [done|]. simpl in Hlen.
    cbn [str_replace_go startswith length drop].
    rewrite andb_true_r, filter_cons.
    destruct (a =? c)%N eqn:Hac.
    + apply N.eqb_eq in Hac as ->. rewrite decide_False by naive_solver.
      simpl. apply IH. lia.
    + apply N.eqb_neq in Hac. rewrite decide_True by naive_solver.
      f_equal. apply IH. lia.
Qed.

Lemma str_replace_delete (a : N) (s : text) :
  str_replace [a] [] s = filter (λ c, c ≠ a) s.
Proof. by apply str_replace_go_delete. Qed.

(** Deleting the characters of a class is a filter. *)
Lemma re_sub_delete (p : N → bool) (s : text) :
  re_sub (Chr p) [] s = filter (λ c, p c = false) s.
Proof.
  induction s as [|c s IH]; [done|].
  rewrite re_sub_cons, filter_cons. unfold re_match. simpl.
  destruct (p c) eqn:Hp.
  - rewrite bool_decide_true by lia. by rewrite decide_False.
  - by rewrite decide_True, IH.
Qed.

(** *** Greedy runs of one class *)

Lemma span_len_le (p : N → bool) (s : text) : (span_len p s ≤ length s)%nat.
Proof. induction s as [|c s IH]; simpl; [lia|]. destruct (p c); lia. Qed.

Lemma span_len_app_stop (p : N → bool) (s1 s2 : text) (c : N) :
  p c = false → span_len p (s1 ++ c :: s2) = span_len p s1.
Proof.
  intros Hc. induction s1 as [|a s1 IH]; simpl; [by rewrite Hc|].
  destruct (p a); [by rewrite IH|done].
Qed.

Lemma rep_greedy_total {A} (p : N → bool) (lo n : nat) (s : text)
    (f : text → A) :
  rep_greedy p lo None n s (λ s', Some (f s'))
  = if bool_decide (lo ≤ n + span_len p s)%nat
    then Some (f (drop (span_len p s) s)) else None.
Proof.
  revert n. induction s as [|c s IH]; intros n; simpl.
  - rewrite Nat.add_0_r. by case_bool_decide.
  - destruct (p c); simpl.
    + rewrite IH. replace (S n + span_len p s)%nat
        with (n + S (span_len p s))%nat by lia.
      case_bool_decide as Hlo; [done|].
      rewrite bool_decide_false by lia. done.
    + rewrite Nat.add_0_r. by case_bool_decide.
Qed.

(** [re.match] of [class{lo,}] takes the whole run. *)
Lemma re_match_rep (p : N → bool) (lo : nat) (s : text) :
  re_match (Rep true lo None p) s
  = if bool_decide (lo ≤ span_len p s)%nat
    then Some (drop (span_len p s) s, None) else None.
Proof.
  unfold re_match. cbn [run].
  by rewrite (rep_greedy_total p lo 0 s (λ s', (s', None))).
Qed.

Lemma re_sub_rep_length (p : N → bool) (lo : nat) (repl s : text) :
  (length repl ≤ lo)%nat →
  (length (re_sub (Rep true lo None p) repl s) ≤ length s)%nat.
Proof.
  intros Hlo. apply re_sub_length. intros s0 rest g.
  rewrite re_match_rep. case_bool_decide as Hspan; [|done].
  intros [= <- _] _. rewrite length_drop.
  pose proof (span_len_le p s0). lia.
Qed.

(** A character outside the class separates the substitutions. *)
Lemma re_sub_rep_boundary (p : N → bool) (lo : nat) (repl s1 s2 : text)
    (c : N) :
  (1 ≤ lo)%nat → p c = false →
  re_sub (Rep true lo None p) repl (s1 ++ c :: s2)
  = re_sub (Rep true lo None p) repl s1
    ++ c :: re_sub (Rep true lo None p) repl s2.
Proof.
  intros Hlo Hc.
  induction s1 as [s1 IH] using (induction_ltof1 _ length).
  unfold ltof in IH.
  destruct s1 as [|a s1].
  - simpl. rewrite re_sub_cons, re_match_rep. simpl. rewrite Hc.
    rewrite bool_decide_false by lia. done.
  - rewrite <- app_comm_cons, !re_sub_cons, !re_match_rep.
    rewrite app_comm_cons, span_len_app_stop by done.
    pose proof (span_len_le p (a :: s1)) as Hle.
    case_bool_decide as Hspan.
    + rewrite drop_app_le by done.
      rewrite !bool_decide_true
        by (rewrite ?length_app, !length_drop; simpl in *; lia).
      rewrite IH by (rewrite length_drop; simpl in *; lia).
      by rewrite <- app_assoc.
    + rewrite <- app_comm_cons. f_equal.
      apply IH. simpl. lia.
Qed.

Lemma re_sub_rep_lines (p : N → bool) (lo : nat) (repl : text)
    (ls : list text) :
  (1 ≤ lo)%nat → p LF = false →
  re_sub (Rep true lo None p) repl (join_lines ls)
  = join_lines (re_sub (Rep true lo None p) repl <$> ls).
Proof.
  intros Hlo HLF. induction ls as [|l ls IH]; [done|].
  destruct ls as [|l' ls]; [done|].
  rewrite join_lines_cons by done.
  rewrite re_sub_rep_boundary by done. rewrite IH.
  rewrite (fmap_cons _ l). by rewrite join_lines_cons.
Qed.

Lemma re_sub_no_LF (r : re) (repl s : text) :
  LF ∉ repl → LF ∉ s → LF ∉ re_sub r repl s.
Proof.
  intros Hrepl Hs.
  assert (Forall (λ c, c ≠ LF) (re_sub r repl s)) as H.
  { apply re_sub_Forall; apply Forall_forall; intros c Hc ->; done. }
  rewrite Forall_forall in H. intros Hin. by apply (H _ Hin).
Qed.

Lemma strip_no_LF (s : text) : LF ∉ s → LF ∉ strip s.
Proof.
  intros Hs Hin.
  assert (Forall (λ c, c ≠ LF) (strip s)) as H.
  { apply strip_Forall. apply Forall_forall. by intros c Hc ->. }
  rewrite Forall_forall in H. by apply (H _ Hin).
Qed.

(** ** Hierarchy (C6, C10) *)

Lemma element_id_of_inj (p q : Z) : element_id_of p = element_id_of q → p = q.
Proof.
  unfold element_id_of. intros H.
  apply (inj (String.append "element_")) in H.
  by apply (inj pretty) in H.
Qed.

Lemma split_ws_go_nonempty (cur s w : text) :
  w ∈ split_ws_go cur s → w ≠ [].
Proof.
  revert cur. induction s as [|c s IH]; intros cur; simpl.
  - destruct cur as [|a cur]; [set_solver|].
    intros ->%list_elem_of_singleton Hnil.
    apply (f_equal length) in Hnil. rewrite length_reverse in Hnil.
    discriminate.
  - destruct (isspace c); [|apply IH].
    destruct cur as [|a cur]; [apply IH|].
    intros [->|Hin]%elem_of_cons; [|by eapply IH].
    intros Hnil. apply (f_equal length) in Hnil.
    rewrite length_reverse in Hnil. discriminate.
Qed.

Lemma level_of_first_word_pos (g : option text) (l : Z) :
  level_of_first_word g = Some l → 1 ≤ l.
Proof.
  unfold level_of_first_word. destruct g as [g1|]; [|done].
  destruct (split_ws g1) as [|w ws] eqn:Hs; [done|].
  intros [= <-].
  assert (w ≠ []) as Hw.
  { apply (split_ws_go_nonempty [] g1). unfold split_ws in Hs.
    rewrite Hs. set_solver. }
  destruct w; [done|]. unfold len. simpl. lia.
Qed.

Lemma first_heading_pos (ps : list (re * (option text → option Z)))
    (line : text) (l : Z) :
  Forall (λ p, ∀ g l', p.2 g = Some l' → 1 ≤ l') ps →
  first_heading ps line = Some (Some l) → 1 ≤ l.
Proof.
  induction 1 as [|[r f] ps Hf _ IH]; simpl; [done|].
  destruct (re_match r line) as [[rest g]|]; [|done].
  intros [= Hl]. by eapply Hf.
Qed.

Lemma heading_patterns_pos (U : unicode_tables) (fmt : string) :
  Forall (λ p, ∀ g l', p.2 g = Some l' → 1 ≤ l')
    (default [] (heading_patterns U fmt)).
Proof.
  unfold heading_patterns. repeat case_bool_decide; simpl;
    repeat constructor; simpl; intros g l' Hl;
    try (by eapply level_of_first_word_pos); injection Hl as <-; lia.
Qed.

Local Opaque heading_patterns list_patterns table_patterns code_patterns.

(** What [_identify_element] returns: a heading of level at least 1, a
    list item, table or code block of level 1, or [UNKNOWN]. *)
Lemma identify_element_level (U : unicode_tables) (lines : list text)
    (i : nat) (fmt : string) ty lvl cl n :
  _identify_element U lines i fmt = Some (ty, lvl, cl, n) →
  ty = UNKNOWN
  ∨ (ty = HEADING ∧ 1 ≤ lvl)
  ∨ ((ty = LIST_ITEM ∨ ty = TABLE ∨ ty = CODE_BLOCK) ∧ lvl = 1).
Proof.
  unfold _identify_element.
  destruct (lines !! i) as [raw|]; [|done].
  destruct (first_heading _ (strip raw)) as [[l|]|] eqn:H1; simpl.
  - intros ?; simplify_eq. right; left. split; [done|].
    eapply first_heading_pos; [apply heading_patterns_pos|done].
  - done.
  - destruct (first_heading (default [] (heading_patterns U "general"))
                (strip raw)) as [[l|]|] eqn:H2; simpl.
    + intros ?; simplify_eq. right; left. split; [done|].
      eapply first_heading_pos; [apply heading_patterns_pos|done].
    + done.
    + destruct (existsb _ (list_patterns U));
        [intros ?; simplify_eq; naive_solver|].
      destruct (existsb _ table_patterns);
        [intros ?; simplify_eq; naive_solver|].
      destruct (existsb _ (code_patterns U));
        [|intros ?; simplify_eq; naive_solver].
      destruct (_extract_code_block lines i); simpl;
        intros ?; simplify_eq; naive_solver.
Qed.

Local Transparent heading_patterns list_patterns table_patterns code_patterns.

Lemma parsed_shape_snoc (acc : list DocumentElement) (e : DocumentElement) :
  parsed_shape acc → fresh_element (length acc) e → parsed_shape (acc ++ [e]).
Proof.
  intros Hacc He i e' Hi.
  apply lookup_app_Some in Hi as [Hi|[Hlen Hi]]; [by apply Hacc|].
  apply list_lookup_singleton_Some in Hi as [Hi <-].
  by replace i with (length acc) by lia.
Qed.

(** The elements [_parse_elements] returns are numbered from 0, have no
    parent yet and carry the level of their kind. *)
Lemma parse_elements_loop_shape (U : unicode_tables) (fuel : nat)
    (lines : list text) (fmt : string) (i : nat) (pos : Z)
    (acc els : list DocumentElement) :
  parsed_shape acc → pos = Z.of_nat (length acc) →
  _parse_elements_loop U fuel lines fmt i pos acc = Some els →
  parsed_shape els.
Proof.
  revert i pos acc.
  induction fuel as [|fuel IH]; intros i pos acc Hacc Hpos; simpl; [done|].
  destruct (lines !! i) as [raw|]; [|by intros [= <-]].
  case_bool_decide; [by apply IH|].
  destruct (_identify_element U lines i fmt)
    as [[[[ty lvl] cl] n]|] eqn:Hid; simpl; [|done].
  case_bool_decide as Hty.
  - apply IH.
    + apply parsed_shape_snoc; [done|].
      split; [done|]. split; [done|].
      unfold level_ok; simpl.
      destruct (identify_element_level _ _ _ _ _ _ _ _ Hid)
        as [ ? | [ [ -> ? ] | [ [ -> | [ -> | -> ] ] -> ] ] ]; done.
    + rewrite length_app. simpl. lia.
  - apply IH.
    + apply parsed_shape_snoc; [done|]. by split.
    + rewrite length_app. simpl. lia.
Qed.

Lemma parse_elements_shape (U : unicode_tables) (fuel : nat)
    (lines : list text) (fmt : string) (els : list DocumentElement) :
  _parse_elements U fuel lines fmt = Some els → parsed_shape els.
Proof.
  apply parse_elements_loop_shape; [|done].
  intros i e Hi. by rewrite lookup_nil in Hi.
Qed.

Lemma pop_parents_subset (stack : list (string * Z)) (lvl : Z) x :
  x ∈ pop_parents stack lvl → x ∈ stack.
Proof.
  induction stack as [|[pid l] stack IH]; simpl; [done|].
  case_bool_decide; [|done]. intros Hx. right. by apply IH.
Qed.

Lemma pop_parents_top (stack rest : list (string * Z)) (lvl l : Z) pid :
  pop_parents stack lvl = (pid, l) :: rest → l < lvl.
Proof.
  induction stack as [|[pid' l'] stack IH]; simpl; [done|].
  case_bool_decide; [done|]. intros [= -> -> _]. lia.
Qed.

Lemma level_ok_set_parent_id (e : DocumentElement) (pid : string) :
  level_ok e → level_ok (set_parent_id e pid).
Proof. done. Qed.

Lemma heading_level_ok (e : DocumentElement) :
  level_ok e → is_heading_type (element_type e) = true → 1 ≤ level e.
Proof.
  unfold level_ok, is_heading_type. intros Hok Hty.
  apply bool_decide_eq_true in Hty as [Hty|Hty]; rewrite Hty in Hok; done.
Qed.

Lemma leaf_level_ok (e : DocumentElement) :
  level_ok e → is_heading_type (element_type e) = false → level e ≤ 1.
Proof.
  unfold level_ok, is_heading_type. intros Hok Hty.
  apply bool_decide_eq_false in Hty.
  destruct (element_type e); try done; try lia; destruct Hty; by right.
Qed.

(** Membership in the list of processed elements after one more *)
Local Ltac in_done :=
  first [ apply elem_of_app; left; assumption
        | apply elem_of_app; right; apply list_elem_of_singleton;
          reflexivity ].

(** One iteration of [_build_hierarchy] keeps the invariant. *)
Lemma hier_step_inv (st : hier_state) (e : DocumentElement) :
  hier_inv st → fresh_element (length (hs_done st)) e →
  hier_inv (hier_step st e).
Proof.
  intros [Hpos Hstack Hparent Hleaf Hchildren] (Hp & Hnone & Hok).
  unfold hier_step.
  destruct (pop_parents (hs_stack st) (level e)) as [|[pid l] rest] eqn:Hpop.
  - (* no parent *)
    split; simpl.
    + intros i e' Hi.
      apply lookup_app_Some in Hi as [Hi|[Hlen Hi]]; [by apply Hpos|].
      apply list_lookup_singleton_Some in Hi as [Hi <-].
      split; [|done]. rewrite Hp. f_equal. lia.
    + intros id l Hin.
      destruct (is_heading_type (element_type e)) eqn:Hty;
        [|by apply elem_of_nil in Hin].
      apply list_elem_of_singleton in Hin as [= -> -> ].
      split; [by apply heading_level_ok|]. exists e.
      split; [apply elem_of_app; right; by left|done].
    + intros e' pid' [Hin| ->%list_elem_of_singleton]%elem_of_app Hpar.
      * destruct (Hparent _ _ Hin Hpar) as (p & ? & ? & ?).
        exists p. split_and!; [in_done|done..].
      * congruence.
    + intros e' [Hin| ->%list_elem_of_singleton]%elem_of_app Hty;
        [by apply Hleaf|done].
    + intros pid' cs id Hcs Hid.
      destruct (Hchildren _ _ _ Hcs Hid) as (e' & ? & ? & ?).
      exists e'. split_and!; [in_done|done..].
  - (* the top of the stack is the parent *)
    assert (l < level e) as Hlt by (by eapply pop_parents_top).
    assert ((pid, l) ∈ hs_stack st) as Hin_stack.
    { eapply pop_parents_subset. rewrite Hpop. by left. }
    destruct (Hstack _ _ Hin_stack) as (Hl & p & Hp_in & Hp_id & Hp_lvl).
    split; simpl.
    + intros i e' Hi.
      apply lookup_app_Some in Hi as [Hi|[Hlen Hi]]; [by apply Hpos|].
      apply list_lookup_singleton_Some in Hi as [Hi <-]. simpl.
      split; [|done]. rewrite Hp. f_equal. lia.
    + intros id l' Hin.
      assert ((id, l') ∈ (pid, l) :: rest
              ∨ (is_heading_type (element_type e) = true
                 ∧ id = element_id_of (position e) ∧ l' = level e))
        as [Hold|(Hty & -> & ->)].
      { destruct (is_heading_type (element_type e)); [|by left].
        apply elem_of_cons in Hin as [[= -> ->]|Hin]; [by right|by left]. }
      * rewrite <- Hpop in Hold. apply pop_parents_subset in Hold.
        destruct (Hstack _ _ Hold) as (? & q & ? & ? & ?).
        split; [done|]. exists q. split_and!; [in_done|done..].
      * split; [by apply heading_level_ok|].
        exists (set_parent_id e pid). split_and!; [in_done|done..].
    + intros e' pid' [Hin| ->%list_elem_of_singleton]%elem_of_app Hpar.
      * destruct (Hparent _ _ Hin Hpar) as (q & ? & ? & ?).
        exists q. split_and!; [in_done|done..].
      * simpl in Hpar. injection Hpar as <-.
        exists p. simpl. split; [in_done|]. split; [done|lia].
    + intros e' [Hin| ->%list_elem_of_singleton]%elem_of_app Hty;
        [by apply Hleaf|].
      simpl in Hty. pose proof (leaf_level_ok _ Hok Hty). lia.
    + intros pid' cs id Hcs Hid.
      destruct (decide (pid = pid')) as [<-|Hne].
      * rewrite lookup_insert_eq in Hcs. injection Hcs as <-.
        apply elem_of_app in Hid as [Hid| ->%list_elem_of_singleton].
        -- destruct (hs_hierarchy st !! pid) as [old|] eqn:Hold;
             simpl in Hid; [|set_solver].
           destruct (Hchildren _ _ _ Hold Hid) as (e' & ? & ? & ?).
           exists e'. split_and!; [in_done|done..].
        -- exists (set_parent_id e pid). split_and!; [in_done|done..].
      * rewrite lookup_insert_ne in Hcs by done.
        destruct (Hchildren _ _ _ Hcs Hid) as (e' & ? & ? & ?).
        exists e'. split_and!; [in_done|done..].
Qed.

Lemma hier_step_done_length (st : hier_state) (e : DocumentElement) :
  length (hs_done (hier_step st e)) = S (length (hs_done st)).
Proof.
  unfold hier_step. destruct (pop_parents _ _) as [|[pid l] rest]; simpl;
    rewrite length_app; simpl; lia.
Qed.

Lemma hier_fold_inv (els : list DocumentElement) (st : hier_state) :
  hier_inv st →
  (∀ i e, els !! i = Some e → fresh_element (length (hs_done st) + i) e) →
  hier_inv (foldl hier_step st els).
Proof.
  revert st. induction els as [|e els IH]; intros st Hinv Hfresh; simpl;
    [done|].
  apply IH.
  - apply hier_step_inv; [done|].
    specialize (Hfresh 0%nat e eq_refl). by rewrite Nat.add_0_r in Hfresh.
  - intros i e' Hi. rewrite hier_step_done_length.
    specialize (Hfresh (S i) e' Hi).
    by replace (S (length (hs_done st)) + i)%nat
      with (length (hs_done st) + S i)%nat by lia.
Qed.

(** The invariant holds when [_build_hierarchy] returns. *)
Lemma build_hierarchy_inv (els : list DocumentElement) :
  parsed_shape els →
  hier_inv (foldl hier_step
              {| hs_done := []; hs_hierarchy := ∅; hs_stack := [] |} els).
Proof.
  intros Hshape. apply hier_fold_inv; [|done].
  split; simpl.
  - intros i e Hi. by rewrite lookup_nil in Hi.
  - intros id l Hin. by apply elem_of_nil in Hin.
  - intros e pid Hin. by apply elem_of_nil in Hin.
  - intros e Hin. by apply elem_of_nil in Hin.
  - intros pid cs id Hcs. by rewrite lookup_empty in Hcs.
Qed.

(** What [parse_document] returns is the final state of the loop of
    [_build_hierarchy], or the empty structure. *)
Lemma parse_document_hier (U : unicode_tables) (fuel : nat) (c : text)
    (ft : string) (S : DocumentStructure) :
  parse_document U fuel c ft = Some S →
  ∃ st, hier_inv st ∧ elements S = hs_done st
        ∧ hierarchy S = hs_hierarchy st.
Proof.
  unfold parse_document. case_bool_decide.
  - intros [= <-].
    exists {| hs_done := []; hs_hierarchy := ∅; hs_stack := [] |}.
    split; [|done]. by apply (build_hierarchy_inv []).
  - destruct (_parse_elements U fuel (split_lines c) (_detect_format c ft))
      as [els0|] eqn:Hels; simpl; [|done].
    intros [= <-]. eexists. split; [|done].
    apply build_hierarchy_inv. by eapply parse_elements_shape.
Qed.

Lemma hier_inv_unique (st : hier_state) (p q : DocumentElement) :
  hier_inv st → p ∈ hs_done st → q ∈ hs_done st →
  element_id_of (position q) = element_id_of (position p) → q = p.
Proof.
  intros Hinv [i Hi]%list_elem_of_lookup [j Hj]%list_elem_of_lookup
    Hid%element_id_of_inj.
  destruct (hi_pos _ Hinv _ _ Hi) as [Hpi _].
  destruct (hi_pos _ Hinv _ _ Hj) as [Hpj _].
  assert (i = j) as -> by lia. congruence.
Qed.

Lemma head_filter_unique {A} (P : A → Prop) `{∀ x, Decision (P x)}
    (l : list A) (p : A) :
  p ∈ l → P p → (∀ q, q ∈ l → P q → q = p) → head (filter P l) = Some p.
Proof.
  intros Hin Hp Huniq.
  assert (p ∈ filter P l) as Hf by (by apply list_elem_of_filter).
  destruct (filter P l) as [|q l'] eqn:Hfl; [by apply elem_of_nil in Hf|].
  simpl.
  f_equal. assert (q ∈ filter P l) as Hq by (rewrite Hfl; by left).
  apply list_elem_of_filter in Hq as [? ?]. by apply Huniq.
Qed.

(** C6: in every structure [parse_document] returns, an element with a
    parent id refers to an element of the structure whose level is
    strictly less than its own. *)
Theorem parent_level_below_child (U : unicode_tables) (fuel : nat)
    (c : text) (ft : string) (S : DocumentStructure)
    (e : DocumentElement) (pid : string) :
  parse_document U fuel c ft = Some S →
  e ∈ elements S → parent_id e = Some pid →
  ∃ p, get_element_by_id S pid = Some p ∧ level p < level e.
Proof.
  intros (st & Hinv & Hels & _)%parse_document_hier He Hpar.
  rewrite Hels in He.
  destruct (hi_parent _ Hinv _ _ He Hpar) as (p & Hp & Hid & Hlt).
  exists p. split; [|done].
  unfold get_element_by_id. rewrite Hels.
  apply head_filter_unique; [done..|].
  intros q Hq Hqid. eapply hier_inv_unique; eauto. congruence.
Qed.

(** C10: in every structure [parse_document] returns, an element that
    is neither a title nor a heading has no parent, and its id is in no
    list of children of the hierarchy map. *)
Theorem non_heading_elements_are_roots (U : unicode_tables) (fuel : nat)
    (c : text) (ft : string) (S : DocumentStructure) (e : DocumentElement) :
  parse_document U fuel c ft = Some S →
  e ∈ elements S →
  element_type e ≠ TITLE → element_type e ≠ HEADING →
  parent_id e = None
  ∧ ∀ pid cs, hierarchy S !! pid = Some cs →
              element_id_of (position e) ∉ cs.
Proof.
  intros (st & Hinv & Hels & Hh)%parse_document_hier He Ht Hhd.
  rewrite Hels in He. rewrite Hh.
  assert (parent_id e = None) as Hnone.
  { apply (hi_leaf _ Hinv); [done|].
    apply bool_decide_eq_false. by intros [?|?]. }
  split; [done|]. intros pid cs Hcs Hin.
  destruct (hi_children _ Hinv _ _ _ Hcs Hin) as (e' & He' & Hid & Hpar).
  assert (e' = e) as -> by (eapply hier_inv_unique; eauto).
  congruence.
Qed.

(** C6 on ["# A\n# Abc\nplain words"]: the heading ["# Abc"], of level
    3, has the heading ["# A"], of level 1, for parent. *)
Lemma parent_level_below_child_witness :
  ∃ S e,
    parse_document ascii_tables 4 nested_headings "unknown" = Some S
    ∧ e ∈ elements S
    ∧ parent_id e = Some "element_0"
    ∧ ∃ p, get_element_by_id S "element_0" = Some p ∧ level p < level e.
Proof.
  eexists _, _.
  assert (∀ P Q R T : Prop, P → Q → R → (P → Q → R → T) → P ∧ Q ∧ R ∧ T)
    as Hand by tauto.
  apply Hand.
  - vm_compute. reflexivity.
  - simpl. apply list_elem_of_further, list_elem_of_here.
  - reflexivity.
  - apply (parent_level_below_child ascii_tables 4 nested_headings "unknown").
Defined.

(** C10 on ["# A\n# Abc\nplain words"]: the paragraph has no parent and
    is the child of no element. *)
Lemma non_heading_elements_are_roots_witness :
  ∃ S e,
    parse_document ascii_tables 4 nested_headings "unknown" = Some S
    ∧ e ∈ elements S
    ∧ element_type e = PARAGRAPH
    ∧ parent_id e = None
    ∧ ∀ pid cs, hierarchy S !! pid = Some cs →
                element_id_of (position e) ∉ cs.
Proof.
  eexists _, _.
  assert (∀ P Q R T : Prop, P → Q → R → (P → Q → R → T) → P ∧ Q ∧ R ∧ T)
    as Hand by tauto.
  apply Hand.
  - vm_compute. reflexivity.
  - simpl. do 2 apply list_elem_of_further. apply list_elem_of_here.
  - reflexivity.
  - intros Hrun Hin Hty.
    apply (non_heading_elements_are_roots ascii_tables 4 nested_headings
             "unknown" _ _ Hrun Hin); rewrite Hty; discriminate.
Defined.

(** ** Language detection (C7) *)

Lemma count_up_keys (x : string) (d : list (string * Z)) :
  (count_up x d).*1 = if bool_decide (x ∈ d.*1) then d.*1 else d.*1 ++ [x].
Proof.
  induction d as [|[k n] d IH]; [done|].
  cbn [count_up]. rewrite fmap_cons. cbn [fst].
  destruct (decide (k = x)) as [ ->|Hk].
  - rewrite (bool_decide_true (x = x)) by done.
    rewrite (bool_decide_true (x ∈ x :: d.*1)) by (by left). done.
  - rewrite (bool_decide_false (k = x)) by done.
    rewrite fmap_cons, IH. cbn [fst].
    destruct (decide (x ∈ d.*1)) as [Hx|Hx].
    + rewrite (bool_decide_true (x ∈ d.*1)) by done.
      rewrite (bool_decide_true (x ∈ k :: d.*1)) by (by right). done.
    + rewrite (bool_decide_false (x ∈ d.*1)) by done.
      rewrite (bool_decide_false (x ∈ k :: d.*1)); [done|].
      intros [?|?]%elem_of_cons; congruence.
Qed.

Lemma dcount_count_up (k x : string) (d : list (string * Z)) :
  dcount k (count_up x d)
  = dcount k d + (if bool_decide (x = k) then 1 else 0).
Proof.
  induction d as [|[k' n] d IH]; simpl.
  - repeat case_bool_decide; lia.
  - destruct (bool_decide (k' = x)) eqn:Hx; simpl.
    + apply bool_decide_eq_true in Hx as ->.
      repeat case_bool_decide; lia.
    + apply bool_decide_eq_false in Hx.
      destruct (bool_decide (k' = k)) eqn:Hk.
      * apply bool_decide_eq_true in Hk as ->.
        rewrite (bool_decide_false (x = k)); [lia|congruence].
      * apply IH.
Qed.

Lemma dcount_elem (k : string) (n : Z) (d : list (string * Z)) :
  NoDup d.*1 → (k, n) ∈ d → dcount k d = n.
Proof.
  induction d as [|[k' n'] d IH]; simpl; [by intros _ ?%elem_of_nil|].
  intros [Hk' Hnd]%NoDup_cons [[= -> ->]|Hin]%elem_of_cons.
  - by rewrite bool_decide_true.
  - rewrite bool_decide_false; [by apply IH|].
    intros ->. apply Hk'. apply list_elem_of_fmap. by exists (k, n).
Qed.

Lemma language_counts_snoc (langs : list string) (x : string) :
  language_counts (langs ++ [x]) = count_up x (language_counts langs).
Proof. unfold language_counts. by rewrite foldl_app. Qed.

Lemma first_seen_snoc (langs : list string) (x : string) :
  first_seen (langs ++ [x])
  = if bool_decide (x ∈ first_seen langs) then first_seen langs
    else first_seen langs ++ [x].
Proof. unfold first_seen. by rewrite foldl_app. Qed.

Lemma language_counts_keys (langs : list string) :
  (language_counts langs).*1 = first_seen langs.
Proof.
  induction langs as [|x langs IH] using rev_ind; [done|].
  by rewrite language_counts_snoc, first_seen_snoc, count_up_keys, IH.
Qed.

Lemma occurrences_snoc (k x : string) (langs : list string) :
  occurrences k (langs ++ [x])
  = (occurrences k langs + if bool_decide (x = k) then 1 else 0)%nat.
Proof.
  unfold occurrences. rewrite filter_app, length_app. f_equal.
  rewrite filter_cons, filter_nil. by repeat case_decide;
    case_bool_decide.
Qed.

Lemma language_counts_value (k : string) (langs : list string) :
  dcount k (language_counts langs) = Z.of_nat (occurrences k langs).
Proof.
  induction langs as [|x langs IH] using rev_ind; [done|].
  rewrite language_counts_snoc, dcount_count_up, IH, occurrences_snoc.
  case_bool_decide; lia.
Qed.

Lemma first_seen_elem (x : string) (langs : list string) :
  x ∈ first_seen langs ↔ x ∈ langs.
Proof.
  induction langs as [|y langs IH] using rev_ind; [done|].
  rewrite first_seen_snoc, elem_of_app, list_elem_of_singleton.
  case_bool_decide as Hy.
  - rewrite IH. split; [by left|]. intros [?| ->]; [done|by apply IH].
  - by rewrite elem_of_app, list_elem_of_singleton, IH.
Qed.

Lemma first_seen_NoDup (langs : list string) : NoDup (first_seen langs).
Proof.
  induction langs as [|y langs IH] using rev_ind; [constructor|].
  rewrite first_seen_snoc. case_bool_decide as Hy; [done|].
  apply NoDup_app. split; [done|]. split; [|apply NoDup_singleton].
  intros x Hx ->%list_elem_of_singleton. done.
Qed.

Lemma first_seen_extends (pre post : list string) :
  ∃ ext, first_seen (pre ++ post) = first_seen pre ++ ext.
Proof.
  induction post as [|y post IH] using rev_ind.
  - exists []. by rewrite !app_nil_r.
  - destruct IH as [ext IH]. rewrite app_assoc, first_seen_snoc, IH.
    case_bool_decide; [by exists ext|].
    exists (ext ++ [y]). by rewrite app_assoc.
Qed.

(** When [r] is first met after [pre], the keys before [r] are the
    codes of [pre]. *)
Lemma first_seen_split (pre post : list string) (r : string) :
  r ∉ pre →
  ∃ ext, first_seen (pre ++ r :: post) = first_seen pre ++ r :: ext.
Proof.
  intros Hr.
  destruct (first_seen_extends (pre ++ [r]) post) as [ext Hext].
  rewrite <- app_assoc in Hext. simpl in Hext.
  rewrite Hext, first_seen_snoc.
  rewrite bool_decide_false by (by rewrite first_seen_elem).
  exists ext. by rewrite <- app_assoc.
Qed.

Lemma NoDup_split_unique {A} (l1 l2 k1 k2 : list A) (x : A) :
  NoDup (l1 ++ x :: l2) → l1 ++ x :: l2 = k1 ++ x :: k2 → l1 = k1.
Proof.
  revert k1. induction l1 as [|a l1 IH]; intros k1 Hnd Heq.
  - destruct k1 as [|b k1]; [done|].
    simpl in Heq. injection Heq as <- ->.
    apply NoDup_cons in Hnd as [Hx _]. destruct Hx.
    apply elem_of_app. right. by left.
  - destruct k1 as [|b k1]; simpl in Heq.
    + injection Heq as -> _. simpl in Hnd.
      apply NoDup_cons in Hnd as [Hx _]. destruct Hx.
      apply elem_of_app. right. by left.
    + injection Heq as <- Heq. f_equal. apply IH; [|done].
      simpl in Hnd. by apply NoDup_cons in Hnd as [_ ?].
Qed.

Lemma first_occurrence (x : string) (l : list string) :
  x ∈ l → ∃ pre post, l = pre ++ x :: post ∧ (x ∉ pre).
Proof.
  induction l as [|a l IH]; [by intros ?%elem_of_nil|].
  destruct (decide (a = x)) as [ ->|Hne].
  - intros _. exists [], l. split; [done|apply not_elem_of_nil].
  - intros [?|Hin]%elem_of_cons; [congruence|].
    destruct (IH Hin) as (pre & post & -> & Hpre).
    exists (a :: pre), post. split; [done|].
    intros [?|?]%elem_of_cons; congruence.
Qed.

(** [max] returns the first entry whose count is the largest. *)
Lemma max_by_count_spec (d d1 mid : list (string * Z)) (best : string * Z) :
  Forall (λ kv, kv.2 < best.2) d1 →
  Forall (λ kv, kv.2 ≤ best.2) mid →
  ∃ e1 n e2,
    d1 ++ best :: mid ++ d = e1 ++ (max_by_count best d, n) :: e2
    ∧ Forall (λ kv, kv.2 < n) e1 ∧ Forall (λ kv, kv.2 ≤ n) e2.
Proof.
  revert d1 mid best.
  induction d as [|[k n] d IH]; intros d1 mid [bk bn] H1 Hmid; simpl.
  - exists d1, bn, mid. by rewrite app_nil_r.
  - simpl in *. case_bool_decide as Hn.
    + destruct (IH (d1 ++ (bk, bn) :: mid) [] (k, n)) as (e1 & m & e2 & Heq & ?).
      * apply Forall_app. split.
        -- eapply Forall_impl; [exact H1|]. simpl. intros; lia.
        -- constructor; [simpl; lia|].
           eapply Forall_impl; [exact Hmid|]. simpl. intros; lia.
      * constructor.
      * exists e1, m, e2. split; [|done].
        rewrite <- Heq. by rewrite <- !app_assoc.
    + destruct (IH d1 (mid ++ [(k, n)]) (bk, bn)) as (e1 & m & e2 & Heq & ?).
      * done.
      * apply Forall_app. split; [done|]. constructor; [simpl; lia|done].
      * exists e1, m, e2. split; [|done].
        rewrite <- Heq. by rewrite <- !app_assoc.
Qed.

Lemma determine_language_empty : _determine_language [] = "unknown".
Proof. done. Qed.

(** [_determine_language] returns the most frequent code, the first met
    among equals. *)
Lemma determine_language_spec (langs : list string) :
  langs ≠ [] →
  most_frequent_first_seen langs (_determine_language langs).
Proof.
  intros Hne. unfold _determine_language.
  fold (language_counts langs).
  pose proof (language_counts_keys langs) as Hkeys.
  pose proof (first_seen_NoDup langs) as Hnd.
  destruct (language_counts langs) as [|kv d] eqn:Hd.
  { destruct langs as [|x langs]; [done|].
    assert (x ∈ first_seen (x :: langs)) as Hx
      by (apply first_seen_elem; by left).
    rewrite <- Hkeys in Hx. by apply elem_of_nil in Hx. }
  destruct (max_by_count_spec d [] [] kv) as (e1 & n & e2 & Heq & Hlt & Hle);
    [constructor..|].
  simpl in Heq. set (r := max_by_count kv d) in *.
  rewrite Heq in Hkeys. rewrite fmap_app, fmap_cons in Hkeys. simpl in Hkeys.
  assert (∀ k m, (k, m) ∈ kv :: d → m = Z.of_nat (occurrences k langs))
    as Hval.
  { intros k m Hin. rewrite <- language_counts_value, Hd.
    symmetry. apply dcount_elem; [|done].
    rewrite Heq, fmap_app, fmap_cons. simpl. by rewrite Hkeys. }
  assert (n = Z.of_nat (occurrences r langs)) as Hn.
  { apply Hval. rewrite Heq. apply elem_of_app. right. by left. }
  assert (r ∈ langs) as Hr.
  { apply first_seen_elem. rewrite <- Hkeys.
    apply elem_of_app. right. by left. }
  destruct (first_occurrence r langs Hr) as (pre & post & Hlangs & Hpre).
  exists pre, post. split; [done|]. split; [done|].
  destruct (first_seen_split pre post r Hpre) as [ext Hext].
  rewrite <- Hlangs in Hext.
  assert (e1.*1 = first_seen pre) as He1.
  { eapply NoDup_split_unique; [by rewrite Hkeys|].
    by rewrite Hkeys, Hext. }
  split.
  - intros l Hl.
    apply first_seen_elem in Hl. rewrite <- Hkeys in Hl.
    assert (∃ m, (l, m) ∈ kv :: d ∧ m ≤ n) as (m & Hm & Hmn).
    { rewrite Heq.
      apply elem_of_app in Hl as [Hl|[ ->|Hl]%elem_of_cons].
      - apply list_elem_of_fmap in Hl as ([l' m] & -> & Hin).
        exists m. split; [apply elem_of_app; by left|].
        rewrite Forall_forall in Hlt. specialize (Hlt _ Hin). simpl in *. lia.
      - exists n. split; [apply elem_of_app; right; by left|lia].
      - apply list_elem_of_fmap in Hl as ([l' m] & -> & Hin).
        exists m. split; [apply elem_of_app; right; by right|].
        rewrite Forall_forall in Hle. by specialize (Hle _ Hin). }
    apply Hval in Hm. lia.
  - intros l Hl.
    apply first_seen_elem in Hl. rewrite <- He1 in Hl.
    apply list_elem_of_fmap in Hl as ([l' m] & -> & Hin).
    assert ((l', m) ∈ kv :: d) as Hm
      by (rewrite Heq; apply elem_of_app; by left).
    apply Hval in Hm.
    rewrite Forall_forall in Hlt. specialize (Hlt _ Hin). simpl in *. lia.
Qed.

Lemma filter_snoc_qualifies (l : list DocumentElement) (ce : DocumentElement) :
  filter qualifies (l ++ [ce])
  = filter qualifies l ++ (if decide (qualifies ce) then [ce] else []).
Proof. rewrite filter_app, filter_cons, filter_nil. by case_decide. Qed.

(** The invariant of the loop of [normalize_document]: the detector has
    been called on the kept elements that qualify, and the codes
    collected are the ones it returned. *)
Lemma norm_step_calls (U : unicode_tables) (detect : text → option string)
    (lvl : CleaningLevel) (st : norm_state) (e : DocumentElement) :
  ns_calls st = content <$> filter qualifies (ns_cleaned st) →
  ns_languages st = omap detect (ns_calls st) →
  let st' := norm_step U detect lvl st e in
  ns_calls st' = content <$> filter qualifies (ns_cleaned st')
  ∧ ns_languages st' = omap detect (ns_calls st').
Proof.
  intros Hcalls Hlangs. unfold norm_step.
  destruct (_clean_element U lvl e (ns_stats st)) as [[ce|] stats];
    simpl; [|done].
  case_bool_decide; simpl; [|done].
  case_bool_decide as Hq; simpl.
  - rewrite filter_snoc_qualifies, decide_True by done.
    split; [by rewrite fmap_app, Hcalls|].
    rewrite omap_app, <- Hlangs. simpl.
    destruct (detect (content ce)); by rewrite ?app_nil_r.
  - rewrite filter_snoc_qualifies, decide_False by done.
    by rewrite app_nil_r.
Qed.

Lemma norm_fold_calls (U : unicode_tables) (detect : text → option string)
    (lvl : CleaningLevel) (els : list DocumentElement) (st : norm_state) :
  ns_calls st = content <$> filter qualifies (ns_cleaned st) →
  ns_languages st = omap detect (ns_calls st) →
  let st' := foldl (norm_step U detect lvl) st els in
  ns_calls st' = content <$> filter qualifies (ns_cleaned st')
  ∧ ns_languages st' = omap detect (ns_calls st').
Proof.
  revert st. induction els as [|e els IH]; intros st Hc Hl; simpl; [done|].
  destruct (norm_step_calls U detect lvl st e Hc Hl) as [Hc' Hl'].
  by apply IH.
Qed.

Lemma omap_all_fail (detect : text → option string) (cs : list text) :
  (∀ c, c ∈ cs → detect c = None) → omap detect cs = [].
Proof.
  induction cs as [|c cs IH]; intros Hfail; [done|].
  simpl. rewrite Hfail by (by left). apply IH.
  intros c' Hc'. apply Hfail. by right.
Qed.

(** C7, as stated, fails: standard cleaning of ["Page 1\n\n"] followed
    by a sentence of 50 characters keeps one element whose content, a
    newline and the sentence, is 51 characters long; the detector,
    which would answer ["en"], is not called and the language is
    unknown. *)
Lemma detector_skips_content_longer_than_50 :
  let S := single page_then_sentence in
  let doc := normalize_document ascii_tables (λ _, Some "en") STANDARD S in
  ¬ (detect_calls ascii_tables (λ _, Some "en") STANDARD S
     = content <$> filter (λ ce, len (content ce) > 50) (cleaned_elements doc))
  ∧ (∃ ce, cleaned_elements doc = [ce] ∧ len (content ce) = 51)
  ∧ detect_calls ascii_tables (λ _, Some "en") STANDARD S = []
  ∧ detected_language doc = "unknown".
Proof.
  split; [vm_compute; discriminate|].
  split; [eexists; split; vm_compute; reflexivity|].
  split; vm_compute; reflexivity.
Qed.

(** C7, amended: [normalize_document] calls the detector exactly on the
    kept elements whose content, stripped of leading and trailing white
    space, is longer than 50 characters, in element order and with the
    unstripped content.  A call that fails adds nothing to the vote and
    the run goes on.  When every call fails, or there is none, the
    language is ["unknown"]; otherwise it is the most frequent code
    returned, the first met among the codes that are as frequent. *)
Theorem detector_called_on_long_stripped_content (U : unicode_tables)
    (detect : text → option string) (lvl : CleaningLevel)
    (S : DocumentStructure) :
  let doc := normalize_document U detect lvl S in
  let calls := detect_calls U detect lvl S in
  calls = content <$> filter qualifies (cleaned_elements doc)
  ∧ ((∀ c, c ∈ calls → detect c = None) →
     detected_language doc = "unknown")
  ∧ (omap detect calls ≠ [] →
     most_frequent_first_seen (omap detect calls) (detected_language doc)).
Proof.
  intros doc calls.
  destruct (norm_fold_calls U detect lvl (elements S)
              {| ns_stats := set_original_chars (total_chars (elements S))
                               new_stats;
                 ns_cleaned := []; ns_languages := []; ns_calls := [] |}
              eq_refl eq_refl) as [Hc Hl].
  fold (norm_loop U detect lvl S) in Hc, Hl.
  split; [done|].
  unfold doc, normalize_document; simpl.
  unfold calls, detect_calls. rewrite Hl. split.
  - intros Hfail. by rewrite omap_all_fail.
  - apply determine_language_spec.
Qed.

(** ** Running the normalizer twice (C8) *)

Lemma visible_LF : visible LF.
Proof. by apply (bool_decide_unpack (visible LF)). Qed.

Lemma visible_SP : visible SP.
Proof. by apply (bool_decide_unpack (visible SP)). Qed.

Local Ltac in_list :=
  unfold invisible_chars;
  repeat first [apply list_elem_of_here | apply list_elem_of_further].

Lemma filter_all {A} (P : A → Prop) `{∀ x, Decision (P x)} (l : list A) :
  Forall P l → filter P l = l.
Proof.
  induction 1 as [|x l Hx _ IH]; [done|].
  by rewrite filter_cons, decide_True, IH.
Qed.

(** *** The passes keep visible text visible *)

Lemma remove_hf_lines_kept (U : unicode_tables) (Q : text → Prop)
    (ls kept : list text) (st st' : CleaningStats) :
  remove_hf_lines U ls st = (kept, st') → Forall Q ls → Forall Q kept.
Proof.
  revert st kept st'. induction ls as [|l ls IH]; intros st kept st'; simpl.
  - by intros [= <- <-].
  - intros Hrun [Hl Hls]%Forall_cons.
    destruct (is_header_line U (strip l)); [by eapply IH|].
    destruct (is_footer_line U (strip l)); [by eapply IH|].
    destruct (remove_hf_lines U ls st) as [kept0 st0] eqn:Hrec.
    injection Hrun as <- <-. constructor; [done|by eapply IH].
Qed.

Lemma remove_headers_footers_visible (U : unicode_tables) (c c' : text)
    (st st' : CleaningStats) :
  _remove_headers_footers U c st = (c', st') →
  Forall visible c → Forall visible c'.
Proof.
  unfold _remove_headers_footers.
  destruct (remove_hf_lines U (split_lines c) st) as [kept st0] eqn:Hrun.
  intros [= <- <-] Hc.
  apply join_lines_Forall; [apply visible_LF|].
  eapply remove_hf_lines_kept; [done|]. by apply split_lines_Forall.
Qed.

(** The text [_remove_invisible_characters] returns *)
Lemma remove_invisible_content (c : text) (st : CleaningStats) :
  (_remove_invisible_characters c st).1
  = filter (λ a, control_char a = false)
      (filter (λ a, a ≠ 0x3000%N) (filter (λ a, a ≠ 0xA0%N)
      (filter (λ a, a ≠ 0xFEFF%N) (filter (λ a, a ≠ 0x2060%N)
      (filter (λ a, a ≠ 0x200D%N) (filter (λ a, a ≠ 0x200C%N)
      (filter (λ a, a ≠ 0x200B%N) c))))))).
Proof.
  unfold _remove_invisible_characters, invisible_chars. simpl.
  by rewrite re_sub_delete, !str_replace_delete.
Qed.

Lemma remove_invisible_visible (c : text) (st : CleaningStats) :
  Forall visible (_remove_invisible_characters c st).1.
Proof.
  rewrite remove_invisible_content. apply Forall_forall. intros a Ha.
  repeat (apply list_elem_of_filter in Ha as [? Ha]).
  split; [|done]. unfold invisible_chars.
  rewrite !elem_of_cons, elem_of_nil. intuition congruence.
Qed.

(** On visible text the pass changes neither the text nor the
    statistics. *)
Lemma remove_invisible_id (c : text) (st : CleaningStats) :
  Forall visible c → _remove_invisible_characters c st = (c, st).
Proof.
  intros Hc.
  assert (∀ a, a ∈ invisible_chars → filter (λ x, x ≠ a) c = c) as Hdel.
  { intros a Ha. apply filter_all. eapply Forall_impl; [exact Hc|].
    intros x [Hx _] ->. done. }
  assert ((_remove_invisible_characters c st).1 = c) as Hfst.
  { rewrite remove_invisible_content.
    do 7 (rewrite Hdel by in_list).
    apply filter_all. eapply Forall_impl; [exact Hc|]. by intros x [_ ?]. }
  revert Hfst. unfold _remove_invisible_characters. cbn [fst].
  intros ->. rewrite bool_decide_false by lia. done.
Qed.

Lemma fix_lines_visible (U : unicode_tables) (ls fixed : list text)
    (st st' : CleaningStats) :
  fix_lines U ls st = (fixed, st') →
  Forall (Forall visible) ls → Forall (Forall visible) fixed.
Proof.
  revert st fixed st'. induction ls as [|l ls IH]; intros st fixed st'; simpl.
  - by intros [= <- <-].
  - intros Hrun [Hl Hls]%Forall_cons.
    destruct (match ls with
              | [] => false
              | next :: _ => ends_lower U (strip l)
                             && starts_lower U (strip next)
              end).
    + destruct (fix_lines U ls (add_line_breaks_fixed 1 st))
        as [fixed0 st0] eqn:Hrec.
      injection Hrun as <- <-. constructor; [|by eapply IH].
      apply Forall_app. split; [by apply strip_Forall|].
      repeat constructor. apply visible_SP.
    + destruct (fix_lines U ls st) as [fixed0 st0] eqn:Hrec.
      injection Hrun as <- <-.
      constructor; [by apply strip_Forall|by eapply IH].
Qed.

Lemma fix_line_breaks_visible (U : unicode_tables) (c c' : text)
    (st st' : CleaningStats) :
  _fix_line_breaks U c st = (c', st') →
  Forall visible c → Forall visible c'.
Proof.
  unfold _fix_line_breaks.
  destruct (fix_lines U _ st) as [fixed st0] eqn:Hrun.
  intros [= <- <-] Hc.
  apply join_lines_Forall; [apply visible_LF|].
  eapply fix_lines_visible; [done|].
  apply split_lines_Forall.
  apply str_replace_Forall; [repeat constructor; apply visible_LF|].
  apply str_replace_Forall; [repeat constructor; apply visible_LF|done].
Qed.

Lemma standardize_whitespace_visible (c c' : text) (st st' : CleaningStats) :
  _standardize_whitespace c st = (c', st') →
  Forall visible c → Forall visible c'.
Proof.
  unfold _standardize_whitespace. intros [= <- _] Hc.
  apply re_sub_Forall; [repeat constructor; apply visible_LF|].
  apply join_lines_Forall; [apply visible_LF|].
  apply Forall_fmap. eapply Forall_impl.
  - apply split_lines_Forall.
    apply re_sub_Forall; [repeat constructor; apply visible_SP|].
    apply re_sub_Forall; [repeat constructor; apply visible_SP|done].
  - intros l Hl. by apply strip_Forall.
Qed.

Lemma redundant_fold_visible (U : unicode_tables) (ls acc : list text) :
  Forall (Forall visible) acc → Forall (Forall visible) ls →
  Forall (Forall visible) (foldl (redundant_step U) acc ls).
Proof.
  revert acc. induction ls as [|l ls IH]; intros acc Hacc Hls; simpl;
    [done|].
  apply Forall_cons in Hls as [Hl Hls]. apply IH; [|done].
  unfold redundant_step. repeat case_match; try done.
  apply Forall_app. split; [done|].
  repeat constructor. by apply strip_Forall.
Qed.

Lemma remove_redundant_visible (U : unicode_tables) (c c' : text)
    (st st' : CleaningStats) :
  _remove_redundant_content U c st = (c', st') →
  Forall visible c → Forall visible c'.
Proof.
  unfold _remove_redundant_content. intros [= <- _] Hc.
  apply join_lines_Forall; [apply visible_LF|].
  apply redundant_fold_visible; [constructor|by apply split_lines_Forall].
Qed.

(** The content of a cleaned element holds no invisible character. *)
Lemma clean_element_visible (U : unicode_tables) (lvl : CleaningLevel)
    (e ce : DocumentElement) (st st' : CleaningStats) :
  _clean_element U lvl e st = (Some ce, st') → Forall visible (content ce).
Proof.
  unfold _clean_element. case_bool_decide; [done|].
  destruct (if bool_decide (lvl = STANDARD ∨ lvl = AGGRESSIVE)
            then _remove_headers_footers U (content e) st
            else (content e, st)) as [c1 st1].
  destruct (_normalize_unicode U c1 st1) as [c2 st2].
  pose proof (remove_invisible_visible c2 st2) as H3.
  destruct (_remove_invisible_characters c2 st2) as [c3 st3]. simpl in H3.
  destruct (_fix_line_breaks U c3 st3) as [c4 st4] eqn:H4.
  destruct (_standardize_whitespace c4 st4) as [c5 st5] eqn:H5.
  destruct (if bool_decide (lvl = AGGRESSIVE)
            then _remove_redundant_content U c5 st5
            else (c5, st5)) as [c6 st6] eqn:H6.
  intros [= <- _]. simpl.
  eapply fix_line_breaks_visible in H4; [|done].
  eapply standardize_whitespace_visible in H5; [|done].
  case_bool_decide; [by eapply remove_redundant_visible|].
  by injection H6 as <- _.
Qed.

(** *** What each pass does to the counters *)

Lemma same_removals_refl (st : CleaningStats) : same_removals st st.
Proof. done. Qed.

Lemma same_removals_trans (st1 st2 st3 : CleaningStats) :
  same_removals st1 st2 → same_removals st2 st3 → same_removals st1 st3.
Proof. unfold same_removals. intros (? & ? & ?) (? & ? & ?). lia. Qed.

Lemma remove_hf_lines_invisible (U : unicode_tables) (ls kept : list text)
    (st st' : CleaningStats) :
  remove_hf_lines U ls st = (kept, st') →
  invisible_chars_removed st' = invisible_chars_removed st.
Proof.
  revert st kept st'. induction ls as [|l ls IH]; intros st kept st'; simpl.
  - by intros [= _ <-].
  - destruct (is_header_line U (strip l));
      [intros Hrun; by rewrite (IH _ _ _ Hrun)|].
    destruct (is_footer_line U (strip l));
      [intros Hrun; by rewrite (IH _ _ _ Hrun)|].
    destruct (remove_hf_lines U ls st) as [kept0 st0] eqn:Hrec.
    intros [= _ <-]. by eapply IH.
Qed.

Lemma remove_headers_footers_invisible (U : unicode_tables) (c c' : text)
    (st st' : CleaningStats) :
  _remove_headers_footers U c st = (c', st') →
  invisible_chars_removed st' = invisible_chars_removed st.
Proof.
  unfold _remove_headers_footers.
  destruct (remove_hf_lines U (split_lines c) st) as [kept st0] eqn:Hrun.
  intros [= _ <-]. by eapply remove_hf_lines_invisible.
Qed.

Lemma normalize_unicode_removals (U : unicode_tables) (c : text)
    (st : CleaningStats) :
  same_removals st (_normalize_unicode U c st).2.
Proof. unfold _normalize_unicode. simpl. by case_bool_decide. Qed.

Lemma remove_invisible_hf (c : text) (st : CleaningStats) :
  headers_removed (_remove_invisible_characters c st).2 = headers_removed st
  ∧ footers_removed (_remove_invisible_characters c st).2
    = footers_removed st.
Proof. unfold _remove_invisible_characters. simpl. by case_bool_decide. Qed.

Lemma fix_lines_removals (U : unicode_tables) (ls : list text)
    (st : CleaningStats) :
  same_removals st (fix_lines U ls st).2.
Proof.
  revert st. induction ls as [|l ls IH]; intros st; simpl; [done|].
  destruct (match ls with
            | [] => false
            | next :: _ => ends_lower U (strip l)
                           && starts_lower U (strip next)
            end).
  - specialize (IH (add_line_breaks_fixed 1 st)).
    by destruct (fix_lines U ls (add_line_breaks_fixed 1 st)).
  - specialize (IH st). by destruct (fix_lines U ls st).
Qed.

Lemma fix_line_breaks_removals (U : unicode_tables) (c : text)
    (st : CleaningStats) :
  same_removals st (_fix_line_breaks U c st).2.
Proof.
  unfold _fix_line_breaks.
  pose proof (fix_lines_removals U
    (split_lines (str_replace [CR] [LF] (str_replace [CR; LF] [LF] c))) st)
    as H.
  by destruct (fix_lines U _ st).
Qed.

Lemma standardize_whitespace_removals (c : text) (st : CleaningStats) :
  same_removals st (_standardize_whitespace c st).2.
Proof. unfold _standardize_whitespace. simpl. by case_bool_decide. Qed.

Lemma remove_redundant_removals (U : unicode_tables) (c : text)
    (st : CleaningStats) :
  same_removals st (_remove_redundant_content U c st).2.
Proof. done. Qed.

(** Cleaning an element whose content is visible counts no invisible
    character. *)
Lemma clean_element_invisible (U : unicode_tables) (lvl : CleaningLevel)
    (e : DocumentElement) (st : CleaningStats) :
  nfc_keeps_visible U → Forall visible (content e) →
  invisible_chars_removed (_clean_element U lvl e st).2
  = invisible_chars_removed st.
Proof.
  intros Hnfc He. unfold _clean_element. case_bool_decide; [done|].
  destruct (if bool_decide (lvl = STANDARD ∨ lvl = AGGRESSIVE)
            then _remove_headers_footers U (content e) st
            else (content e, st)) as [c1 st1] eqn:H1.
  assert (Forall visible c1
          ∧ invisible_chars_removed st1 = invisible_chars_removed st)
    as [Hc1 Hst1].
  { case_bool_decide; [|by injection H1 as <- <-].
    split; [by eapply remove_headers_footers_visible
           |by eapply remove_headers_footers_invisible]. }
  pose proof (normalize_unicode_removals U c1 st1) as (_ & _ & H2).
  assert (Forall visible (_normalize_unicode U c1 st1).1) as Hc2
    by (by apply Hnfc).
  destruct (_normalize_unicode U c1 st1) as [c2 st2]. simpl in H2, Hc2.
  rewrite (remove_invisible_id c2 st2 Hc2).
  pose proof (fix_line_breaks_removals U c2 st2) as (_ & _ & H4).
  destruct (_fix_line_breaks U c2 st2) as [c4 st4]. simpl in H4.
  pose proof (standardize_whitespace_removals c4 st4) as (_ & _ & H5).
  destruct (_standardize_whitespace c4 st4) as [c5 st5]. simpl in H5.
  destruct (if bool_decide (lvl = AGGRESSIVE)
            then _remove_redundant_content U c5 st5
            else (c5, st5)) as [c6 st6] eqn:H6.
  assert (st6 = st5) as ->.
  { case_bool_decide; by injection H6 as _ <-. }
  simpl. congruence.
Qed.

(** At the minimal level no header or footer is counted. *)
Lemma clean_element_minimal (U : unicode_tables) (e : DocumentElement)
    (st : CleaningStats) :
  headers_removed (_clean_element U MINIMAL e st).2 = headers_removed st
  ∧ footers_removed (_clean_element U MINIMAL e st).2 = footers_removed st.
Proof.
  unfold _clean_element. case_bool_decide; [done|].
  rewrite (bool_decide_false (MINIMAL = STANDARD ∨ MINIMAL = AGGRESSIVE))
    by (by intros [?|?]).
  rewrite (bool_decide_false (MINIMAL = AGGRESSIVE)) by done.
  pose proof (normalize_unicode_removals U (content e) st) as (H2 & H2' & _).
  destruct (_normalize_unicode U (content e) st) as [c2 st2].
  simpl in H2, H2'.
  pose proof (remove_invisible_hf c2 st2) as [H3 H3'].
  destruct (_remove_invisible_characters c2 st2) as [c3 st3].
  simpl in H3, H3'.
  pose proof (fix_line_breaks_removals U c3 st3) as (H4 & H4' & _).
  destruct (_fix_line_breaks U c3 st3) as [c4 st4]. simpl in H4, H4'.
  pose proof (standardize_whitespace_removals c4 st4) as (H5 & H5' & _).
  destruct (_standardize_whitespace c4 st4) as [c5 st5]. simpl in *.
  split; congruence.
Qed.

(** *** The loop of [normalize_document] *)

Lemma norm_step_stats (U : unicode_tables) (detect : text → option string)
    (lvl : CleaningLevel) (st : norm_state) (e : DocumentElement) :
  ns_stats (norm_step U detect lvl st e)
  = (_clean_element U lvl e (ns_stats st)).2.
Proof.
  unfold norm_step.
  destruct (_clean_element U lvl e (ns_stats st)) as [[ce|] stats]; [|done].
  by repeat case_bool_decide.
Qed.

(** The elements the loop keeps *)
Lemma norm_step_cleaned (U : unicode_tables) (detect : text → option string)
    (lvl : CleaningLevel) (st : norm_state) (e : DocumentElement) :
  ns_cleaned (norm_step U detect lvl st e) = ns_cleaned st
  ∨ ∃ ce, (_clean_element U lvl e (ns_stats st)).1 = Some ce
          ∧ ns_cleaned (norm_step U detect lvl st e) = ns_cleaned st ++ [ce].
Proof.
  unfold norm_step.
  destruct (_clean_element U lvl e (ns_stats st)) as [[ce|] stats];
    [|by left].
  repeat case_bool_decide; simpl; eauto.
Qed.

Lemma norm_fold_visible (U : unicode_tables) (detect : text → option string)
    (lvl : CleaningLevel) (els : list DocumentElement) (st : norm_state) :
  Forall (λ e, Forall visible (content e)) (ns_cleaned st) →
  Forall (λ e, Forall visible (content e))
    (ns_cleaned (foldl (norm_step U detect lvl) st els)).
Proof.
  revert st. induction els as [|e els IH]; intros st Hst; simpl; [done|].
  apply IH.
  destruct (norm_step_cleaned U detect lvl st e) as [->|(ce & Hce & ->)];
    [done|].
  apply Forall_app. split; [done|]. repeat constructor.
  destruct (_clean_element U lvl e (ns_stats st)) as [o st'] eqn:Hrun.
  simpl in Hce. subst o. by eapply clean_element_visible.
Qed.

Lemma norm_fold_invisible (U : unicode_tables)
    (detect : text → option string) (lvl : CleaningLevel)
    (els : list DocumentElement) (st : norm_state) :
  nfc_keeps_visible U →
  Forall (λ e, Forall visible (content e)) els →
  invisible_chars_removed (ns_stats (foldl (norm_step U detect lvl) st els))
  = invisible_chars_removed (ns_stats st).
Proof.
  intros Hnfc Hels. revert st.
  induction Hels as [|e els He _ IH]; intros st; simpl; [done|].
  rewrite IH, norm_step_stats. by apply clean_element_invisible.
Qed.

Lemma norm_fold_minimal (U : unicode_tables) (detect : text → option string)
    (els : list DocumentElement) (st : norm_state) :
  let st' := foldl (norm_step U detect MINIMAL) st els in
  headers_removed (ns_stats st') = headers_removed (ns_stats st)
  ∧ footers_removed (ns_stats st') = footers_removed (ns_stats st).
Proof.
  revert st. induction els as [|e els IH]; intros st; simpl; [done|].
  destruct (IH (norm_step U detect MINIMAL st e)) as [-> ->].
  rewrite norm_step_stats. apply clean_element_minimal.
Qed.

(** C8, as stated, fails: standard cleaning of ["page 1"] written with
    a zero-width space inside the word keeps the line and strips the
    space; taken as new input, the cleaned line ["page 1"] matches the
    page-number pattern and the second run removes one header. *)
Lemma second_run_removes_a_header :
  let doc1 :=
    normalize_document ascii_tables detect_en STANDARD
      (single broken_page_marker) in
  let doc2 :=
    normalize_document ascii_tables detect_en STANDARD
      (rewrap (cleaned_elements doc1)) in
  content <$> cleaned_elements doc1 = [txt "page 1"]
  ∧ headers_removed (cleaning_stats doc2) = 1
  ∧ ¬ (headers_removed (cleaning_stats doc2) = 0
       ∧ footers_removed (cleaning_stats doc2) = 0
       ∧ invisible_chars_removed (cleaning_stats doc2) = 0).
Proof.
  split; [vm_compute; reflexivity|].
  split; [vm_compute; reflexivity|].
  intros [H _]. vm_compute in H. discriminate.
Qed.

(** C8, amended: when the cleaned elements of a run are normalized
    again at the same level, the second run counts no invisible
    character, provided normalization to NFC brings none in; at the
    minimal level it counts no header and no footer either.  (At the
    other levels a line may match a header or footer pattern only once
    the first run has stripped its invisible characters.) *)
Theorem second_run_strips_no_invisible (U : unicode_tables)
    (detect : text → option string) (lvl : CleaningLevel)
    (S : DocumentStructure) :
  nfc_keeps_visible U →
  let doc1 := normalize_document U detect lvl S in
  let doc2 := normalize_document U detect lvl (rewrap (cleaned_elements doc1)) in
  invisible_chars_removed (cleaning_stats doc2) = 0
  ∧ (lvl = MINIMAL →
     headers_removed (cleaning_stats doc2) = 0
     ∧ footers_removed (cleaning_stats doc2) = 0).
Proof.
  intros Hnfc doc1 doc2.
  assert (Forall (λ e, Forall visible (content e)) (cleaned_elements doc1))
    as Hvis.
  { unfold doc1, normalize_document, norm_loop. simpl.
    apply norm_fold_visible. constructor. }
  split.
  - unfold doc2, normalize_document, norm_loop. simpl.
    by rewrite norm_fold_invisible.
  - intros ->. unfold doc2, normalize_document, norm_loop. simpl.
    pose proof (norm_fold_minimal U detect (cleaned_elements doc1)
      {| ns_stats := set_original_chars
                       (total_chars (cleaned_elements doc1)) new_stats;
         ns_cleaned := []; ns_languages := []; ns_calls := [] |}) as [H1 H2].
    simpl in H1, H2. by rewrite H1, H2.
Qed.

(** C8, amended, on ["page 1"] with a zero-width space, at the minimal
    level *)
Lemma second_run_strips_no_invisible_witness :
  nfc_keeps_visible ascii_tables
  ∧ let doc1 :=
      normalize_document ascii_tables detect_en MINIMAL
        (single broken_page_marker) in
    let doc2 :=
      normalize_document ascii_tables detect_en MINIMAL
        (rewrap (cleaned_elements doc1)) in
    invisible_chars_removed (cleaning_stats doc2) = 0
    ∧ (MINIMAL = MINIMAL →
       headers_removed (cleaning_stats doc2) = 0
       ∧ footers_removed (cleaning_stats doc2) = 0).
Proof.
  assert (nfc_keeps_visible ascii_tables) as Hnfc by (intros s Hs; exact Hs).
  split; [exact Hnfc|].
  exact (second_run_strips_no_invisible ascii_tables detect_en MINIMAL
           (single broken_page_marker) Hnfc).
Defined.

(** ** Reduction percentage (C9) *)

(** *** No pass but NFC lengthens the text *)

Lemma remove_hf_lines_size (U : unicode_tables) (ls : list text)
    (st : CleaningStats) :
  (lines_size (remove_hf_lines U ls st).1 ≤ lines_size ls)%nat.
Proof.
  revert st. induction ls as [|l ls IH]; intros st; simpl; [done|].
  destruct (is_header_line U (strip l));
    [specialize (IH (add_headers_removed 1 st)); lia|].
  destruct (is_footer_line U (strip l));
    [specialize (IH (add_footers_removed 1 st)); lia|].
  specialize (IH st). destruct (remove_hf_lines U ls st). simpl in *. lia.
Qed.

Lemma remove_headers_footers_length (U : unicode_tables) (c : text)
    (st : CleaningStats) :
  (length (_remove_headers_footers U c st).1 ≤ length c)%nat.
Proof.
  unfold _remove_headers_footers.
  pose proof (remove_hf_lines_size U (split_lines c) st) as H.
  destruct (remove_hf_lines U (split_lines c) st) as [kept st']. simpl in *.
  pose proof (join_lines_length_le kept (split_lines c)
                (split_lines_nonempty c) H) as Hle.
  by rewrite join_split_lines in Hle.
Qed.

Lemma remove_invisible_length (c : text) (st : CleaningStats) :
  (length (_remove_invisible_characters c st).1 ≤ length c)%nat.
Proof.
  rewrite remove_invisible_content.
  repeat (etrans; [apply length_filter|]). done.
Qed.

Lemma fix_lines_from (U : unicode_tables) (ls : list text)
    (st : CleaningStats) :
  Forall2 fixed_from ls (fix_lines U ls st).1.
Proof.
  revert st. induction ls as [|l ls IH]; intros st; simpl; [constructor|].
  destruct ls as [|next ls'] eqn:Hls.
  - simpl. repeat constructor.
  - rewrite <- Hls in *.
    destruct (ends_lower U (strip l) && starts_lower U (strip next))
      eqn:Hbroken.
    + specialize (IH (add_line_breaks_fixed 1 st)).
      destruct (fix_lines U ls (add_line_breaks_fixed 1 st)). simpl in *.
      constructor; [|done]. right. split; [|done].
      apply andb_true_iff in Hbroken as [Hend _].
      unfold ends_lower in Hend. by destruct (last (strip l)).
    + specialize (IH st). destruct (fix_lines U ls st). simpl in *.
      constructor; [by left|done].
Qed.

Lemma not_space_not_SP (c : N) : isspace c = false → is_char SP c = false.
Proof.
  intros Hc. unfold is_char. destruct (c =? SP)%N eqn:Heq; [|done].
  apply N.eqb_eq in Heq. by subst c.
Qed.

Lemma not_space_not_TAB (c : N) : isspace c = false → is_char TAB c = false.
Proof.
  intros Hc. unfold is_char. destruct (c =? TAB)%N eqn:Heq; [|done].
  apply N.eqb_eq in Heq. by subst c.
Qed.

Lemma squeeze_spaces_length (s : text) :
  (length (squeeze_spaces s) ≤ length s)%nat.
Proof. apply re_sub_rep_length. simpl. lia. Qed.

Lemma squeeze_tabs_length (s : text) :
  (length (squeeze_tabs s) ≤ length s)%nat.
Proof. apply re_sub_rep_length. simpl. lia. Qed.

(** A line [fix_lines] has made is, after the whitespace pass, no
    longer than the line it comes from: the space added to a broken
    sentence is stripped again. *)
Lemma fixed_line_length (l f : text) :
  fixed_from l f →
  (length (strip (squeeze_tabs (squeeze_spaces f))) ≤ length l)%nat.
Proof.
  intros [->|[[c Hlast] ->]].
  - etrans; [apply strip_length|]. etrans; [apply squeeze_tabs_length|].
    etrans; [apply squeeze_spaces_length|]. apply strip_length.
  - pose proof (strip_last _ _ Hlast) as Hc.
    apply last_Some in Hlast as [s' Hs'].
    pose proof (strip_length l) as Hl. rewrite Hs' in *.
    rewrite <- app_assoc. simpl.
    unfold squeeze_spaces.
    rewrite re_sub_rep_boundary by first [lia | by apply not_space_not_SP].
    replace (re_sub (Rep true 2 None (is_char SP)) [SP] [SP]) with [SP]
      by (by vm_compute).
    unfold squeeze_tabs.
    rewrite re_sub_rep_boundary by first [lia | by apply not_space_not_TAB].
    replace (re_sub (Rep true 1 None (is_char TAB)) [SP] [SP]) with [SP]
      by (by vm_compute).
    fold squeeze_spaces. fold squeeze_tabs.
    replace (squeeze_tabs (squeeze_spaces s') ++ [c; SP])
      with ((squeeze_tabs (squeeze_spaces s') ++ [c]) ++ [SP])
      by (by rewrite <- app_assoc).
    rewrite strip_snoc_space by done.
    etrans; [apply strip_length|].
    pose proof (squeeze_tabs_length (squeeze_spaces s')).
    pose proof (squeeze_spaces_length s').
    rewrite length_app in *. simpl in *. lia.
Qed.

Lemma fixed_from_no_LF (l f : text) : fixed_from l f → LF ∉ l → LF ∉ f.
Proof.
  intros [->|[_ ->]] Hl; [by apply strip_no_LF|].
  rewrite elem_of_app, list_elem_of_singleton.
  intros [?|?]; [by eapply strip_no_LF|done].
Qed.

(** The whitespace pass after the line-break pass returns a text that
    is no longer than the text the line-break pass was given. *)
Lemma fix_then_standardize_length (U : unicode_tables) (c : text)
    (st st' : CleaningStats) :
  (length (_standardize_whitespace (_fix_line_breaks U c st).1 st').1
   ≤ length c)%nat.
Proof.
  unfold _fix_line_breaks.
  set (c1 := str_replace [CR] [LF] (str_replace [CR; LF] [LF] c)).
  assert (length c1 ≤ length c)%nat as Hc1.
  { unfold c1. etrans; [apply str_replace_length; simpl; lia|].
    apply str_replace_length. simpl. lia. }
  pose proof (fix_lines_from U (split_lines c1) st) as Hfrom.
  pose proof (split_lines_no_LF c1) as Hno.
  pose proof (split_lines_nonempty c1) as Hne.
  pose proof (join_split_lines c1) as Hjoin.
  destruct (fix_lines U (split_lines c1) st) as [fixed st0].
  cbn [fst] in *. unfold _standardize_whitespace. cbn [fst].
  etrans; [apply re_sub_rep_length; simpl; lia|].
  unfold plus.
  rewrite (re_sub_rep_lines (is_char SP)) by first [lia | done].
  rewrite (re_sub_rep_lines (is_char TAB)) by first [lia | done].
  fold squeeze_spaces. fold squeeze_tabs.
  assert (Forall (λ f, LF ∉ f) fixed) as Hfixed.
  { clear -Hfrom Hno. induction Hfrom as [|l f ls fs Hf _ IH];
      [constructor|].
    apply Forall_cons in Hno as [Hl Hls].
    constructor; [by eapply fixed_from_no_LF|by apply IH]. }
  rewrite split_join_lines.
  - rewrite <- Hjoin in Hc1. etrans; [|exact Hc1].
    apply join_lines_length_le; [done|].
    clear -Hfrom. induction Hfrom as [|l f ls fs Hf _ IH]; [done|].
    apply fixed_line_length in Hf. rewrite !fmap_cons, !lines_size_cons.
    lia.
  - destruct Hfrom; [done|]. done.
  - rewrite <- list_fmap_compose. apply Forall_fmap.
    eapply Forall_impl; [exact Hfixed|]. intros f Hf. simpl.
    apply re_sub_no_LF; [by intros ?%list_elem_of_singleton|].
    apply re_sub_no_LF; [by intros ?%list_elem_of_singleton|done].
Qed.

Lemma lines_size_app (ls ls' : list text) :
  lines_size (ls ++ ls') = (lines_size ls + lines_size ls')%nat.
Proof.
  induction ls as [|l ls IH]; [done|].
  rewrite <- app_comm_cons, !lines_size_cons, IH. lia.
Qed.

Lemma redundant_fold_size (U : unicode_tables) (ls acc : list text) :
  (lines_size (foldl (redundant_step U) acc ls)
   ≤ lines_size acc + lines_size ls)%nat.
Proof.
  revert acc. induction ls as [|l ls IH]; intros acc; simpl; [lia|].
  etrans; [apply IH|].
  assert (lines_size (redundant_step U acc l)
          ≤ lines_size acc + S (length l))%nat; [|lia].
  unfold redundant_step. repeat case_match; try lia.
  rewrite lines_size_app, lines_size_cons. simpl.
  pose proof (strip_length l). lia.
Qed.

Lemma remove_redundant_length (U : unicode_tables) (c : text)
    (st : CleaningStats) :
  (length (_remove_redundant_content U c st).1 ≤ length c)%nat.
Proof.
  unfold _remove_redundant_content. cbn [fst].
  pose proof (redundant_fold_size U (split_lines c) []) as H.
  pose proof (join_lines_length_le _ (split_lines c)
                (split_lines_nonempty c) H) as Hle.
  by rewrite join_split_lines in Hle.
Qed.

(** Cleaning does not lengthen the content of an element, as long as
    NFC does not. *)
Lemma clean_element_length (U : unicode_tables) (lvl : CleaningLevel)
    (e ce : DocumentElement) (st st' : CleaningStats) :
  nfc_not_longer U →
  _clean_element U lvl e st = (Some ce, st') →
  (length (content ce) ≤ length (content e))%nat.
Proof.
  intros Hnfc. unfold _clean_element. case_bool_decide; [done|].
  destruct (if bool_decide (lvl = STANDARD ∨ lvl = AGGRESSIVE)
            then _remove_headers_footers U (content e) st
            else (content e, st)) as [c1 st1] eqn:H1.
  assert (length c1 ≤ length (content e))%nat as Hc1.
  { case_bool_decide; [|by injection H1 as <- _].
    pose proof (remove_headers_footers_length U (content e) st) as Hlen.
    by rewrite H1 in Hlen. }
  pose proof (Hnfc c1) as Hc2.
  unfold _normalize_unicode.
  set (c2 := uc_nfc U c1) in *.
  generalize (if bool_decide (c2 ≠ c1) then add_unicode_fixed 1 st1 else st1).
  intros st2.
  pose proof (remove_invisible_length c2 st2) as Hc3.
  destruct (_remove_invisible_characters c2 st2) as [c3 st3].
  pose proof (fix_then_standardize_length U c3 st3) as Hc5.
  destruct (_fix_line_breaks U c3 st3) as [c4 st4].
  specialize (Hc5 st4). cbn [fst] in Hc5.
  destruct (_standardize_whitespace c4 st4) as [c5 st5].
  destruct (if bool_decide (lvl = AGGRESSIVE)
            then _remove_redundant_content U c5 st5
            else (c5, st5)) as [c6 st6] eqn:H6.
  assert (length c6 ≤ length c5)%nat as Hc6.
  { case_bool_decide; [|by injection H6 as <- _].
    pose proof (remove_redundant_length U c5 st5) as Hlen.
    by rewrite H6 in Hlen. }
  intros [= <- _]. simpl in *. lia.
Qed.

Lemma total_chars_app (els els' : list DocumentElement) :
  total_chars (els ++ els') = total_chars els + total_chars els'.
Proof.
  induction els as [|e els IH]; simpl; [done|]. rewrite IH. lia.
Qed.

Lemma total_chars_nonneg (els : list DocumentElement) : 0 ≤ total_chars els.
Proof. induction els as [|e els IH]; simpl; unfold len in *; lia. Qed.

Lemma norm_fold_length (U : unicode_tables) (detect : text → option string)
    (lvl : CleaningLevel) (els : list DocumentElement) (st : norm_state) :
  nfc_not_longer U →
  total_chars (ns_cleaned (foldl (norm_step U detect lvl) st els))
  ≤ total_chars (ns_cleaned st) + total_chars els.
Proof.
  intros Hnfc. revert st.
  induction els as [|e els IH]; intros st; simpl; [lia|].
  etrans; [apply IH|].
  pose proof (total_chars_nonneg els).
  assert (total_chars (ns_cleaned (norm_step U detect lvl st e))
          ≤ total_chars (ns_cleaned st) + len (content e)); [|lia].
  destruct (norm_step_cleaned U detect lvl st e) as [->|(ce & Hce & ->)];
    [unfold len; lia|].
  destruct (_clean_element U lvl e (ns_stats st)) as [o st'] eqn:Hrun.
  simpl in Hce. subst o.
  pose proof (clean_element_length _ _ _ _ _ _ Hnfc Hrun).
  rewrite total_chars_app. simpl. unfold len. lia.
Qed.

(** *** [original_chars] is set once *)

Lemma remove_hf_lines_original (U : unicode_tables) (ls : list text)
    (st : CleaningStats) :
  original_chars (remove_hf_lines U ls st).2 = original_chars st.
Proof.
  revert st. induction ls as [|l ls IH]; intros st; simpl; [done|].
  destruct (is_header_line U (strip l)); [by rewrite IH|].
  destruct (is_footer_line U (strip l)); [by rewrite IH|].
  specialize (IH st). by destruct (remove_hf_lines U ls st).
Qed.

Lemma fix_lines_original (U : unicode_tables) (ls : list text)
    (st : CleaningStats) :
  original_chars (fix_lines U ls st).2 = original_chars st.
Proof.
  revert st. induction ls as [|l ls IH]; intros st; simpl; [done|].
  destruct (match ls with
            | [] => false
            | next :: _ => ends_lower U (strip l)
                           && starts_lower U (strip next)
            end).
  - specialize (IH (add_line_breaks_fixed 1 st)).
    by destruct (fix_lines U ls (add_line_breaks_fixed 1 st)).
  - specialize (IH st). by destruct (fix_lines U ls st).
Qed.

Lemma normalize_unicode_original (U : unicode_tables) (c : text)
    (st : CleaningStats) :
  original_chars (_normalize_unicode U c st).2 = original_chars st.
Proof. unfold _normalize_unicode. simpl. by case_bool_decide. Qed.

Lemma remove_invisible_original (c : text) (st : CleaningStats) :
  original_chars (_remove_invisible_characters c st).2 = original_chars st.
Proof. unfold _remove_invisible_characters. simpl. by case_bool_decide. Qed.

Lemma standardize_whitespace_original (c : text) (st : CleaningStats) :
  original_chars (_standardize_whitespace c st).2 = original_chars st.
Proof. unfold _standardize_whitespace. simpl. by case_bool_decide. Qed.

Lemma clean_element_original (U : unicode_tables) (lvl : CleaningLevel)
    (e : DocumentElement) (st : CleaningStats) :
  original_chars (_clean_element U lvl e st).2 = original_chars st.
Proof.
  unfold _clean_element. case_bool_decide; [done|].
  destruct (if bool_decide (lvl = STANDARD ∨ lvl = AGGRESSIVE)
            then _remove_headers_footers U (content e) st
            else (content e, st)) as [c1 st1] eqn:H1.
  assert (original_chars st1 = original_chars st) as Hst1.
  { case_bool_decide; [|by injection H1 as _ <-].
    unfold _remove_headers_footers in H1.
    pose proof (remove_hf_lines_original U (split_lines (content e)) st)
      as Hhf.
    destruct (remove_hf_lines U (split_lines (content e)) st).
    by injection H1 as _ <-. }
  pose proof (normalize_unicode_original U c1 st1) as H2.
  destruct (_normalize_unicode U c1 st1) as [c2 st2]. simpl in H2.
  pose proof (remove_invisible_original c2 st2) as H3.
  destruct (_remove_invisible_characters c2 st2) as [c3 st3]. simpl in H3.
  assert (original_chars (_fix_line_breaks U c3 st3).2 = original_chars st3)
    as H4.
  { unfold _fix_line_breaks.
    pose proof (fix_lines_original U
      (split_lines (str_replace [CR] [LF] (str_replace [CR; LF] [LF] c3)))
      st3) as Hfl.
    by destruct (fix_lines U _ st3). }
  destruct (_fix_line_breaks U c3 st3) as [c4 st4]. simpl in H4.
  pose proof (standardize_whitespace_original c4 st4) as H5.
  destruct (_standardize_whitespace c4 st4) as [c5 st5]. simpl in H5.
  destruct (if bool_decide (lvl = AGGRESSIVE)
            then _remove_redundant_content U c5 st5
            else (c5, st5)) as [c6 st6] eqn:H6.
  assert (st6 = st5) as -> by (case_bool_decide; by injection H6 as _ <-).
  simpl. congruence.
Qed.

Lemma norm_fold_original (U : unicode_tables) (detect : text → option string)
    (lvl : CleaningLevel) (els : list DocumentElement) (st : norm_state) :
  original_chars (ns_stats (foldl (norm_step U detect lvl) st els))
  = original_chars (ns_stats st).
Proof.
  revert st. induction els as [|e els IH]; intros st; simpl; [done|].
  rewrite IH, norm_step_stats. apply clean_element_original.
Qed.

(** *** The percentage *)

Lemma reduction_le_100 (st : CleaningStats) :
  0 ≤ original_chars st → 0 ≤ cleaned_chars st →
  (get_reduction_percentage st <= 100)%Q.
Proof.
  intros Ho Hc. unfold get_reduction_percentage.
  case_bool_decide as Hz; [done|].
  assert (0 < inject_Z (original_chars st))%Q as Hpos.
  { replace 0%Q with (inject_Z 0) by done. rewrite <- Zlt_Qlt. lia. }
  apply Qle_trans with (1 * 100)%Q; [|by compute].
  apply Qmult_le_compat_r; [|by compute].
  apply Qle_shift_div_r; [done|].
  rewrite Qmult_1_l, <- Zle_Qle. lia.
Qed.

Lemma reduction_nonneg (st : CleaningStats) :
  0 ≤ cleaned_chars st ≤ original_chars st →
  (0 <= get_reduction_percentage st)%Q.
Proof.
  intros Hc. unfold get_reduction_percentage.
  case_bool_decide as Hz; [done|].
  assert (0 < inject_Z (original_chars st))%Q as Hpos.
  { replace 0%Q with (inject_Z 0) by done. rewrite <- Zlt_Qlt. lia. }
  apply Qmult_le_0_compat; [|done].
  apply Qle_shift_div_l; [done|].
  rewrite Qmult_0_l. replace 0%Q with (inject_Z 0) by done.
  rewrite <- Zle_Qle. lia.
Qed.

Lemma reduction_zero (st : CleaningStats) :
  original_chars st = cleaned_chars st ∨ original_chars st = 0 →
  (get_reduction_percentage st == 0)%Q.
Proof.
  intros Heq. unfold get_reduction_percentage.
  case_bool_decide as Hz; [done|].
  destruct Heq as [<-|?]; [|done].
  rewrite Z.sub_diag. unfold Qdiv. by rewrite !Qmult_0_l.
Qed.

(** C9, as stated, fails: the word qalam written with the letter QA
    has 3 characters and its NFC form has 4, so the reduction is
    negative. *)
Lemma reduction_negative_when_nfc_lengthens :
  let stats :=
    cleaning_stats
      (normalize_document nukta_tables detect_en STANDARD (single qalam)) in
  original_chars stats = 3 ∧ cleaned_chars stats = 4
  ∧ ¬ (0 <= get_reduction_percentage stats
       ∧ get_reduction_percentage stats <= 100)%Q.
Proof.
  split; [vm_compute; reflexivity|].
  split; [vm_compute; reflexivity|].
  intros [H _]. vm_compute in H. by apply H.
Qed.

(** C9, amended: for every document [normalize_document] returns, the
    reduction percentage of its statistics is at most 100, is 0 when
    [original_chars = cleaned_chars] and is 0 when [original_chars = 0];
    it is at least 0 provided normalization to NFC does not lengthen
    the text. *)
Theorem reduction_percentage_bounds (U : unicode_tables)
    (detect : text → option string) (lvl : CleaningLevel)
    (S : DocumentStructure) :
  let stats := cleaning_stats (normalize_document U detect lvl S) in
  (get_reduction_percentage stats <= 100)%Q
  ∧ (original_chars stats = cleaned_chars stats →
     (get_reduction_percentage stats == 0)%Q)
  ∧ (original_chars stats = 0 → (get_reduction_percentage stats == 0)%Q)
  ∧ (nfc_not_longer U → (0 <= get_reduction_percentage stats)%Q).
Proof.
  intros stats.
  assert (original_chars stats = total_chars (elements S)) as Ho.
  { unfold stats, normalize_document, norm_loop. simpl.
    by rewrite norm_fold_original. }
  assert (cleaned_chars stats
          = total_chars (cleaned_elements (normalize_document U detect lvl S)))
    as Hc by done.
  pose proof (total_chars_nonneg (elements S)).
  pose proof (total_chars_nonneg
                (cleaned_elements (normalize_document U detect lvl S))).
  split; [apply reduction_le_100; lia|].
  split; [intros ?; apply reduction_zero; by left|].
  split; [intros ?; apply reduction_zero; by right|].
  intros Hnfc. apply reduction_nonneg. split; [lia|].
  rewrite Hc, Ho. unfold normalize_document, norm_loop. simpl.
  etrans; [by apply norm_fold_length|]. simpl. lia.
Qed.

(** ** The parser: termination *)

(** An iteration of [_parse_elements] that consumes no line leaves the
    index where it is: the loop never ends.  This is the case of a
    line that [_identify_element] does not recognise and
    [_extract_paragraph] refuses. *)
Lemma parse_loop_stuck_paragraph (U : unicode_tables) (lines : list text)
    (fmt : string) (i : nat) (raw : text) lvl cl n :
  lines !! i = Some raw → strip raw ≠ [] →
  _identify_element U lines i fmt = Some (UNKNOWN, lvl, cl, n) →
  _extract_paragraph U lines i = [] →
  ∀ fuel pos acc, _parse_elements_loop U fuel lines fmt i pos acc = None.
Proof.
  intros Hi Hraw Hid Hpar fuel.
  induction fuel as [|fuel IH]; intros pos acc; simpl; [done|].
  rewrite Hi, bool_decide_false, Hid by done. simpl.
  rewrite Hpar. simpl. rewrite Nat.add_0_r. apply IH.
Qed.

Lemma parse_loop_stuck_element (U : unicode_tables) (lines : list text)
    (fmt : string) (i : nat) (raw : text) ty lvl cl :
  lines !! i = Some raw → strip raw ≠ [] → ty ≠ UNKNOWN →
  _identify_element U lines i fmt = Some (ty, lvl, cl, 0%nat) →
  ∀ fuel pos acc, _parse_elements_loop U fuel lines fmt i pos acc = None.
Proof.
  intros Hi Hraw Hty Hid fuel.
  induction fuel as [|fuel IH]; intros pos acc; simpl; [done|].
  rewrite Hi, bool_decide_false, Hid by done. simpl.
  rewrite bool_decide_true by done.
  rewrite Nat.add_0_r. apply IH.
Qed.

(** With more iterations than lines the result of the loop is final. *)
Lemma parse_loop_fuel (U : unicode_tables) (lines : list text)
    (fmt : string) (fuel fuel' i : nat) (pos : Z)
    (acc : list DocumentElement) :
  (length lines - i < fuel)%nat → (fuel ≤ fuel')%nat →
  _parse_elements_loop U fuel' lines fmt i pos acc
  = _parse_elements_loop U fuel lines fmt i pos acc.
Proof.
  revert fuel' i pos acc.
  induction fuel as [|fuel IH]; intros fuel' i pos acc Hlen Hle; [lia|].
  destruct fuel' as [|fuel']; [lia|]. simpl.
  destruct (lines !! i) as [raw|] eqn:Hi; [|done].
  pose proof (lookup_lt_Some _ _ _ Hi) as Hlt.
  case_bool_decide as Hraw; [apply IH; lia|].
  destruct (_identify_element U lines i fmt) as [[[[ty lvl] cl] n]|] eqn:Hid;
    simpl; [|done].
  case_bool_decide as Hty.
  - destruct n as [|n].
    + rewrite Nat.add_0_r.
      rewrite !(parse_loop_stuck_element U lines fmt i raw ty lvl cl); done.
    + apply IH; lia.
  - destruct (_extract_paragraph U lines i) as [|l ls] eqn:Hpar.
    + assert (ty = UNKNOWN) as -> by (by destruct (decide (ty = UNKNOWN))).
      simpl. rewrite Nat.add_0_r.
      rewrite !(parse_loop_stuck_paragraph U lines fmt i raw lvl cl n); done.
    + apply IH; simpl; lia.
Qed.

(** [parse_document] either returns within [len(lines) + 1] iterations
    of its loop or does not return: once the fuel exceeds the number of
    lines, more fuel changes nothing. *)
Theorem parse_document_fuel (U : unicode_tables) (content : text)
    (ft : string) (fuel fuel' : nat) :
  (length (split_lines content) < fuel)%nat → (fuel ≤ fuel')%nat →
  parse_document U fuel' content ft = parse_document U fuel content ft.
Proof.
  intros Hlen Hle. unfold parse_document, _parse_elements.
  case_bool_decide; [done|].
  by rewrite (parse_loop_fuel U _ _ fuel fuel') by lia.
Qed.

Lemma parse_document_fuel_witness :
  (length (split_lines scenario_A) < 4)%nat ∧ (4 ≤ 9)%nat
  ∧ parse_document ascii_tables 9 scenario_A "unknown"
    = parse_document ascii_tables 4 scenario_A "unknown".
Proof.
  assert (length (split_lines scenario_A) < 4)%nat as H1
    by (vm_compute; lia).
  assert (4 ≤ 9)%nat as H2 by lia.
  split; [exact H1|]. split; [exact H2|].
  exact (parse_document_fuel ascii_tables scenario_A "unknown" 4 9 H1 H2).
Defined.

Lemma lstrip_spaces (s : text) :
  ∃ pre, s = pre ++ lstrip s ∧ Forall (λ c, isspace c = true) pre.
Proof.
  induction s as [|c s (pre & Hs & Hpre)]; simpl; [by exists []|].
  destruct (isspace c) eqn:Hc; [|by exists []].
  exists (c :: pre). split; [by rewrite Hs at 1|by constructor].
Qed.

Lemma lstrip_nil_spaces (s : text) :
  lstrip s = [] → Forall (λ c, isspace c = true) s.
Proof.
  destruct (lstrip_spaces s) as (pre & Hs & Hpre). intros Hnil.
  rewrite Hnil, app_nil_r in Hs. by subst.
Qed.

Lemma lstrip_all_spaces (s : text) :
  Forall (λ c, isspace c = true) s → lstrip s = [].
Proof. induction 1 as [|c s Hc _ IH]; simpl; [done|]. by rewrite Hc. Qed.

(** A text is blank for [strip] exactly when it holds white space
    only. *)
Lemma strip_nil_iff (s : text) :
  strip s = [] ↔ Forall (λ c, isspace c = true) s.
Proof.
  unfold strip, rstrip. split.
  - intros Hnil. apply (f_equal reverse) in Hnil.
    rewrite reverse_involutive in Hnil. simpl in Hnil.
    apply lstrip_nil_spaces, Forall_reverse in Hnil.
    rewrite reverse_involutive in Hnil.
    destruct (lstrip_spaces s) as (pre & Hs & Hpre).
    rewrite Hs. by apply Forall_app.
  - intros Hs. by rewrite (lstrip_all_spaces s Hs).
Qed.

Lemma blank_content_blank_lines (content raw : text) :
  strip content = [] → raw ∈ split_lines content → strip raw = [].
Proof.
  rewrite !strip_nil_iff. intros Hc Hraw.
  pose proof (split_lines_Forall _ _ Hc) as Hls.
  rewrite Forall_forall in Hls. by apply Hls.
Qed.

Lemma extract_paragraph_refused (U : unicode_tables) (lines : list text)
    (i : nat) (raw : text) :
  lines !! i = Some raw → _is_structured_line U (strip raw) = true →
  _extract_paragraph U lines i = [].
Proof.
  intros Hi Hst. unfold _extract_paragraph.
  rewrite (drop_S _ _ _ Hi). simpl. rewrite Hst. by case_bool_decide.
Qed.

(** When the first non-blank line of a text is a line that
    [_identify_element] does not recognise although
    [_is_structured_line] takes it for a structured line,
    [parse_document] does not return, however long it runs: the
    paragraph it extracts is empty and the loop stays on the line. *)
Theorem parse_document_never_returns (U : unicode_tables) (content : text)
    (ft : string) (i : nat) (raw : text) lvl cl n :
  split_lines content !! i = Some raw → strip raw ≠ [] →
  (∀ j blank, (j < i)%nat → split_lines content !! j = Some blank →
              strip blank = []) →
  _identify_element U (split_lines content) i (_detect_format content ft)
  = Some (UNKNOWN, lvl, cl, n) →
  _is_structured_line U (strip raw) = true →
  ∀ fuel, parse_document U fuel content ft = None.
Proof.
  intros Hi Hraw Hblank Hid Hst fuel.
  unfold parse_document. rewrite bool_decide_false.
  2:{ intros [->|Hnil];
        [destruct i; simpl in Hi; [injection Hi as <-; by apply Hraw|done]|].
      apply Hraw. eapply blank_content_blank_lines; [done|].
      by eapply list_elem_of_lookup_2. }
  assert (∀ fuel k pos acc, (k ≤ i)%nat →
            _parse_elements_loop U fuel (split_lines content)
              (_detect_format content ft) k pos acc = None) as Hloop.
  { clear fuel. intros fuel.
    induction fuel as [|fuel IH]; intros k pos acc Hk; [done|].
    destruct (decide (k = i)) as [->|Hne].
    - eapply parse_loop_stuck_paragraph; [done..|].
      by eapply extract_paragraph_refused.
    - simpl.
      destruct (split_lines content !! k) as [blank|] eqn:Hk'.
      + rewrite bool_decide_true by (eapply Hblank; [|done]; lia).
        apply IH. lia.
      + apply lookup_ge_None in Hk'. apply lookup_lt_Some in Hi. lia. }
  unfold _parse_elements. rewrite Hloop by lia. done.
Qed.

(** ["  # Title"], of unknown type, is plain text for [_detect_format];
    its only line, stripped, is no heading of the plain rule set but a
    structured line. *)
Lemma parse_document_never_returns_witness :
  split_lines indented_heading !! 0%nat = Some indented_heading
  ∧ strip indented_heading ≠ []
  ∧ _identify_element ascii_tables (split_lines indented_heading) 0
      (_detect_format indented_heading "unknown")
    = Some (UNKNOWN, 0, [], 0%nat)
  ∧ _is_structured_line ascii_tables (strip indented_heading) = true
  ∧ ∀ fuel, parse_document ascii_tables fuel indented_heading "unknown"
            = None.
Proof.
  assert (split_lines indented_heading !! 0%nat = Some indented_heading)
    as H1 by reflexivity.
  assert (strip indented_heading ≠ []) as H2 by (vm_compute; discriminate).
  assert (_identify_element ascii_tables (split_lines indented_heading) 0
            (_detect_format indented_heading "unknown")
          = Some (UNKNOWN, 0, [], 0%nat)) as H3 by (vm_compute; reflexivity).
  assert (_is_structured_line ascii_tables (strip indented_heading) = true)
    as H4 by (vm_compute; reflexivity).
  split; [exact H1|]. split; [exact H2|]. split; [exact H3|].
  split; [exact H4|].
  refine (parse_document_never_returns ascii_tables indented_heading
            "unknown" 0 indented_heading 0 [] 0 H1 H2 _ H3 H4).
  intros j blank Hj. lia.
Defined.

(** ** The parser: what it produces *)

Lemma rstrip_prefix (s : text) : rstrip s `prefix_of` s.
Proof.
  unfold rstrip. destruct (lstrip_suffix (reverse s)) as [q Hq].
  exists (reverse q).
  rewrite <- reverse_app, <- Hq. by rewrite reverse_involutive.
Qed.

(** The first character of a stripped text is no white space. *)
Lemma strip_head (s : text) (c : N) :
  head (strip s) = Some c → isspace c = false.
Proof.
  unfold strip. destruct (rstrip_prefix (lstrip s)) as [q Hq].
  intros Hhead. apply (lstrip_head s). rewrite Hq.
  by destruct (rstrip (lstrip s)).
Qed.

Lemma matches_false (r : re) (s : text) :
  re_match r s = None → matches r s = false.
Proof.
  intros H. unfold matches. rewrite H. apply bool_decide_false.
  by intros [? ?].
Qed.

Lemma run_seq_none {A} (r1 r2 : re) (s : text) (g : option text)
    (k : text → option text → option A) :
  (∀ s1 g1, s1 `suffix_of` s → run r2 s1 g1 k = None) →
  run (Seq r1 r2) s g k = None.
Proof.
  intros Hnone. cbn [run].
  destruct (run r1 s g _) as [a|] eqn:Hrun; [|done].
  apply run_suffix in Hrun as (s1 & g1 & Hs1 & Hk).
  by rewrite Hnone in Hk.
Qed.

Lemma run_chr_none {A} (p : N → bool) (r : re) (s : text) (g : option text)
    (k : text → option text → option A) :
  (∀ c, c ∈ s → p c = false) → run (Seq (Chr p) r) s g k = None.
Proof.
  intros Hp. cbn [run]. destruct s as [|c s]; [done|].
  by rewrite Hp by (by left).
Qed.

(** On a line without newline and without leading white space, which
    is what [_identify_element] tests, neither code pattern matches:
    the fenced one asks for a newline, the indented one for four white
    spaces. *)
Lemma code_patterns_never (U : unicode_tables) (line : text) :
  LF ∉ line → (∀ c, head line = Some c → isspace c = false) →
  existsb (λ r, matches r line) (code_patterns U) = false.
Proof.
  intros HLF Hhead. unfold code_patterns. cbn [existsb].
  rewrite !orb_false_r. apply orb_false_iff. split; apply matches_false.
  - unfold re_match, seq. cbn [foldr].
    apply run_seq_none. intros s1 g1 [pre1 Hs1].
    apply run_seq_none. intros s2 g2 [pre2 Hs2].
    apply run_chr_none. intros c Hc.
    unfold is_char. apply N.eqb_neq. intros ->. apply HLF.
    rewrite Hs1, Hs2, !elem_of_app. auto.
  - unfold re_match, seq. cbn [foldr run].
    destruct line as [|c s]; [done|]. cbn [rep_greedy].
    by rewrite (Hhead c eq_refl).
Qed.

(** On the lines of a text [_identify_element] never answers
    [CODE_BLOCK]. *)
Lemma identify_element_kind (U : unicode_tables) (lines : list text)
    (i : nat) (fmt : string) ty lvl cl n :
  source_lines lines →
  _identify_element U lines i fmt = Some (ty, lvl, cl, n) →
  ty = UNKNOWN ∨ ty = HEADING ∨ ty = LIST_ITEM ∨ ty = TABLE.
Proof.
  intros Hsrc. unfold _identify_element.
  destruct (lines !! i) as [raw|] eqn:Hi; [|done].
  assert (existsb (λ r, matches r (strip raw)) (code_patterns U) = false)
    as Hcode.
  { apply code_patterns_never; [|apply strip_head].
    apply strip_no_LF. unfold source_lines in Hsrc.
    rewrite Forall_forall in Hsrc. apply Hsrc.
    by eapply list_elem_of_lookup_2. }
  rewrite Hcode.
  destruct (first_heading (default [] (heading_patterns U fmt)) (strip raw))
    as [[l|]|]; cbn [mbind option_bind];
    [intros ?; simplify_eq; tauto|done|].
  destruct (first_heading (default [] (heading_patterns U "general"))
              (strip raw)) as [[l|]|]; cbn [mbind option_bind];
    [intros ?; simplify_eq; tauto|done|].
  destruct (existsb _ (list_patterns U));
    [intros ?; simplify_eq; tauto|].
  destruct (existsb _ table_patterns); intros ?; simplify_eq; tauto.
Qed.

Lemma extract_table_from_length (ls : list text) :
  (length (_extract_table_from ls) ≤ length ls)%nat.
Proof.
  induction ls as [|l ls IH]; simpl; [done|].
  destruct ls as [|next ls']; [simpl; lia|].
  repeat case_match; simpl in *; lia.
Qed.

Lemma fenced_body_length (ls : list text) :
  (length (fenced_body ls) ≤ length ls)%nat.
Proof.
  induction ls as [|l ls IH]; simpl; [done|]. case_match; simpl; lia.
Qed.

Lemma indented_body_length (ls : list text) :
  (length (indented_body ls) ≤ length ls)%nat.
Proof.
  induction ls as [|l ls IH]; simpl; [done|]. case_match; simpl; lia.
Qed.

Lemma extract_paragraph_from_length (U : unicode_tables) (ls : list text) :
  (length (_extract_paragraph_from U ls) ≤ length ls)%nat.
Proof.
  induction ls as [|l ls IH]; simpl; [done|].
  repeat case_match; simpl; lia.
Qed.

Lemma extract_paragraph_length (U : unicode_tables) (lines : list text)
    (i : nat) :
  (i + length (_extract_paragraph U lines i) ≤ i `max` length lines)%nat.
Proof.
  unfold _extract_paragraph.
  pose proof (extract_paragraph_from_length U (drop i lines)) as H.
  rewrite length_drop in H. lia.
Qed.

Local Opaque heading_patterns list_patterns table_patterns code_patterns.

(** The lines an element consumes are its content lines and lie in the
    text. *)
Lemma identify_element_consumed (U : unicode_tables) (lines : list text)
    (i : nat) (fmt : string) ty lvl cl n :
  _identify_element U lines i fmt = Some (ty, lvl, cl, n) →
  (i + n ≤ length lines)%nat.
Proof.
  unfold _identify_element, _extract_table, _extract_code_block.
  destruct (lines !! i) as [raw|] eqn:Hi; [|done].
  pose proof (lookup_lt_Some _ _ _ Hi) as Hlt.
  pose proof (extract_table_from_length (drop i lines)) as Htab.
  pose proof (fenced_body_length (drop (S i) lines)) as Hfen.
  pose proof (indented_body_length (drop i lines)) as Hind.
  rewrite !length_drop in *.
  destruct (first_heading (default [] (heading_patterns U fmt)) (strip raw))
    as [[l|]|]; cbn [mbind option_bind];
    [intros ?; simplify_eq; lia|done|].
  destruct (first_heading (default [] (heading_patterns U "general"))
              (strip raw)) as [[l|]|]; cbn [mbind option_bind];
    [intros ?; simplify_eq; lia|done|].
  destruct (existsb _ (list_patterns U)); [intros ?; simplify_eq; lia|].
  destruct (existsb _ table_patterns); [intros ?; simplify_eq; lia|].
  destruct (existsb _ (code_patterns U)); [|intros ?; simplify_eq; lia].
  destruct (startswith fence (strip raw)); cbn [mbind option_bind];
    intros ?; simplify_eq; simpl; lia.
Qed.

Local Transparent heading_patterns list_patterns table_patterns
  code_patterns.

(** *** A proof rule for the loop of [_parse_elements] *)

Section ParseLoop.
Variable U : unicode_tables.
Variable lines : list text.
Variable fmt : string.
Variable P : nat → list DocumentElement → Prop.

Hypothesis P_blank : ∀ i acc raw,
  lines !! i = Some raw → strip raw = [] → P i acc → P (S i) acc.

Hypothesis P_element : ∀ i acc raw ty lvl cl n,
  lines !! i = Some raw → strip raw ≠ [] →
  _identify_element U lines i fmt = Some (ty, lvl, cl, S n) →
  ty ≠ UNKNOWN → P i acc →
  P (i + S n)%nat
    (acc ++ [mkElement (join_lines cl) ty lvl (Z.of_nat (length acc))
               {| line_start := Z.of_nat i;
                  line_end := Z.of_nat i + Z.of_nat (S n) - 1;
                  cleaned := false |}]).

Hypothesis P_paragraph : ∀ i acc raw lvl cl n l ls,
  lines !! i = Some raw → strip raw ≠ [] →
  _identify_element U lines i fmt = Some (UNKNOWN, lvl, cl, n) →
  _extract_paragraph U lines i = l :: ls → P i acc →
  P (i + S (length ls))%nat
    (acc ++ [mkElement (join_lines (l :: ls)) PARAGRAPH 0
               (Z.of_nat (length acc))
               {| line_start := Z.of_nat i;
                  line_end := Z.of_nat i + Z.of_nat (S (length ls)) - 1;
                  cleaned := false |}]).

(** What holds of the state at each iteration holds, for an index past
    the last line, of the list the loop returns. *)
Lemma parse_loop_rule (fuel i : nat) (pos : Z)
    (acc els : list DocumentElement) :
  pos = Z.of_nat (length acc) → P i acc →
  _parse_elements_loop U fuel lines fmt i pos acc = Some els →
  ∃ i', (length lines ≤ i')%nat ∧ P i' els.
Proof.
  revert i pos acc.
  induction fuel as [|fuel IH]; intros i pos acc -> HP; simpl; [done|].
  destruct (lines !! i) as [raw|] eqn:Hi.
  2:{ intros [= <-]. exists i. split; [by apply lookup_ge_None|done]. }
  case_bool_decide as Hraw; [apply IH; [done|by eapply P_blank]|].
  destruct (_identify_element U lines i fmt) as [[[[ty lvl] cl] n]|] eqn:Hid;
    simpl; [|done].
  case_bool_decide as Hty.
  - destruct n as [|n].
    + rewrite Nat.add_0_r.
      by rewrite (parse_loop_stuck_element U lines fmt i raw ty lvl cl).
    + apply IH; [rewrite length_app; simpl; lia|].
      by eapply P_element.
  - assert (ty = UNKNOWN) as -> by (by destruct (decide (ty = UNKNOWN))).
    destruct (_extract_paragraph U lines i) as [|l ls] eqn:Hpar.
    + simpl. rewrite Nat.add_0_r.
      by rewrite (parse_loop_stuck_paragraph U lines fmt i raw lvl cl n).
    + apply IH; [rewrite length_app; simpl; lia|].
      by eapply P_paragraph.
Qed.
End ParseLoop.

(** [_build_hierarchy] changes nothing but [parent_id]. *)
Lemma hier_step_core (st : hier_state) (e : DocumentElement) :
  element_core <$> hs_done (hier_step st e)
  = (element_core <$> hs_done st) ++ [element_core e].
Proof.
  unfold hier_step.
  destruct (pop_parents (hs_stack st) (level e)) as [|[pid l] rest];
    simpl; by rewrite fmap_app.
Qed.

Lemma hier_fold_core (els : list DocumentElement) (st : hier_state) :
  element_core <$> hs_done (foldl hier_step st els)
  = (element_core <$> hs_done st) ++ (element_core <$> els).
Proof.
  revert st. induction els as [|e els IH]; intros st; simpl.
  - by rewrite app_nil_r.
  - rewrite IH, hier_step_core, <- app_assoc. done.
Qed.

(** The elements of a parsed structure are, but for their parent, the
    elements [_parse_elements] returns. *)
Lemma parse_document_core (U : unicode_tables) (fuel : nat) (c : text)
    (ft : string) (S : DocumentStructure) :
  parse_document U fuel c ft = Some S →
  ∃ els0,
    (els0 = [] ∨ _parse_elements U fuel (split_lines c) (_detect_format c ft)
                 = Some els0)
    ∧ element_core <$> elements S = element_core <$> els0.
Proof.
  unfold parse_document. case_bool_decide.
  - intros [= <-]. exists []. split; [by left|done].
  - destruct (_parse_elements U fuel (split_lines c) (_detect_format c ft))
      as [els0|] eqn:Hels; simpl; [|done].
    intros [= <-]. exists els0. split; [by right|].
    simpl. by rewrite hier_fold_core.
Qed.

Lemma core_lookup (els els0 : list DocumentElement) (i : nat)
    (e : DocumentElement) :
  element_core <$> els = element_core <$> els0 → els !! i = Some e →
  ∃ e0, els0 !! i = Some e0 ∧ element_core e = element_core e0.
Proof.
  intros Hcore Hi.
  assert ((element_core <$> els0) !! i = Some (element_core e)) as H0
    by (by rewrite <- Hcore, list_lookup_fmap, Hi).
  rewrite list_lookup_fmap in H0.
  destruct (els0 !! i) as [e0|]; [|done].
  exists e0. split; [done|]. simpl in H0. congruence.
Qed.

Lemma parse_elements_kinds (U : unicode_tables) (fuel : nat)
    (lines : list text) (fmt : string) (els : list DocumentElement) :
  source_lines lines →
  _parse_elements U fuel lines fmt = Some els →
  Forall (λ e, parsed_kind (element_type e)) els.
Proof.
  intros Hsrc Hrun.
  destruct (parse_loop_rule U lines fmt
              (λ _ acc, Forall (λ e, parsed_kind (element_type e)) acc))
    with (fuel := fuel) (i := 0%nat) (pos := 0) (acc := @nil DocumentElement)
         (els := els) as (i' & _ & H); try done.
  - intros i acc raw ty lvl cl n _ _ Hid Hty Hacc.
    apply Forall_app. split; [done|]. apply Forall_singleton. simpl.
    destruct (identify_element_kind _ _ _ _ _ _ _ _ Hsrc Hid)
      as [?|[?|[?|?]]]; unfold parsed_kind; tauto.
  - intros i acc raw lvl cl n l ls _ _ _ _ Hacc.
    apply Forall_app. split; [done|]. apply Forall_singleton.
    unfold parsed_kind. simpl. tauto.
Qed.

Lemma parse_document_all_kinds (U : unicode_tables) (fuel : nat) (c : text)
    (ft : string) (S : DocumentStructure) :
  parse_document U fuel c ft = Some S →
  Forall (λ e, parsed_kind (element_type e)) (elements S).
Proof.
  intros (els0 & Hels0 & Hcore)%parse_document_core.
  apply Forall_lookup. intros i e Hi.
  destruct (core_lookup _ _ _ _ Hcore Hi) as (e0 & Hi0 & He0).
  assert (Forall (λ e, parsed_kind (element_type e)) els0) as Hkinds.
  { destruct Hels0 as [->|Hrun]; [constructor|].
    eapply parse_elements_kinds; [|done]. apply split_lines_no_LF. }
  rewrite Forall_forall in Hkinds.
  assert (element_type e = element_type e0) as Hty
    by (unfold element_core in He0; congruence).
  rewrite Hty. apply Hkinds. by eapply list_elem_of_lookup_2.
Qed.

Lemma parse_document_kind_of (U : unicode_tables) (fuel : nat) (c : text)
    (ft : string) (S : DocumentStructure) (e : DocumentElement) :
  parse_document U fuel c ft = Some S → e ∈ elements S →
  parsed_kind (element_type e).
Proof.
  intros Hall%parse_document_all_kinds He.
  rewrite Forall_forall in Hall. by apply Hall.
Qed.

(** [parse_document] returns headings, paragraphs, list items and
    tables only: never a code block, a title, a quote or an element of
    another kind. *)
Theorem parse_document_kinds (U : unicode_tables) (fuel : nat) (c : text)
    (ft : string) (S : DocumentStructure) (e : DocumentElement) :
  parse_document U fuel c ft = Some S → e ∈ elements S →
  parsed_kind (element_type e).
Proof. apply parse_document_kind_of. Qed.

Lemma parse_document_kinds_witness :
  ∃ S e,
    parse_document ascii_tables 2 fenced_input "unknown" = Some S
    ∧ e ∈ elements S ∧ parsed_kind (element_type e).
Proof.
  eexists _, _.
  assert (∀ P Q T : Prop, P → Q → (P → Q → T) → P ∧ Q ∧ T) as Hand by tauto.
  apply Hand.
  - vm_compute. reflexivity.
  - simpl. apply list_elem_of_here.
  - apply (parse_document_kinds ascii_tables 2 fenced_input "unknown").
Defined.

(** The elements of a parsed structure are numbered from 0 in the
    order of the list. *)
Theorem parse_document_positions (U : unicode_tables) (fuel : nat)
    (c : text) (ft : string) (S : DocumentStructure) (i : nat)
    (e : DocumentElement) :
  parse_document U fuel c ft = Some S → elements S !! i = Some e →
  position e = Z.of_nat i.
Proof.
  intros (st & Hinv & Hels & _)%parse_document_hier Hi.
  rewrite Hels in Hi. by destruct (hi_pos _ Hinv _ _ Hi).
Qed.

Lemma parse_document_positions_witness :
  ∃ S e,
    parse_document ascii_tables 4 nested_headings "unknown" = Some S
    ∧ elements S !! 2%nat = Some e ∧ position e = 2.
Proof.
  eexists _, _.
  assert (∀ P Q T : Prop, P → Q → (P → Q → T) → P ∧ Q ∧ T) as Hand by tauto.
  apply Hand.
  - vm_compute. reflexivity.
  - reflexivity.
  - apply (parse_document_positions ascii_tables 4 nested_headings "unknown").
Defined.

Lemma parse_elements_spans (U : unicode_tables) (fuel : nat)
    (lines : list text) (fmt : string) (els : list DocumentElement) :
  _parse_elements U fuel lines fmt = Some els →
  Forall (span_below (Z.of_nat (length lines))) els ∧ spans_ordered els.
Proof.
  intros Hrun.
  assert (∀ i n acc e, (i + S n ≤ length lines)%nat →
            Forall (span_below (Z.of_nat i)) acc ∧ spans_ordered acc →
            line_start (metadata e) = Z.of_nat i →
            line_end (metadata e) = Z.of_nat i + Z.of_nat (S n) - 1 →
            (i + S n ≤ length lines)%nat
            ∧ Forall (span_below (Z.of_nat (i + S n))) (acc ++ [e])
            ∧ spans_ordered (acc ++ [e])) as Hstep.
  { intros i n acc e Hle [Hacc Hord] Hs He. split; [done|]. split.
    - apply Forall_app. split.
      + eapply Forall_impl; [exact Hacc|]. unfold span_below. intros; lia.
      + apply Forall_singleton. unfold span_below. lia.
    - intros a b e1 e2 Ha Hb Hab.
      apply lookup_app_Some in Hb as [Hb|[Hlen Hb]].
      + apply lookup_app_Some in Ha as [Ha|[Hlen' _]];
          [by eapply Hord|apply lookup_lt_Some in Hb; lia].
      + apply list_lookup_singleton_Some in Hb as [Hb0 <-].
        apply lookup_app_Some in Ha as [Ha|[Hlen' _]]; [|lia].
        rewrite Forall_forall in Hacc.
        destruct (Hacc e1) as [_ ?]; [by eapply list_elem_of_lookup_2|].
        lia. }
  destruct (parse_loop_rule U lines fmt
              (λ i acc, (i ≤ length lines)%nat
                        ∧ Forall (span_below (Z.of_nat i)) acc
                        ∧ spans_ordered acc))
    with (fuel := fuel) (i := 0%nat) (pos := 0) (acc := @nil DocumentElement)
         (els := els) as (i' & Hi' & Hle & Hall & Hord); try done.
  - intros i acc raw Hi _ (Hle & Hacc & Hord).
    apply lookup_lt_Some in Hi. split; [lia|]. split; [|done].
    eapply Forall_impl; [exact Hacc|]. unfold span_below. intros; lia.
  - intros i acc raw ty lvl cl n Hi _ Hid _ (Hle & Hacc).
    apply identify_element_consumed in Hid. by apply Hstep.
  - intros i acc raw lvl cl n l ls Hi _ _ Hpar (Hle & Hacc).
    pose proof (extract_paragraph_length U lines i) as Hlen.
    rewrite Hpar in Hlen. simpl in Hlen. apply lookup_lt_Some in Hi.
    apply Hstep; [lia|done..].
  - split; [lia|]. split; [constructor|]. intros a b e1 e2 Ha. done.
  - split; [|done]. by replace (length lines) with i' by lia.
Qed.

(** The line ranges of the elements of a parsed structure lie in the
    text, are not empty and follow each other without overlap. *)
Theorem parse_document_spans (U : unicode_tables) (fuel : nat) (c : text)
    (ft : string) (S : DocumentStructure) :
  parse_document U fuel c ft = Some S →
  Forall (span_below (Z.of_nat (length (split_lines c)))) (elements S)
  ∧ spans_ordered (elements S).
Proof.
  intros (els0 & Hels0 & Hcore)%parse_document_core.
  assert (Forall (span_below (Z.of_nat (length (split_lines c)))) els0
          ∧ spans_ordered els0) as [Hall Hord].
  { destruct Hels0 as [->|Hrun]; [|by eapply parse_elements_spans].
    split; [constructor|]. intros a b e1 e2 Ha. done. }
  split.
  - apply Forall_lookup. intros i e Hi.
    destruct (core_lookup _ _ _ _ Hcore Hi) as (e0 & Hi0 & He0).
    rewrite Forall_lookup in Hall. specialize (Hall _ _ Hi0).
    assert (metadata e = metadata e0) as Hmd
      by (unfold element_core in He0; congruence).
    unfold span_below in *. by rewrite Hmd.
  - intros i j e1 e2 Hi Hj Hij.
    destruct (core_lookup _ _ _ _ Hcore Hi) as (e1' & Hi' & He1).
    destruct (core_lookup _ _ _ _ Hcore Hj) as (e2' & Hj' & He2).
    specialize (Hord _ _ _ _ Hi' Hj' Hij).
    assert (metadata e1 = metadata e1') as ->
      by (unfold element_core in He1; congruence).
    assert (metadata e2 = metadata e2') as ->
      by (unfold element_core in He2; congruence).
    done.
Qed.

Lemma parse_document_spans_witness :
  ∃ S,
    parse_document ascii_tables 4 nested_headings "unknown" = Some S
    ∧ Forall (span_below (Z.of_nat (length (split_lines nested_headings))))
        (elements S)
    ∧ spans_ordered (elements S).
Proof.
  eexists.
  assert (∀ P T : Prop, P → (P → T) → P ∧ T) as Hand by tauto.
  apply Hand.
  - vm_compute. reflexivity.
  - apply (parse_document_spans ascii_tables 4 nested_headings "unknown").
Defined.

(** ** The parser: blank input *)

Lemma all_blank_lines_blank (content : text) :
  (∀ raw, raw ∈ split_lines content → strip raw = []) → strip content = [].
Proof.
  intros Hblank. apply strip_nil_iff.
  rewrite <- (join_split_lines content).
  apply join_lines_Forall; [done|].
  apply Forall_forall. intros raw Hraw. by apply strip_nil_iff, Hblank.
Qed.

Lemma parse_elements_nonblank (U : unicode_tables) (fuel : nat)
    (lines : list text) (fmt : string) :
  _parse_elements U fuel lines fmt = Some [] →
  ∀ raw, raw ∈ lines → strip raw = [].
Proof.
  intros Hrun.
  destruct (parse_loop_rule U lines fmt
              (λ i acc, acc ≠ []
                        ∨ ∀ j raw, (j < i)%nat → lines !! j = Some raw →
                                   strip raw = []))
    with (fuel := fuel) (i := 0%nat) (pos := 0) (acc := @nil DocumentElement)
         (els := @nil DocumentElement) as (i' & Hi' & [?|Hblank]);
    try done.
  - intros i acc raw Hi Hraw [?|Hbl]; [by left|]. right.
    intros j raw' Hj Hj'. destruct (decide (j = i)) as [->|?].
    + congruence.
    + eapply Hbl; [|done]. lia.
  - intros. left. by destruct acc.
  - intros. left. by destruct acc.
  - right. intros j raw Hj. lia.
  - intros raw [j Hj]%list_elem_of_lookup. eapply Hblank; [|done].
    apply lookup_lt_Some in Hj. lia.
Qed.

(** [parse_document] returns the empty structure on an empty or blank
    text, whatever the fuel, and a structure without element on no
    other text. *)
Theorem parse_document_blank (U : unicode_tables) (fuel : nat)
    (content : text) (ft : string) :
  (strip content = [] →
   parse_document U fuel content ft = Some empty_structure)
  ∧ (∀ S, parse_document U fuel content ft = Some S → elements S = [] →
          strip content = []).
Proof.
  split.
  - intros Hblank. unfold parse_document.
    rewrite bool_decide_true; [done|by right].
  - intros S Hrun Hnil.
    destruct (parse_document_core _ _ _ _ _ Hrun) as (els0 & Hels0 & Hcore).
    rewrite Hnil in Hcore. symmetry in Hcore.
    apply fmap_nil_inv in Hcore as ->.
    unfold parse_document in Hrun. case_bool_decide as Hb.
    + destruct Hb as [->|?]; done.
    + destruct Hels0 as [_|Hels0].
      * destruct (_parse_elements U fuel _ _) as [els1|] eqn:Hels1;
          [|done].
        simpl in Hrun. injection Hrun as <-. simpl in Hnil.
        assert (element_core <$> els1 = []) as Hc.
        { rewrite <- (hier_fold_core els1
                       {| hs_done := []; hs_hierarchy := ∅; hs_stack := [] |}).
          by rewrite Hnil. }
        apply fmap_nil_inv in Hc as ->.
        apply all_blank_lines_blank.
        by eapply parse_elements_nonblank.
      * apply all_blank_lines_blank.
        by eapply parse_elements_nonblank.
Qed.

(** ** The parser: table of contents *)

Lemma filter_positions_sorted (P : DocumentElement → Prop)
    `{∀ e, Decision (P e)} (els : list DocumentElement) (base : nat) :
  (∀ i e, els !! i = Some e → position e = Z.of_nat (base + i)) →
  StronglySorted Z.lt (position <$> filter P els)
  ∧ Forall (λ p, Z.of_nat base ≤ p) (position <$> filter P els).
Proof.
  revert base. induction els as [|e els IH]; intros base Hpos.
  - split; constructor.
  - destruct (IH (S base)) as [Hs Hb].
    { intros i e' Hi. rewrite (Hpos (S i) e' Hi). f_equal. lia. }
    pose proof (Hpos 0%nat e eq_refl) as He. rewrite Nat.add_0_r in He.
    rewrite filter_cons. case_decide; simpl.
    + split.
      * constructor; [done|].
        eapply Forall_impl; [exact Hb|]. simpl. intros; lia.
      * constructor; [lia|].
        eapply Forall_impl; [exact Hb|]. simpl. intros; lia.
    + split; [done|].
      eapply Forall_impl; [exact Hb|]. simpl. intros; lia.
Qed.

Lemma parse_document_toc (U : unicode_tables) (fuel : nat) (c : text)
    (ft : string) (S : DocumentStructure) :
  parse_document U fuel c ft = Some S →
  table_of_contents S = _generate_table_of_contents (elements S).
Proof.
  unfold parse_document. case_bool_decide; [by intros [= <-]|].
  destruct (_parse_elements U fuel _ _) as [els0|]; simpl; [|done].
  by intros [= <-].
Qed.

(** The table of contents of a parsed structure is the list of its
    headings, in document order: the positions of the entries
    increase, every entry names a heading of the structure with its
    content, level and position, and every heading has its entry. *)
Theorem toc_lists_the_headings (U : unicode_tables) (fuel : nat) (c : text)
    (ft : string) (S : DocumentStructure) :
  parse_document U fuel c ft = Some S →
  StronglySorted Z.lt (toc_position <$> table_of_contents S)
  ∧ (∀ t, t ∈ table_of_contents S →
       ∃ e, get_element_by_id S (toc_element_id t) = Some e
            ∧ element_type e = HEADING
            ∧ content e = toc_title t ∧ level e = toc_level t
            ∧ position e = toc_position t)
  ∧ (∀ e, e ∈ elements S → element_type e = HEADING →
       ∃ t, t ∈ table_of_contents S
            ∧ toc_element_id t = element_id_of (position e)).
Proof.
  intros Hrun. pose proof (parse_document_toc _ _ _ _ _ Hrun) as Htoc.
  destruct (parse_document_hier _ _ _ _ _ Hrun) as (st & Hinv & Hels & _).
  rewrite Htoc. unfold _generate_table_of_contents. split; [|split].
  - rewrite <- list_fmap_compose.
    destruct (filter_positions_sorted
                (λ e, is_heading_type (element_type e) = true)
                (elements S) 0) as [Hs _]; [|done].
    intros i e Hi. rewrite Hels in Hi. by destruct (hi_pos _ Hinv _ _ Hi).
  - intros t (e & -> & [Hty He]%list_elem_of_filter)%list_elem_of_fmap.
    exists e. simpl. split; [|split; [|done]].
    + unfold get_element_by_id. apply head_filter_unique; [done..|].
      intros q Hq Hid. rewrite Hels in *. by eapply hier_inv_unique.
    + pose proof (parse_document_kind_of _ _ _ _ _ _ Hrun He) as Hk.
      apply bool_decide_eq_true in Hty.
      destruct Hk as [?|[Hk|[Hk|Hk]]]; [done|..];
        rewrite Hk in Hty; by destruct Hty.
  - intros e He Hty. eexists. split.
    + apply list_elem_of_fmap. exists e. split; [done|].
      apply list_elem_of_filter. split; [|done].
      apply bool_decide_eq_true. by right.
    + done.
Qed.

Lemma toc_lists_the_headings_witness :
  ∃ S,
    parse_document ascii_tables 4 nested_headings "unknown" = Some S
    ∧ StronglySorted Z.lt (toc_position <$> table_of_contents S)
    ∧ length (table_of_contents S) = 2%nat.
Proof.
  eexists.
  assert (∀ P Q T : Prop, P → (P → Q) → T → P ∧ Q ∧ T) as Hand by tauto.
  apply Hand.
  - vm_compute. reflexivity.
  - intros Hrun.
    exact (proj1 (toc_lists_the_headings ascii_tables 4 nested_headings
                    "unknown" _ Hrun)).
  - reflexivity.
Defined.

(** ** The parser: parent ids and the hierarchy dict *)

Lemma hier_step_links (st : hier_state) (e : DocumentElement) :
  hier_links st → parent_id e = None → hier_links (hier_step st e).
Proof.
  intros [Hchild Hstack Hparent] Hnone. unfold hier_step.
  destruct (pop_parents (hs_stack st) (level e)) as [|[pid l] rest] eqn:Hpop.
  - split; simpl.
    + intros e' pid' [Hin| ->%list_elem_of_singleton]%elem_of_app Hpar;
        [by eapply Hchild|congruence].
    + intros id l Hin.
      destruct (is_heading_type (element_type e)) eqn:Hty;
        [|by apply elem_of_nil in Hin].
      apply list_elem_of_singleton in Hin as [= -> -> ].
      exists (length (hs_done st)), e. split; [|done].
      by rewrite lookup_app_r, Nat.sub_diag.
    + intros j e' pid' Hj Hpar.
      apply lookup_app_Some in Hj as [Hj|[Hlen Hj]].
      * destruct (Hparent _ _ _ Hj Hpar) as (i & p & ? & ? & ?).
        exists i, p. split; [done|]. split; [|done].
        by apply lookup_app_l_Some.
      * apply list_lookup_singleton_Some in Hj as [_ <-]. congruence.
  - assert ((pid, l) ∈ hs_stack st) as Hin_stack.
    { eapply pop_parents_subset. rewrite Hpop. by left. }
    destruct (Hstack _ _ Hin_stack) as (ip & p & Hip & -> & Hp).
    split; simpl.
    + intros e' pid' [Hin| ->%list_elem_of_singleton]%elem_of_app Hpar.
      * destruct (Hchild _ _ Hin Hpar) as (cs & Hcs & Hid).
        destruct (decide (element_id_of (position p) = pid')) as [<-|Hne].
        -- rewrite lookup_insert_eq, Hcs. eexists. split; [done|].
           simpl. apply elem_of_app. by left.
        -- rewrite lookup_insert_ne by done. eauto.
      * simpl in Hpar. injection Hpar as <-.
        rewrite lookup_insert_eq. eexists. split; [done|].
        apply elem_of_app. right. by left.
    + intros id l' Hin.
      assert ((id, l') ∈ (element_id_of (position p), l) :: rest
              ∨ (is_heading_type (element_type e) = true
                 ∧ id = element_id_of (position e)))
        as [Hold|(Hty & ->)].
      { destruct (is_heading_type (element_type e)); [|by left].
        apply elem_of_cons in Hin as [[= -> ->]|Hin]; [by right|by left]. }
      * rewrite <- Hpop in Hold. apply pop_parents_subset in Hold.
        destruct (Hstack _ _ Hold) as (i & q & ? & ? & ?).
        exists i, q. split; [by apply lookup_app_l_Some|done].
      * exists (length (hs_done st)), (set_parent_id e (element_id_of
                                                          (position p))).
        split; [|done]. by rewrite lookup_app_r, Nat.sub_diag.
    + intros j e' pid' Hj Hpar.
      apply lookup_app_Some in Hj as [Hj|[Hlen Hj]].
      * destruct (Hparent _ _ _ Hj Hpar) as (i & q & ? & ? & ?).
        exists i, q. split; [done|]. split; [|done].
        by apply lookup_app_l_Some.
      * apply list_lookup_singleton_Some in Hj as [Hj0 <-].
        simpl in Hpar. injection Hpar as <-.
        exists ip, p. pose proof (lookup_lt_Some _ _ _ Hip).
        split; [lia|]. split; [by apply lookup_app_l_Some|done].
Qed.

Lemma hier_fold_links (els : list DocumentElement) (st : hier_state) :
  hier_links st → Forall (λ e, parent_id e = None) els →
  hier_links (foldl hier_step st els).
Proof.
  revert st. induction els as [|e els IH]; intros st Hst Hels; simpl;
    [done|].
  apply Forall_cons in Hels as [He Hels].
  apply IH; [by apply hier_step_links|done].
Qed.

Lemma parse_document_links (U : unicode_tables) (fuel : nat) (c : text)
    (ft : string) (S : DocumentStructure) :
  parse_document U fuel c ft = Some S →
  ∃ st, hier_inv st ∧ hier_links st ∧ elements S = hs_done st
        ∧ hierarchy S = hs_hierarchy st.
Proof.
  assert (hier_links {| hs_done := []; hs_hierarchy := ∅; hs_stack := [] |})
    as Hinit.
  { split; simpl.
    - intros e pid Hin. by apply elem_of_nil in Hin.
    - intros id l Hin. by apply elem_of_nil in Hin.
    - intros j e pid Hj. by rewrite lookup_nil in Hj. }
  unfold parse_document. case_bool_decide.
  - intros [= <-].
    exists {| hs_done := []; hs_hierarchy := ∅; hs_stack := [] |}.
    split; [by apply (build_hierarchy_inv [])|done].
  - destruct (_parse_elements U fuel (split_lines c) (_detect_format c ft))
      as [els0|] eqn:Hels; simpl; [|done].
    pose proof (parse_elements_shape _ _ _ _ _ Hels) as Hshape.
    intros [= <-]. eexists. split; [by apply build_hierarchy_inv|].
    split; [|done]. apply hier_fold_links; [done|].
    apply Forall_lookup. intros i e Hi. by destruct (Hshape i e Hi) as (_ & ? & _).
Qed.

(** In a parsed structure the parent ids and the hierarchy dict say the
    same: an element has the parent [pid] exactly when its id is among
    the children of [pid]; and the parent is a heading that comes
    earlier in the document. *)
Theorem hierarchy_agrees_with_parents (U : unicode_tables) (fuel : nat)
    (c : text) (ft : string) (S : DocumentStructure) (j : nat)
    (e : DocumentElement) (pid : string) :
  parse_document U fuel c ft = Some S → elements S !! j = Some e →
  (parent_id e = Some pid ↔
   ∃ cs, hierarchy S !! pid = Some cs ∧ element_id_of (position e) ∈ cs)
  ∧ (parent_id e = Some pid →
     ∃ i p, (i < j)%nat ∧ elements S !! i = Some p
            ∧ get_element_by_id S pid = Some p
            ∧ element_type p = HEADING).
Proof.
  intros Hrun Hj.
  destruct (parse_document_links _ _ _ _ _ Hrun)
    as (st & Hinv & Hlinks & Hels & Hh).
  assert (e ∈ hs_done st) as He
    by (rewrite <- Hels; by eapply list_elem_of_lookup_2).
  split; [split|].
  - intros Hpar. rewrite Hh. by eapply hl_child.
  - intros (cs & Hcs & Hin). rewrite Hh in Hcs.
    destruct (hi_children _ Hinv _ _ _ Hcs Hin) as (e' & He' & Hid & Hpar).
    assert (e' = e) as -> by (eapply hier_inv_unique; eauto). done.
  - intros Hpar. rewrite Hels in Hj.
    destruct (hl_parent _ Hlinks _ _ _ Hj Hpar) as (i & p & Hij & Hi & Hid & Hp).
    exists i, p. rewrite Hels. split; [done|]. split; [done|].
    assert (p ∈ elements S) as Hp_in
      by (rewrite Hels; by eapply list_elem_of_lookup_2).
    split.
    + unfold get_element_by_id. apply head_filter_unique; [done..|].
      intros q Hq Hqid. rewrite Hels in *.
      eapply hier_inv_unique; eauto. congruence.
    + pose proof (parse_document_kind_of _ _ _ _ _ _ Hrun Hp_in) as Hk.
      apply bool_decide_eq_true in Hp.
      destruct Hk as [?|[Hk|[Hk|Hk]]]; [done|..];
        rewrite Hk in Hp; by destruct Hp.
Qed.

Lemma hierarchy_agrees_with_parents_witness :
  ∃ S e,
    parse_document ascii_tables 4 nested_headings "unknown" = Some S
    ∧ elements S !! 1%nat = Some e
    ∧ (parent_id e = Some "element_0" ↔
       ∃ cs, hierarchy S !! "element_0" = Some cs
             ∧ element_id_of (position e) ∈ cs).
Proof.
  eexists _, _.
  assert (∀ P Q T : Prop, P → Q → (P → Q → T) → P ∧ Q ∧ T) as Hand by tauto.
  apply Hand.
  - vm_compute. reflexivity.
  - reflexivity.
  - intros Hrun Hj.
    exact (proj1 (hierarchy_agrees_with_parents ascii_tables 4
                    nested_headings "unknown" _ 1 _ "element_0" Hrun Hj)).
Defined.

(** ** The parser: document metadata *)

Lemma counts_total_count_up {K} `{EqDecision K} (k : K)
    (d : list (K * Z)) :
  counts_total (count_up k d) = counts_total d + 1.
Proof.
  induction d as [|[k' n] d IH]; simpl; [done|].
  case_bool_decide; simpl; [lia|]. unfold counts_total in *. simpl.
  rewrite IH. lia.
Qed.

Lemma count_up_positive {K} `{EqDecision K} (k : K) (d : list (K * Z)) :
  Forall (λ kv, 1 ≤ kv.2) d → Forall (λ kv, 1 ≤ kv.2) (count_up k d).
Proof.
  induction 1 as [|[k' n] d Hn Hd IH]; simpl.
  - by repeat constructor.
  - case_bool_decide; constructor; simpl in *; try done. lia.
Qed.

Lemma histogram_total (els : list DocumentElement) (d : list (ContentType * Z)) :
  counts_total (foldl (λ d e, count_up (element_type e) d) d els)
  = counts_total d + Z.of_nat (length els)
  ∧ (Forall (λ kv, 1 ≤ kv.2) d →
     Forall (λ kv, 1 ≤ kv.2)
       (foldl (λ d e, count_up (element_type e) d) d els)).
Proof.
  revert d. induction els as [|e els IH]; intros d; simpl.
  - split; [lia|done].
  - destruct (IH (count_up (element_type e) d)) as [Ht Hp].
    rewrite counts_total_count_up in Ht. split; [lia|].
    intros Hd. by apply Hp, count_up_positive.
Qed.

(** The metadata of a parsed, non-blank document: the element count is
    the number of elements, the counts per kind are positive and add
    up to it, the character and line counts are those of the text, and
    the title, when there is one, is the content of a level-1 heading
    of the structure. *)
Theorem parsed_metadata (U : unicode_tables) (fuel : nat) (c : text)
    (ft : string) (S : DocumentStructure) :
  parse_document U fuel c ft = Some S → strip c ≠ [] →
  ∃ m, doc_metadata S = Some m
       ∧ total_elements m = Z.of_nat (length (elements S))
       ∧ counts_total (element_types m) = total_elements m
       ∧ Forall (λ kv, 1 ≤ kv.2) (element_types m)
       ∧ char_count m = len c
       ∧ line_count m = Z.of_nat (length (split_lines c))
       ∧ (∀ t, title m = Some t →
            ∃ e, e ∈ elements S ∧ element_type e = HEADING
                 ∧ level e = 1 ∧ content e = t).
Proof.
  intros Hrun Hc.
  pose proof (parse_document_all_kinds U fuel c ft S Hrun) as Hkinds.
  rewrite Forall_forall in Hkinds.
  revert Hrun Hkinds. unfold parse_document.
  rewrite bool_decide_false
    by (intros [->|?]; [by apply Hc|done]).
  destruct (_parse_elements U fuel _ _) as [els0|]; simpl; [|done].
  intros [= <-] Hkinds. simpl in *. eexists. split; [done|]. simpl.
  destruct (histogram_total
              (hs_done (foldl hier_step
                 {| hs_done := []; hs_hierarchy := ∅; hs_stack := [] |} els0))
              []) as [Ht Hp].
  split; [done|]. split; [by rewrite Ht|]. split; [by apply Hp|].
  split; [done|]. split; [done|].
  intros t Ht'. apply fmap_Some in Ht' as (e & He & ->).
  apply head_Some_elem_of, list_elem_of_filter in He as [[Hty Hl] He].
  exists e. split; [done|]. split; [|done].
  specialize (Hkinds e He). apply bool_decide_eq_true in Hty.
  destruct Hkinds as [?|[Hk|[Hk|Hk]]]; [done|..];
    rewrite Hk in Hty; by destruct Hty.
Qed.

Lemma parsed_metadata_witness :
  ∃ S m,
    parse_document ascii_tables 4 scenario_A "unknown" = Some S
    ∧ strip scenario_A ≠ []
    ∧ doc_metadata S = Some m
    ∧ title m = Some (txt "Some paragraph text here.").
Proof.
  eexists _, _.
  assert (∀ P Q T V : Prop, P → Q → (P → Q → T ∧ V) → P ∧ Q ∧ T ∧ V)
    as Hand by tauto.
  apply Hand.
  - vm_compute. reflexivity.
  - vm_compute. discriminate.
  - intros Hrun Hne.
    destruct (parsed_metadata ascii_tables 4 scenario_A "unknown" _ Hrun Hne)
      as (m & Hm & _).
    split; [reflexivity|]. vm_compute. reflexivity.
Defined.

(** * More of the parser and of the normalizer *)

(** ** Looking an element up by its id *)

(** [get_element_by_id] with the id of position [i] returns the [i]-th
    element of a parsed structure, and [None] past the end. *)
Theorem get_element_by_id_index (U : unicode_tables) (fuel : nat)
    (c : text) (ft : string) (S : DocumentStructure) (i : nat) :
  parse_document U fuel c ft = Some S →
  get_element_by_id S (element_id_of (Z.of_nat i)) = elements S !! i.
Proof.
  intros (st & Hinv & Hels & _)%parse_document_hier.
  unfold get_element_by_id. rewrite Hels.
  destruct (hs_done st !! i) as [e|] eqn:Hi.
  - destruct (hi_pos _ Hinv _ _ Hi) as [Hpos _].
    apply head_filter_unique.
    + by eapply list_elem_of_lookup_2.
    + by rewrite Hpos.
    + intros q Hq Hid. eapply hier_inv_unique; try done.
      * by eapply list_elem_of_lookup_2.
      * by rewrite Hid, Hpos.
  - destruct (filter _ (hs_done st)) as [|q l] eqn:Hf; [done|].
    assert (q ∈ filter (λ e, element_id_of (position e)
                              = element_id_of (Z.of_nat i)) (hs_done st))
      as Hq by (rewrite Hf; by left).
    apply list_elem_of_filter in Hq as [Hid%element_id_of_inj Hq].
    apply list_elem_of_lookup in Hq as [j Hj].
    destruct (hi_pos _ Hinv _ _ Hj) as [Hpos _].
    assert (j = i) as -> by lia. congruence.
Qed.

Lemma get_element_by_id_index_witness :
  ∃ S,
    parse_document ascii_tables 4 nested_headings "unknown" = Some S
    ∧ get_element_by_id S (element_id_of (Z.of_nat 1)) = elements S !! 1%nat.
Proof.
  eexists.
  assert (∀ P Q : Prop, P → (P → Q) → P ∧ Q) as Hand by tauto.
  apply Hand.
  - vm_compute. reflexivity.
  - apply (get_element_by_id_index ascii_tables 4 nested_headings "unknown").
Defined.

(** ** The statistics of a run *)

Ltac grow := unfold stats_grow in *; simpl in *; intuition (congruence || lia).

Lemma stats_grow_refl (st : CleaningStats) : stats_grow 0 0 st st.
Proof. grow. Qed.

Lemma stats_grow_trans (a b c d : Z) (s1 s2 s3 : CleaningStats) :
  stats_grow a b s1 s2 → stats_grow c d s2 s3 →
  stats_grow (a + c) (b + d) s1 s3.
Proof. grow. Qed.

Lemma remove_hf_lines_grow (U : unicode_tables) (ls : list text)
    (st : CleaningStats) :
  stats_grow 0 0 st (remove_hf_lines U ls st).2.
Proof.
  revert st. induction ls as [|l ls IH]; intros st; simpl; [grow|].
  destruct (is_header_line U (strip l)).
  { specialize (IH (add_headers_removed 1 st)). grow. }
  destruct (is_footer_line U (strip l)).
  { specialize (IH (add_footers_removed 1 st)). grow. }
  specialize (IH st). by destruct (remove_hf_lines U ls st).
Qed.

Lemma fix_lines_grow (U : unicode_tables) (ls : list text)
    (st : CleaningStats) :
  stats_grow 0 0 st (fix_lines U ls st).2.
Proof.
  revert st. induction ls as [|l ls IH]; intros st; simpl; [grow|].
  destruct (match ls with
            | [] => false
            | next :: _ => ends_lower U (strip l)
                           && starts_lower U (strip next)
            end).
  - specialize (IH (add_line_breaks_fixed 1 st)).
    destruct (fix_lines U ls (add_line_breaks_fixed 1 st)). grow.
  - specialize (IH st). by destruct (fix_lines U ls st).
Qed.

Lemma normalize_unicode_grow (U : unicode_tables) (c : text)
    (st : CleaningStats) :
  stats_grow 1 0 st (_normalize_unicode U c st).2.
Proof. unfold _normalize_unicode. simpl. case_bool_decide; grow. Qed.

Lemma remove_invisible_grow (c : text) (st : CleaningStats) :
  stats_grow 0 0 st (_remove_invisible_characters c st).2.
Proof.
  unfold _remove_invisible_characters. simpl. case_bool_decide; grow.
Qed.

Lemma standardize_whitespace_grow (c : text) (st : CleaningStats) :
  stats_grow 0 1 st (_standardize_whitespace c st).2.
Proof. unfold _standardize_whitespace. simpl. case_bool_decide; grow. Qed.

Lemma clean_element_grow (U : unicode_tables) (lvl : CleaningLevel)
    (e : DocumentElement) (st : CleaningStats) :
  stats_grow 1 1 st (_clean_element U lvl e st).2.
Proof.
  unfold _clean_element. case_bool_decide; [grow|].
  destruct (if bool_decide (lvl = STANDARD ∨ lvl = AGGRESSIVE)
            then _remove_headers_footers U (content e) st
            else (content e, st)) as [c1 st1] eqn:H1.
  assert (stats_grow 0 0 st st1) as Hst1.
  { case_bool_decide; [|injection H1 as _ <-; apply stats_grow_refl].
    unfold _remove_headers_footers in H1.
    pose proof (remove_hf_lines_grow U (split_lines (content e)) st) as Hhf.
    destruct (remove_hf_lines U (split_lines (content e)) st).
    by injection H1 as _ <-. }
  pose proof (normalize_unicode_grow U c1 st1) as H2.
  destruct (_normalize_unicode U c1 st1) as [c2 st2]. cbn [snd] in H2.
  pose proof (remove_invisible_grow c2 st2) as H3.
  destruct (_remove_invisible_characters c2 st2) as [c3 st3]. cbn [snd] in H3.
  assert (stats_grow 0 0 st3 (_fix_line_breaks U c3 st3).2) as H4.
  { unfold _fix_line_breaks.
    pose proof (fix_lines_grow U
      (split_lines (str_replace [CR] [LF] (str_replace [CR; LF] [LF] c3)))
      st3) as Hfl.
    by destruct (fix_lines U _ st3). }
  destruct (_fix_line_breaks U c3 st3) as [c4 st4]. cbn [snd] in H4.
  pose proof (standardize_whitespace_grow c4 st4) as H5.
  destruct (_standardize_whitespace c4 st4) as [c5 st5]. cbn [snd] in H5.
  destruct (if bool_decide (lvl = AGGRESSIVE)
            then _remove_redundant_content U c5 st5
            else (c5, st5)) as [c6 st6] eqn:H6.
  assert (st6 = st5) as -> by (case_bool_decide; by injection H6 as _ <-).
  cbn [snd]. clear H1 H6. grow.
Qed.

Lemma norm_fold_grow (U : unicode_tables) (detect : text → option string)
    (lvl : CleaningLevel) (els : list DocumentElement) (st : norm_state) :
  stats_grow (Z.of_nat (length els)) (Z.of_nat (length els)) (ns_stats st)
    (ns_stats (foldl (norm_step U detect lvl) st els)).
Proof.
  revert st. induction els as [|e els IH]; intros st; [grow|].
  cbn [foldl length].
  specialize (IH (norm_step U detect lvl st e)).
  rewrite norm_step_stats in IH.
  pose proof (clean_element_grow U lvl e (ns_stats st)) as He.
  replace (Z.of_nat (S (length els))) with (1 + Z.of_nat (length els)) by lia.
  by eapply stats_grow_trans.
Qed.

(** The statistics [normalize_document] returns: the two totals are
    the characters of the source elements and of the cleaned elements,
    the language is the detected one, no counter is negative, and
    [unicode_fixed] and [whitespace_normalized] count at most one per
    processed element. *)
Theorem normalize_document_stats (U : unicode_tables)
    (detect : text → option string) (lvl : CleaningLevel)
    (S : DocumentStructure) :
  let doc := normalize_document U detect lvl S in
  let stats := cleaning_stats doc in
  original_chars stats = total_chars (elements S)
  ∧ cleaned_chars stats = total_chars (cleaned_elements doc)
  ∧ language_detected stats = detected_language doc
  ∧ 0 ≤ headers_removed stats
  ∧ 0 ≤ footers_removed stats
  ∧ 0 ≤ line_breaks_fixed stats
  ∧ 0 ≤ invisible_chars_removed stats
  ∧ 0 ≤ unicode_fixed stats ≤ elements_processed (norm_metadata doc)
  ∧ 0 ≤ whitespace_normalized stats ≤ elements_processed (norm_metadata doc).
Proof.
  intros doc stats.
  pose proof (norm_fold_grow U detect lvl (elements S)
    {| ns_stats := set_original_chars (total_chars (elements S)) new_stats;
       ns_cleaned := []; ns_languages := []; ns_calls := [] |}) as Hg.
  unfold stats, doc, normalize_document, norm_loop. cbn [ns_stats] in Hg.
  cbn [cleaning_stats cleaned_elements detected_language norm_metadata
       elements_processed].
  set (st' := foldl _ _ _) in *. clearbody st'. grow.
Qed.

(** *** The quality score *)

Lemma Qgtb_true (x y : Q) : Qgtb x y = true ↔ ¬ (x <= y)%Q.
Proof.
  unfold Qgtb. rewrite negb_true_iff, <- not_true_iff_false.
  by rewrite Qle_bool_iff.
Qed.

Lemma Qgtb_false (x y : Q) : Qgtb x y = false ↔ (x <= y)%Q.
Proof. unfold Qgtb. by rewrite negb_false_iff, Qle_bool_iff. Qed.

Lemma quality_score_unit (els : list DocumentElement) (st : CleaningStats) :
  (0 <= _calculate_quality_score els st
   ∧ _calculate_quality_score els st <= 1)%Q.
Proof.
  unfold _calculate_quality_score. split.
  - apply Q.le_max_l.
  - apply Q.max_lub; [done|]. apply Q.le_min_l.
Qed.

Lemma quality_score_full_reduction (els : list DocumentElement)
    (st : CleaningStats) :
  0 < original_chars st → cleaned_chars st = 0 →
  (_calculate_quality_score els st <= 8 # 10)%Q.
Proof.
  intros Ho Hc. unfold _calculate_quality_score.
  assert (Qgtb (get_reduction_percentage st) 50 = true) as ->.
  { apply Qgtb_true. unfold get_reduction_percentage.
    rewrite bool_decide_false by lia. rewrite Hc, Z.sub_0_r.
    intros Hle. assert (¬ (100 <= 50)%Q) as Hno by (by compute).
    apply Hno. eapply Qle_trans; [|exact Hle].
    apply Qle_lteq. right. symmetry.
    assert (¬ (inject_Z (original_chars st) == 0)%Q) as Hnz.
    { replace 0%Q with (inject_Z 0) by done. rewrite inject_Z_injective. lia. }
    by field. }
  set (s1 := (1 - (3 # 10))%Q).
  set (s2 := if bool_decide (0 < length els)%nat then _ else s1).
  assert (s2 <= 8 # 10)%Q as H2.
  { unfold s2. case_bool_decide; [|by compute].
    destruct (Qgtb _ 100); [by compute|].
    destruct (Qgtb 20 _); by compute. }
  clearbody s2.
  set (s3 := if Qgtb _ _ then _ else s2).
  assert (s3 <= 8 # 10)%Q as H3.
  { unfold s3. destruct (Qgtb _ _); [|done].
    eapply Qle_trans; [|exact H2]. rewrite <- (Qplus_0_r s2) at 2.
    unfold Qminus. apply Qplus_le_r. by compute. }
  apply Q.max_lub; [by compute|].
  eapply Qle_trans; [apply Q.le_min_r|done].
Qed.

(** The quality score of a normalized document lies between 0 and 1,
    and is at most 0.8 as soon as the source elements hold a
    character: the score is computed while [cleaned_chars] is still 0,
    so the penalty for a reduction above 50% always applies. *)
Theorem quality_score_range (U : unicode_tables)
    (detect : text → option string) (lvl : CleaningLevel)
    (S : DocumentStructure) :
  let doc := normalize_document U detect lvl S in
  (0 <= quality_score doc)%Q ∧ (quality_score doc <= 1)%Q
  ∧ (0 < total_chars (elements S) → (quality_score doc <= 8 # 10)%Q).
Proof.
  intros doc. unfold doc, normalize_document. cbn [quality_score].
  split; [apply quality_score_unit|]. split; [apply quality_score_unit|].
  intros Hpos.
  pose proof (norm_fold_grow U detect lvl (elements S)
    {| ns_stats := set_original_chars (total_chars (elements S)) new_stats;
       ns_cleaned := []; ns_languages := []; ns_calls := [] |}) as Hg.
  cbn [ns_stats] in Hg. unfold norm_loop.
  set (st' := foldl _ _ _) in *. clearbody st'.
  apply quality_score_full_reduction; grow.
Qed.

(** ** What cleaning keeps of the elements *)

Lemma clean_element_fields (U : unicode_tables) (lvl : CleaningLevel)
    (e ce : DocumentElement) (st : CleaningStats) :
  (_clean_element U lvl e st).1 = Some ce →
  element_key ce = element_key e
  ∧ parent_id ce = None ∧ children_ids ce = []
  ∧ line_start (metadata ce) = line_start (metadata e)
  ∧ line_end (metadata ce) = line_end (metadata e)
  ∧ cleaned (metadata ce) = true
  ∧ strip (content e) ≠ [].
Proof.
  unfold _clean_element. case_bool_decide as Hblank; [done|].
  destruct (if bool_decide (lvl = STANDARD ∨ lvl = AGGRESSIVE)
            then _remove_headers_footers U (content e) st
            else (content e, st)) as [c1 st1].
  destruct (_normalize_unicode U c1 st1) as [c2 st2].
  destruct (_remove_invisible_characters c2 st2) as [c3 st3].
  destruct (_fix_line_breaks U c3 st3) as [c4 st4].
  destruct (_standardize_whitespace c4 st4) as [c5 st5].
  destruct (if bool_decide (lvl = AGGRESSIVE)
            then _remove_redundant_content U c5 st5
            else (c5, st5)) as [c6 st6].
  intros [= <-]. repeat split; try done. intros Hs. apply Hblank. by right.
Qed.

Lemma norm_step_kept (U : unicode_tables) (detect : text → option string)
    (lvl : CleaningLevel) (st : norm_state) (e : DocumentElement) :
  ns_cleaned (norm_step U detect lvl st e) = ns_cleaned st
  ∨ ∃ ce, (_clean_element U lvl e (ns_stats st)).1 = Some ce
          ∧ strip (content ce) ≠ []
          ∧ ns_cleaned (norm_step U detect lvl st e) = ns_cleaned st ++ [ce].
Proof.
  unfold norm_step.
  destruct (_clean_element U lvl e (ns_stats st)) as [[ce|] stats];
    [|by left].
  case_bool_decide as Hne; [|by left].
  right. exists ce. by case_bool_decide.
Qed.

Lemma norm_fold_kept (U : unicode_tables) (detect : text → option string)
    (lvl : CleaningLevel) (els : list DocumentElement) (st : norm_state) :
  ∃ new,
    ns_cleaned (foldl (norm_step U detect lvl) st els) = ns_cleaned st ++ new
    ∧ element_key <$> new `sublist_of` element_key <$> els
    ∧ ∀ ce, ce ∈ new →
        strip (content ce) ≠ []
        ∧ ∃ e st0, e ∈ els ∧ (_clean_element U lvl e st0).1 = Some ce.
Proof.
  revert st. induction els as [|e els IH]; intros st.
  { exists []. simpl. rewrite app_nil_r.
    repeat split; try done; by apply elem_of_nil in H. }
  cbn [foldl].
  destruct (IH (norm_step U detect lvl st e)) as (new & Hnew & Hsub & Hsrc).
  destruct (norm_step_kept U detect lvl st e) as [Hsame|(ce & Hce & Hne & Happ)].
  - exists new. rewrite Hnew, Hsame. split; [done|].
    split; [by apply sublist_cons|].
    intros ce Hce. destruct (Hsrc ce Hce) as (Hne & e' & st0 & He' & Hrun).
    split; [done|]. exists e', st0. split; [by right|done].
  - destruct (clean_element_fields U lvl e ce (ns_stats st) Hce)
      as (Hkey & _).
    exists (ce :: new). rewrite Hnew, Happ, <- app_assoc. split; [done|].
    split; [rewrite !fmap_cons, Hkey; by apply sublist_skip|].
    intros ce' [->|Hin]%elem_of_cons.
    + split; [done|]. exists e, (ns_stats st). split; [by left|done].
    + destruct (Hsrc ce' Hin) as (Hne' & e' & st0 & He' & Hrun).
      split; [done|]. exists e', st0. split; [by right|done].
Qed.

Lemma normalize_document_kept (U : unicode_tables)
    (detect : text → option string) (lvl : CleaningLevel)
    (S : DocumentStructure) :
  let doc := normalize_document U detect lvl S in
  element_key <$> cleaned_elements doc `sublist_of` element_key <$> elements S
  ∧ ∀ ce, ce ∈ cleaned_elements doc →
      strip (content ce) ≠ []
      ∧ ∃ e st0, e ∈ elements S ∧ (_clean_element U lvl e st0).1 = Some ce.
Proof.
  intros doc.
  destruct (norm_fold_kept U detect lvl (elements S)
    {| ns_stats := set_original_chars (total_chars (elements S)) new_stats;
       ns_cleaned := []; ns_languages := []; ns_calls := [] |})
    as (new & Hnew & Hsub & Hsrc).
  cbn [ns_cleaned app] in Hnew.
  unfold doc, normalize_document, norm_loop. cbn [cleaned_elements].
  by rewrite Hnew.
Qed.

(** The cleaned elements of a normalized document are, in order, source
    elements with their type, level and position: none is invented,
    reordered or renumbered.  Each has lost its parent and children,
    is marked as cleaned, keeps the line span of its source element
    and has a content that is not blank; so no more elements are kept
    than processed. *)
Theorem cleaned_elements_of_source (U : unicode_tables)
    (detect : text → option string) (lvl : CleaningLevel)
    (S : DocumentStructure) :
  let doc := normalize_document U detect lvl S in
  element_key <$> cleaned_elements doc `sublist_of` element_key <$> elements S
  ∧ Forall (λ ce, parent_id ce = None ∧ children_ids ce = []
                  ∧ cleaned (metadata ce) = true
                  ∧ strip (content ce) ≠ []) (cleaned_elements doc)
  ∧ (∀ ce, ce ∈ cleaned_elements doc →
       ∃ e, e ∈ elements S ∧ element_key ce = element_key e
            ∧ line_start (metadata ce) = line_start (metadata e)
            ∧ line_end (metadata ce) = line_end (metadata e)
            ∧ strip (content e) ≠ [])
  ∧ 0 ≤ elements_kept (norm_metadata doc)
      ≤ elements_processed (norm_metadata doc).
Proof.
  intros doc.
  destruct (normalize_document_kept U detect lvl S) as [Hsub Hsrc].
  fold doc in Hsub, Hsrc.
  split; [done|]. split; [|split].
  - apply Forall_forall. intros ce Hce.
    destruct (Hsrc ce Hce) as (Hne & e & st0 & He & Hrun).
    destruct (clean_element_fields U lvl e ce st0 Hrun)
      as (_ & ? & ? & _ & _ & ? & _).
    done.
  - intros ce Hce.
    destruct (Hsrc ce Hce) as (Hne & e & st0 & He & Hrun).
    destruct (clean_element_fields U lvl e ce st0 Hrun)
      as (? & _ & _ & ? & ? & _ & ?).
    by exists e.
  - apply sublist_length in Hsub. rewrite !length_fmap in Hsub.
    unfold doc, normalize_document in *.
    cbn [cleaned_elements norm_metadata elements_kept elements_processed]
      in *.
    lia.
Qed.

(** ** Headers and footers *)

Lemma remove_hf_lines_spec (U : unicode_tables) (ls : list text)
    (st : CleaningStats) :
  (remove_hf_lines U ls st).1 = filter (body_line U) ls
  ∧ headers_removed (remove_hf_lines U ls st).2
    = headers_removed st + Z.of_nat (length (filter (header_line U) ls))
  ∧ footers_removed (remove_hf_lines U ls st).2
    = footers_removed st + Z.of_nat (length (filter (footer_line U) ls)).
Proof.
  revert st. induction ls as [|l ls IH]; intros st; cbn [remove_hf_lines].
  { simpl. repeat split; lia. }
  rewrite !filter_cons.
  destruct (is_header_line U (strip l)) eqn:Hh.
  { destruct (IH (add_headers_removed 1 st)) as (-> & -> & ->).
    rewrite (decide_False (P := body_line U l))
      by (unfold body_line; rewrite Hh; by intros [? _]).
    rewrite (decide_True (P := header_line U l)) by done.
    rewrite (decide_False (P := footer_line U l))
      by (unfold footer_line; rewrite Hh; by intros [? _]).
    simpl. repeat split; lia. }
  destruct (is_footer_line U (strip l)) eqn:Hf.
  { destruct (IH (add_footers_removed 1 st)) as (-> & -> & ->).
    rewrite (decide_False (P := body_line U l))
      by (unfold body_line; rewrite Hf; by intros [_ ?]).
    rewrite (decide_False (P := header_line U l))
      by (unfold header_line; by rewrite Hh).
    rewrite (decide_True (P := footer_line U l)) by done.
    simpl. repeat split; lia. }
  destruct (IH st) as (H1 & H2 & H3).
  destruct (remove_hf_lines U ls st) as [kept st']. simpl in *.
  rewrite (decide_True (P := body_line U l)) by done.
  rewrite (decide_False (P := header_line U l))
    by (unfold header_line; by rewrite Hh).
  rewrite (decide_False (P := footer_line U l))
    by (unfold footer_line; rewrite Hf; by intros [_ ?]).
  subst kept. repeat split; lia.
Qed.

Lemma hf_partition (U : unicode_tables) (ls : list text) :
  (length ls = length (filter (body_line U) ls)
               + length (filter (header_line U) ls)
               + length (filter (footer_line U) ls))%nat.
Proof.
  induction ls as [|l ls IH]; [done|].
  rewrite !filter_cons.
  destruct (decide (header_line U l)) as [Hh|Hh].
  { rewrite (decide_False (P := body_line U l))
      by (unfold header_line, body_line in *; rewrite Hh; by intros [? _]).
    rewrite (decide_False (P := footer_line U l))
      by (unfold header_line, footer_line in *; rewrite Hh; by intros [? _]).
    simpl. lia. }
  apply not_true_is_false in Hh.
  destruct (decide (footer_line U l)) as [Hf|Hf].
  { rewrite (decide_False (P := body_line U l))
      by (destruct Hf as [_ Hf]; unfold body_line; rewrite Hf; by intros [_ ?]).
    simpl. lia. }
  rewrite (decide_True (P := body_line U l)).
  - simpl. lia.
  - split; [done|]. apply not_true_is_false. intros Hft. by apply Hf.
Qed.

(** [_remove_headers_footers] keeps, in order, the lines that match
    neither a header nor a footer pattern once stripped, and joins
    them; [headers_removed] grows by the number of header lines and
    [footers_removed] by the number of lines that are footers and no
    headers.  So every line is either kept or counted once. *)
Theorem remove_headers_footers_accounting (U : unicode_tables)
    (content : text) (st : CleaningStats) :
  let r := _remove_headers_footers U content st in
  let lines := split_lines content in
  r.1 = join_lines (filter (body_line U) lines)
  ∧ headers_removed r.2
    = headers_removed st + Z.of_nat (length (filter (header_line U) lines))
  ∧ footers_removed r.2
    = footers_removed st + Z.of_nat (length (filter (footer_line U) lines))
  ∧ Z.of_nat (length lines)
    = Z.of_nat (length (filter (body_line U) lines))
      + (headers_removed r.2 - headers_removed st)
      + (footers_removed r.2 - footers_removed st).
Proof.
  intros r lines. unfold r, _remove_headers_footers. fold lines.
  destruct (remove_hf_lines_spec U lines st) as (H1 & H2 & H3).
  pose proof (hf_partition U lines) as Hp.
  destruct (remove_hf_lines U lines st) as [kept st']. simpl in *.
  subst kept. repeat split; try done. lia.
Qed.

(** ** Invisible characters *)

Lemma remove_invisible_filter (c : text) (st : CleaningStats) :
  (_remove_invisible_characters c st).1 = filter visible c.
Proof.
  rewrite remove_invisible_content, !list_filter_filter.
  apply list_filter_iff. intros x. unfold visible, invisible_chars.
  rewrite !not_elem_of_cons. split.
  - intros [[[[[[[? ?] ?] ?] ?] ?] ?] ?].
    repeat split; try done. apply not_elem_of_nil.
  - intros [(? & ? & ? & ? & ? & ? & ? & _) ?]. repeat split; done.
Qed.

(** [_remove_invisible_characters] returns the visible characters of
    its argument, in order, and adds the number of characters it
    dropped to [invisible_chars_removed]; it changes nothing exactly
    when every character is visible. *)
Theorem remove_invisible_spec (c : text) (st : CleaningStats) :
  let r := _remove_invisible_characters c st in
  r.1 = filter visible c
  ∧ invisible_chars_removed r.2
    = invisible_chars_removed st + (len c - len r.1)
  ∧ 0 ≤ len c - len r.1
  ∧ (r.1 = c ↔ Forall visible c).
Proof.
  intros r.
  assert (r.1 = filter visible c) as Hf by apply remove_invisible_filter.
  pose proof (remove_invisible_length c st) as Hlen. fold r in Hlen.
  split; [done|]. split; [|split].
  - rewrite Hf. unfold r, _remove_invisible_characters. cbn [fst snd].
    fold (_remove_invisible_characters c st).1.
    change (re_sub (Chr control_char) []
              (foldl (λ s char, str_replace [char] [] s) c invisible_chars))
      with (_remove_invisible_characters c st).1.
    rewrite remove_invisible_filter. rewrite Hf in Hlen. unfold len in *.
    case_bool_decide; simpl; lia.
  - unfold len. lia.
  - split.
    + intros Heq. rewrite <- Heq. apply remove_invisible_visible.
    + intros Hc. unfold r. by rewrite remove_invisible_id.
Qed.

(** ** Line breaks *)

Lemma str_replace_go_char (a b : N) (fuel : nat) (s : text) :
  (length s ≤ fuel)%nat →
  str_replace_go fuel [a] [b] s = subst_char a b <$> s.
Proof.
  revert s. induction fuel as [|fuel IH]; intros s Hlen.
  - by destruct s; [|simpl in Hlen; lia].
  - destruct s as [|c s]; [done|]. simpl in Hlen.
    cbn [str_replace_go startswith length drop].
    rewrite andb_true_r, fmap_cons. unfold subst_char at 1.
    rewrite (N.eqb_sym c a).
    destruct (a =? c)%N; simpl; f_equal; apply IH; lia.
Qed.

Lemma str_replace_char (a b : N) (s : text) :
  str_replace [a] [b] s = subst_char a b <$> s.
Proof. by apply str_replace_go_char. Qed.

Lemma fix_lines_count (U : unicode_tables) (ls : list text)
    (st : CleaningStats) :
  line_breaks_fixed st ≤ line_breaks_fixed (fix_lines U ls st).2
  ≤ line_breaks_fixed st + Z.of_nat (pred (length ls)).
Proof.
  revert st. induction ls as [|l ls IH]; intros st; [simpl; lia|].
  cbn [fix_lines].
  destruct ls as [|next ls'] eqn:Hls; [simpl; lia|].
  rewrite <- Hls in *.
  assert (Z.of_nat (pred (length (l :: ls)))
          = 1 + Z.of_nat (pred (length ls))) as ->
    by (rewrite Hls; simpl; lia).
  destruct (ends_lower U (strip l) && starts_lower U (strip next)).
  - specialize (IH (add_line_breaks_fixed 1 st)).
    destruct (fix_lines U ls (add_line_breaks_fixed 1 st)). simpl in *. lia.
  - specialize (IH st). destruct (fix_lines U ls st). simpl in *. lia.
Qed.

Lemma fixed_from_no_CR (l f : text) : fixed_from l f → CR ∉ l → CR ∉ f.
Proof.
  assert (∀ s, CR ∉ s → CR ∉ strip s) as Hstrip.
  { intros s Hs Hin.
    assert (Forall (λ c, c ≠ CR) (strip s)) as H.
    { apply strip_Forall. apply Forall_forall. by intros c Hc ->. }
    rewrite Forall_forall in H. by apply (H _ Hin). }
  intros [->|[_ ->]] Hl; [by apply Hstrip|].
  rewrite elem_of_app, list_elem_of_singleton.
  intros [?|?]; [by eapply Hstrip|done].
Qed.

(** [_fix_line_breaks] first turns every line ending into a newline,
    so its result holds no carriage return.  It keeps the number of
    lines: each line of the result is the line at the same place,
    stripped, with a space after it when it was taken for a broken
    sentence.  No newline is removed, and [line_breaks_fixed] grows by
    less than the number of lines. *)
Theorem fix_line_breaks_lines (U : unicode_tables) (content : text)
    (st : CleaningStats) :
  let unified := subst_char CR LF <$> str_replace [CR; LF] [LF] content in
  let r := _fix_line_breaks U content st in
  Forall2 fixed_from (split_lines unified) (split_lines r.1)
  ∧ (CR ∉ r.1)
  ∧ (line_breaks_fixed st ≤ line_breaks_fixed r.2
     < line_breaks_fixed st + Z.of_nat (length (split_lines unified))).
Proof.
  intros unified r. unfold r, _fix_line_breaks.
  rewrite str_replace_char. fold unified.
  pose proof (fix_lines_from U (split_lines unified) st) as Hfrom.
  pose proof (fix_lines_count U (split_lines unified) st) as Hcount.
  pose proof (split_lines_nonempty unified) as Hne.
  pose proof (split_lines_no_LF unified) as HLF.
  assert (Forall (λ l, CR ∉ l) (split_lines unified)) as HCR.
  { assert (Forall (λ c, c ≠ CR) unified) as Hu.
    { unfold unified. apply Forall_fmap, Forall_forall. intros c _. simpl.
      unfold subst_char. destruct (c =? CR)%N eqn:Hc; [done|].
      by apply N.eqb_neq in Hc. }
    apply split_lines_Forall in Hu.
    eapply Forall_impl; [exact Hu|]. intros l Hl Hin.
    rewrite Forall_forall in Hl. by apply (Hl _ Hin). }
  destruct (fix_lines U (split_lines unified) st) as [fixed st'].
  cbn [fst snd] in *.
  assert (Forall (λ l, LF ∉ l) fixed ∧ Forall (λ l, CR ∉ l) fixed)
    as [HfLF HfCR].
  { clear Hcount Hne. induction Hfrom as [|l f ls fs Hlf _ IH]; [done|].
    apply Forall_cons in HLF as [? ?]. apply Forall_cons in HCR as [? ?].
    destruct IH as [? ?]; [done..|].
    split; constructor; try done.
    - by eapply fixed_from_no_LF.
    - by eapply fixed_from_no_CR. }
  assert (fixed ≠ []) as Hfne.
  { intros ->. apply Forall2_length in Hfrom.
    by destruct (split_lines unified). }
  rewrite split_join_lines by done.
  split; [done|]. split.
  - intros Hin.
    assert (Forall (λ c, c ≠ CR) (join_lines fixed)) as Hj.
    { apply join_lines_Forall; [done|].
      eapply Forall_impl; [exact HfCR|]. intros l Hl.
      apply Forall_forall. by intros c Hc ->. }
    rewrite Forall_forall in Hj. by apply (Hj _ Hin).
  - destruct (split_lines unified); [done|]. simpl in *. lia.
Qed.

(** ** Redundant lines *)

Lemma no_repeat_snoc (ls : list text) (x : text) :
  no_repeat ls → last ls ≠ Some x → no_repeat (ls ++ [x]).
Proof.
  intros Hls Hlast i a b Ha Hb.
  destruct (decide (S i < length ls)%nat) as [Hlt|Hge].
  - rewrite lookup_app_l in Ha by lia. rewrite lookup_app_l in Hb by lia.
    by eapply Hls.
  - assert (S i = length ls) as Hi.
    { apply lookup_lt_Some in Hb. rewrite length_app in Hb. simpl in Hb. lia. }
    rewrite lookup_app_l in Ha by lia.
    rewrite lookup_app_r in Hb by lia.
    replace (S i - length ls)%nat with 0%nat in Hb by lia.
    injection Hb as <-. intros ->. apply Hlast.
    rewrite last_lookup. by replace (pred (length ls)) with i by lia.
Qed.

Lemma redundant_fold_spec (U : unicode_tables) (ls : list text) :
  let kept := foldl (redundant_step U) [] ls in
  kept `sublist_of` strip <$> ls
  ∧ Forall (λ l, 3 ≤ len l ∧ ¬ mostly_symbols U l) kept
  ∧ no_repeat kept.
Proof.
  induction ls as [|l ls IH] using rev_ind.
  { simpl. split; [done|]. split; [done|]. intros i a b Ha. by destruct i. }
  cbn zeta in *. rewrite foldl_app, fmap_app. cbn [foldl fmap list_fmap].
  destruct IH as (Hsub & Hall & Hrep).
  set (kept := foldl (redundant_step U) [] ls) in *. clearbody kept.
  unfold redundant_step.
  case_bool_decide as Hlen; [by split; [apply sublist_inserts_r|]|].
  destruct (Qgtb _ _) eqn:Hsym; [by split; [apply sublist_inserts_r|]|].
  case_bool_decide as Hlast; [by split; [apply sublist_inserts_r|]|].
  split; [by apply sublist_app|]. split.
  - apply Forall_app. split; [done|]. apply Forall_singleton.
    split; [lia|]. unfold mostly_symbols. by rewrite Hsym.
  - by apply no_repeat_snoc.
Qed.

(** The aggressive pass [_remove_redundant_content] leaves the
    statistics alone.  Unless it returns the empty text, the lines of
    its result are, in order, stripped lines of its argument; each has
    at least 3 characters, at most 70% of them neither alphanumeric
    nor white space, and none repeats the line before it. *)
Theorem remove_redundant_lines (U : unicode_tables) (content : text)
    (st : CleaningStats) :
  let r := _remove_redundant_content U content st in
  let kept := split_lines r.1 in
  r.2 = st
  ∧ (r.1 = []
     ∨ (kept `sublist_of` strip <$> split_lines content
        ∧ Forall (λ l, 3 ≤ len l ∧ ¬ mostly_symbols U l) kept
        ∧ no_repeat kept)).
Proof.
  intros r kept. split; [done|].
  unfold kept, r, _remove_redundant_content. cbn [fst].
  destruct (redundant_fold_spec U (split_lines content))
    as (Hsub & Hall & Hrep).
  set (ls := foldl (redundant_step U) [] (split_lines content)) in *.
  destruct (decide (ls = [])) as [->|Hne]; [by left|]. right.
  assert (Forall (λ l, LF ∉ l) ls) as Hls.
  { assert (Forall (λ l, LF ∉ l) (strip <$> split_lines content)) as HLF.
    { apply Forall_fmap. eapply Forall_impl; [apply split_lines_no_LF|].
      intros l Hl. by apply strip_no_LF. }
    rewrite Forall_forall in HLF. apply Forall_forall. intros l Hl.
    apply HLF. by eapply elem_of_sublist. }
  by rewrite split_join_lines.
Qed.

(** ** Validation of a cleaning *)

(** [validate_cleaning] reports a cleaning as valid exactly when it
    lists no error, that is when the reduction is at most 60%, the
    quality score at least 0.5 and an element is left. *)
Theorem validate_cleaning_valid (doc : NormalizedDocument) :
  let v := validate_cleaning doc in
  (is_valid v = true ↔ errors v = [])
  ∧ (is_valid v = true ↔
       (get_reduction_percentage (cleaning_stats doc) <= 60)%Q
       ∧ (5 # 10 <= quality_score doc)%Q
       ∧ cleaned_elements doc ≠ []).
Proof.
  intros v. unfold v, validate_cleaning.
  destruct (Qgtb (get_reduction_percentage (cleaning_stats doc)) 60) eqn:H60;
    [apply Qgtb_true in H60|apply Qgtb_false in H60];
  (destruct (Qgtb (5 # 10) (quality_score doc)) eqn:H5;
    [apply Qgtb_true in H5|apply Qgtb_false in H5]);
  destruct (Qgtb (get_reduction_percentage (cleaning_stats doc)) 40);
  destruct (Qgtb (7 # 10) (quality_score doc));
  (case_bool_decide as Hn;
    [apply length_zero_iff_nil in Hn|rewrite length_zero_iff_nil in Hn]);
  simpl; (split; split); try done; try tauto; intros (? & ? & ?); done.
Qed.

(** ** Validation of acquired content *)

Lemma rev_token (cur : text) :
  cur ≠ [] → Forall (λ c, isspace c = false) cur → token (reverse cur).
Proof.
  intros Hne Hcur. split; [|by apply Forall_reverse].
  intros Hnil. apply (f_equal length) in Hnil.
  rewrite length_reverse in Hnil. by destruct cur.
Qed.

Lemma split_ws_go_tokens (cur s : text) :
  Forall (λ c, isspace c = false) cur → Forall token (split_ws_go cur s).
Proof.
  revert cur. induction s as [|c s IH]; intros cur Hcur; simpl.
  - destruct cur as [|a cur]; [constructor|].
    apply Forall_singleton. by apply rev_token.
  - destruct (isspace c) eqn:Hc; [|apply IH; by constructor].
    destruct cur as [|a cur]; [by apply IH|].
    constructor; [by apply rev_token|by apply IH].
Qed.

Lemma split_ws_go_app (cur t s : text) :
  Forall (λ c, isspace c = false) t →
  split_ws_go cur (t ++ s) = split_ws_go (reverse t ++ cur) s.
Proof.
  intros Ht. revert cur. induction Ht as [|c t Hc _ IH]; intros cur; [done|].
  simpl. rewrite Hc, IH, reverse_cons, <- app_assoc. done.
Qed.

Lemma join_spaces_cons (t : text) (ts : list text) :
  ts ≠ [] → join_spaces (t :: ts) = t ++ SP :: join_spaces ts.
Proof. by destruct ts. Qed.

Lemma split_ws_join (ts : list text) :
  Forall token ts → split_ws (join_spaces ts) = ts.
Proof.
  unfold split_ws. induction 1 as [|t ts [Hne Ht] Hts IH]; [done|].
  assert (reverse t ≠ []) as Hrev.
  { intros Hnil. apply (f_equal length) in Hnil.
    rewrite length_reverse in Hnil. by destruct t. }
  destruct ts as [|t' ts].
  - simpl. rewrite <- (app_nil_r t) at 1.
    rewrite split_ws_go_app, app_nil_r by done. simpl.
    destruct (reverse t) eqn:Hr; [done|]. by rewrite <- Hr, reverse_involutive.
  - rewrite join_spaces_cons by done.
    rewrite split_ws_go_app, app_nil_r by done.
    cbn [split_ws_go]. replace (isspace SP) with true by done.
    destruct (reverse t) eqn:Hr; [done|].
    by rewrite <- Hr, reverse_involutive, IH.
Qed.

Lemma join_spaces_length (t : text) (ts : list text) :
  (length (join_spaces (t :: ts)) ≤ length t + S (length (join_spaces ts)))%nat.
Proof.
  destruct ts as [|t' ts]; [simpl; lia|].
  rewrite join_spaces_cons by done. rewrite length_app. simpl. lia.
Qed.

Lemma split_ws_go_length (cur s : text) :
  (length (join_spaces (split_ws_go cur s)) ≤ length cur + length s)%nat.
Proof.
  revert cur. induction s as [|c s IH]; intros cur; simpl.
  - destruct cur as [|a cur]; [done|].
    cbn [join_spaces]. rewrite length_reverse. simpl. lia.
  - destruct (isspace c).
    + destruct cur as [|a cur]; [specialize (IH []); simpl in IH; lia|].
      etrans; [apply join_spaces_length|].
      rewrite length_reverse. specialize (IH []). simpl in *. lia.
    + specialize (IH (c :: cur)). simpl in IH. lia.
Qed.

Lemma join_spaces_only_SP (ts : list text) :
  Forall token ts →
  Forall (λ c, isspace c = true → c = SP) (join_spaces ts).
Proof.
  induction 1 as [|t ts [_ Ht] Hts IH]; [constructor|].
  assert (Forall (λ c, isspace c = true → c = SP) t) as Ht'.
  { eapply Forall_impl; [exact Ht|]. intros c Hc. by rewrite Hc. }
  destruct ts as [|t' ts]; [done|].
  rewrite join_spaces_cons by done.
  apply Forall_app. split; [done|]. by constructor.
Qed.

(** [_validate_content] returns the empty text for a content of fewer
    than 10 characters once stripped.  Otherwise the result has the
    words of the content, in order; in both cases its only white space
    is the single space between two words (so it holds no newline),
    normalizing it again changes nothing, and it is no longer than the
    content. *)
Theorem validate_content_spec (content : text) :
  let r := _validate_content content in
  (len (strip content) < 10 → r = [])
  ∧ (10 ≤ len (strip content) → split_ws r = split_ws content)
  ∧ Forall (λ c, isspace c = true → c = SP) r
  ∧ join_spaces (split_ws r) = r
  ∧ len r ≤ len content.
Proof.
  intros r. unfold r, _validate_content.
  pose proof (split_ws_go_tokens [] content (Forall_nil_2 _)) as Htok.
  fold (split_ws content) in Htok.
  case_bool_decide as Hshort.
  - split; [done|]. split.
    { intros Hlong. destruct Hshort as [->|?]; [by compute in Hlong|lia]. }
    split; [constructor|]. split; [done|]. unfold len. simpl. lia.
  - split; [intros ?; exfalso; apply Hshort; by right|].
    split; [intros _; by apply split_ws_join|].
    split; [by apply join_spaces_only_SP|].
    split; [by rewrite split_ws_join|].
    pose proof (split_ws_go_length [] content) as Hlen. unfold len, split_ws.
    simpl in Hlen. lia.
Qed.

(** ** The characters of cleaned content *)

(** Replacing the runs of a class leaves no character of the class. *)
Lemma re_sub_plus_removes (p : N → bool) (repl s : text) :
  Forall (λ c, p c = false) repl →
  Forall (λ c, p c = false) (re_sub (Rep true 1 None p) repl s).
Proof.
  intros Hrepl.
  induction s as [s IH] using (induction_ltof1 _ length). unfold ltof in IH.
  destruct s as [|c s]; [by rewrite re_sub_nil|].
  rewrite re_sub_cons, re_match_rep.
  case_bool_decide as Hspan.
  - case_bool_decide as Hlt.
    + apply Forall_app. split; [done|]. apply IH. exact Hlt.
    + rewrite length_drop in Hlt. cbn [length] in Hlt. lia.
  - constructor; [|apply IH; simpl; lia].
    simpl in Hspan. destruct (p c); [lia|done].
Qed.

Lemma fix_lines_Forall (P : N → Prop) (U : unicode_tables) (ls : list text)
    (st : CleaningStats) :
  P SP → Forall (Forall P) ls → Forall (Forall P) (fix_lines U ls st).1.
Proof.
  intros HSP Hls.
  pose proof (fix_lines_from U ls st) as Hfrom.
  induction Hfrom as [|l f ls' fs Hlf _ IH]; [constructor|].
  apply Forall_cons in Hls as [Hl Hls]. constructor; [|by apply IH].
  destruct Hlf as [->|[_ ->]]; [by apply strip_Forall|].
  apply Forall_app. split; [by apply strip_Forall|by constructor].
Qed.

Lemma fix_line_breaks_Forall (P : N → Prop) (U : unicode_tables) (c : text)
    (st : CleaningStats) :
  P SP → P LF → Forall P (subst_char CR LF <$> str_replace [CR; LF] [LF] c) →
  Forall P (_fix_line_breaks U c st).1.
Proof.
  intros HSP HLF Hc. unfold _fix_line_breaks. rewrite str_replace_char.
  set (unified := subst_char CR LF <$> _) in *.
  pose proof (fix_lines_Forall P U (split_lines unified) st HSP
                (split_lines_Forall P unified Hc)) as Hfixed.
  destruct (fix_lines U (split_lines unified) st) as [fixed st'].
  by apply join_lines_Forall.
Qed.

Lemma fix_line_breaks_no_CR (U : unicode_tables) (c : text)
    (st : CleaningStats) :
  Forall (λ a, a ≠ CR) (_fix_line_breaks U c st).1.
Proof.
  apply fix_line_breaks_Forall; [done..|].
  apply Forall_fmap, Forall_forall. intros a _. simpl.
  unfold subst_char. destruct (a =? CR)%N eqn:Ha; [done|].
  by apply N.eqb_neq in Ha.
Qed.

Lemma standardize_whitespace_Forall (P : N → Prop) (c : text)
    (st : CleaningStats) :
  P SP → P LF → Forall P c → Forall P (_standardize_whitespace c st).1.
Proof.
  intros HSP HLF Hc. unfold _standardize_whitespace. cbn [fst].
  apply re_sub_Forall; [by repeat constructor|].
  apply join_lines_Forall; [done|].
  apply Forall_fmap. eapply Forall_impl.
  - apply split_lines_Forall.
    apply re_sub_Forall; [by repeat constructor|].
    apply re_sub_Forall; [by repeat constructor|done].
  - intros l Hl. by apply strip_Forall.
Qed.

Lemma standardize_whitespace_no_TAB (c : text) (st : CleaningStats) :
  Forall (λ a, a ≠ TAB) (_standardize_whitespace c st).1.
Proof.
  unfold _standardize_whitespace. cbn [fst].
  apply re_sub_Forall; [by repeat constructor|].
  apply join_lines_Forall; [done|].
  apply Forall_fmap. eapply Forall_impl.
  - apply split_lines_Forall.
    eapply Forall_impl;
      [apply (re_sub_plus_removes (is_char TAB)); by repeat constructor|].
    intros a Ha. exact Ha.
  - intros l Hl. simpl. apply strip_Forall.
    eapply Forall_impl; [exact Hl|].
    intros a Ha ->. by compute in Ha.
Qed.

Lemma remove_redundant_Forall (P : N → Prop) (U : unicode_tables) (c : text)
    (st : CleaningStats) :
  P LF → Forall P c → Forall P (_remove_redundant_content U c st).1.
Proof.
  intros HLF Hc. unfold _remove_redundant_content. cbn [fst].
  apply join_lines_Forall; [done|].
  destruct (redundant_fold_spec U (split_lines c)) as (Hsub & _).
  apply Forall_forall. intros l Hl.
  pose proof (elem_of_sublist _ _ _ Hl Hsub) as Hin.
  apply list_elem_of_fmap in Hin as (raw & -> & Hraw).
  apply strip_Forall.
  pose proof (split_lines_Forall P c Hc) as Hlines.
  rewrite Forall_forall in Hlines. by apply Hlines.
Qed.

Lemma clean_element_chars (U : unicode_tables) (lvl : CleaningLevel)
    (e ce : DocumentElement) (st : CleaningStats) :
  (_clean_element U lvl e st).1 = Some ce →
  Forall (λ a, a ≠ CR ∧ a ≠ TAB) (content ce).
Proof.
  unfold _clean_element. case_bool_decide; [done|].
  destruct (if bool_decide (lvl = STANDARD ∨ lvl = AGGRESSIVE)
            then _remove_headers_footers U (content e) st
            else (content e, st)) as [c1 st1].
  destruct (_normalize_unicode U c1 st1) as [c2 st2].
  destruct (_remove_invisible_characters c2 st2) as [c3 st3].
  pose proof (fix_line_breaks_no_CR U c3 st3) as H4.
  destruct (_fix_line_breaks U c3 st3) as [c4 st4]. cbn [fst] in H4.
  pose proof (standardize_whitespace_Forall (λ a, a ≠ CR) c4 st4) as H5.
  pose proof (standardize_whitespace_no_TAB c4 st4) as H5'.
  destruct (_standardize_whitespace c4 st4) as [c5 st5]. cbn [fst] in H5, H5'.
  assert (Forall (λ a, a ≠ CR ∧ a ≠ TAB) c5) as Hc5.
  { specialize (H5 ltac:(done) ltac:(done) H4).
    rewrite Forall_forall in H5, H5'. apply Forall_forall. intros a Ha.
    split; [by apply H5|by apply H5']. }
  pose proof (remove_redundant_Forall (λ a, a ≠ CR ∧ a ≠ TAB) U c5 st5) as H6.
  destruct (if bool_decide (lvl = AGGRESSIVE)
            then _remove_redundant_content U c5 st5
            else (c5, st5)) as [c6 st6] eqn:Heq.
  intros [= <-]. simpl.
  case_bool_decide; [|by injection Heq as <- _].
  rewrite Heq in H6. by apply H6.
Qed.

(** The content of every cleaned element of a normalized document is
    made of visible characters only, none of them a carriage return or
    a tab: of the characters below U+0020 only the newline is left. *)
Theorem cleaned_content_characters (U : unicode_tables)
    (detect : text → option string) (lvl : CleaningLevel)
    (S : DocumentStructure) :
  Forall (λ ce, Forall clean_char (content ce)
                ∧ Forall (λ c, (c < 0x20)%N → c = LF) (content ce))
    (cleaned_elements (normalize_document U detect lvl S)).
Proof.
  destruct (normalize_document_kept U detect lvl S) as [_ Hsrc].
  apply Forall_forall. intros ce Hce.
  destruct (Hsrc ce Hce) as (_ & e & st0 & _ & Hrun).
  pose proof (clean_element_chars U lvl e ce st0 Hrun) as Hchars.
  assert (Forall visible (content ce)) as Hvis.
  { destruct (_clean_element U lvl e st0) as [o st'] eqn:Heq.
    simpl in Hrun. subst o. by eapply clean_element_visible. }
  assert (Forall clean_char (content ce)) as Hclean.
  { rewrite Forall_forall in Hchars, Hvis. apply Forall_forall. intros c Hc.
    destruct (Hchars c Hc). split; [by apply Hvis|done]. }
  split; [done|].
  eapply Forall_impl; [exact Hclean|].
  intros c ([_ Hctl] & HCR & HTAB) Hlt.
  unfold control_char, in_range, is_char in Hctl.
  rewrite !orb_false_iff, !andb_false_iff in Hctl.
  unfold CR, TAB, LF in *.
  repeat match goal with
         | H : _ ∧ _ |- _ => destruct H
         | H : (_ <=? _)%N = false ∨ _ |- _ => destruct H
         | H : (_ <=? _)%N = false |- _ => apply N.leb_gt in H
         | H : (_ =? _)%N = false |- _ => apply N.eqb_neq in H
         end; lia.
Qed.

(** ** The content of the parsed elements *)

Lemma extract_paragraph_from_take (U : unicode_tables) (ls : list text) :
  _extract_paragraph_from U ls
  = strip <$> take (length (_extract_paragraph_from U ls)) ls.
Proof.
  induction ls as [|raw ls IH]; simpl; [done|].
  case_bool_decide; [done|].
  destruct (_is_structured_line U (strip raw)); [done|].
  cbn [length take]. rewrite fmap_cons. f_equal. exact IH.
Qed.

Lemma extract_table_from_take (ls : list text) :
  _extract_table_from ls = take (length (_extract_table_from ls)) ls.
Proof.
  induction ls as [|l ls IH]; [done|].
  cbn [_extract_table_from]. destruct ls as [|next ls']; [done|].
  case_bool_decide; [done|].
  destruct (negb (matches table_continue next)); [done|].
  cbn [length take]. by rewrite <- IH.
Qed.

Local Opaque heading_patterns list_patterns table_patterns code_patterns.

Lemma identify_element_content (U : unicode_tables) (lines : list text)
    (i : nat) (fmt : string) ty lvl cl n :
  source_lines lines →
  _identify_element U lines i fmt = Some (ty, lvl, cl, n) → ty ≠ UNKNOWN →
  cl = if decide (ty = TABLE) then take n (drop i lines)
       else strip <$> take n (drop i lines).
Proof.
  intros Hsrc. unfold _identify_element.
  destruct (lines !! i) as [raw|] eqn:Hi; [|done].
  assert (existsb (λ r, matches r (strip raw)) (code_patterns U) = false)
    as Hcode.
  { apply code_patterns_never; [|apply strip_head].
    apply strip_no_LF. unfold source_lines in Hsrc.
    rewrite Forall_forall in Hsrc. apply Hsrc.
    by eapply list_elem_of_lookup_2. }
  rewrite Hcode. rewrite (drop_S _ _ _ Hi).
  destruct (first_heading (default [] (heading_patterns U fmt)) (strip raw))
    as [[l|]|]; cbn [mbind option_bind];
    [intros ? _; by simplify_eq|done|].
  destruct (first_heading (default [] (heading_patterns U "general"))
              (strip raw)) as [[l|]|]; cbn [mbind option_bind];
    [intros ? _; by simplify_eq|done|].
  destruct (existsb _ (list_patterns U)); [intros ? _; by simplify_eq|].
  destruct (existsb _ table_patterns); [|intros ? ?; by simplify_eq].
  intros ? _. simplify_eq. rewrite decide_True by done.
  unfold _extract_table. rewrite (drop_S _ _ _ Hi).
  apply extract_table_from_take.
Qed.

Local Transparent heading_patterns list_patterns table_patterns
  code_patterns.

Lemma parse_elements_content (U : unicode_tables) (fuel : nat)
    (lines : list text) (fmt : string) (els : list DocumentElement) :
  source_lines lines →
  _parse_elements U fuel lines fmt = Some els →
  Forall (content_of_span lines) els.
Proof.
  intros Hsrc Hrun.
  assert (∀ i n : nat,
            Z.to_nat (Z.of_nat i + Z.of_nat (S n) - 1 - Z.of_nat i + 1) = S n)
    as Hspan by lia.
  destruct (parse_loop_rule U lines fmt
              (λ _ acc, Forall (content_of_span lines) acc))
    with (fuel := fuel) (i := 0%nat) (pos := 0) (acc := @nil DocumentElement)
         (els := els) as (i' & _ & H); try done.
  - intros i acc raw ty lvl cl n _ _ Hid Hty Hacc.
    apply Forall_app. split; [done|]. apply Forall_singleton.
    unfold content_of_span, span_lines, mkElement.
    cbn [content element_type metadata line_start line_end].
    rewrite Hspan, Nat2Z.id.
    by rewrite <- (identify_element_content U lines i fmt ty lvl cl (S n)).
  - intros i acc raw lvl cl n l ls _ _ _ Hpar Hacc.
    apply Forall_app. split; [done|]. apply Forall_singleton.
    unfold content_of_span, span_lines, mkElement.
    cbn [content element_type metadata line_start line_end].
    rewrite Hspan, Nat2Z.id. rewrite decide_False by done.
    pose proof (extract_paragraph_from_take U (drop i lines)) as Htake.
    fold (_extract_paragraph U lines i) in Htake. rewrite Hpar in Htake.
    by rewrite Htake at 1.
Qed.

(** The content of every element of a parsed structure is the text of
    the lines [line_start] to [line_end] of the document, joined by
    newlines: the lines as they are for a table, each line stripped
    for a heading, a list item or a paragraph. *)
Theorem parse_document_content (U : unicode_tables) (fuel : nat) (c : text)
    (ft : string) (S : DocumentStructure) :
  parse_document U fuel c ft = Some S →
  Forall (content_of_span (split_lines c)) (elements S).
Proof.
  intros (els0 & Hels0 & Hcore)%parse_document_core.
  assert (Forall (content_of_span (split_lines c)) els0) as Hall.
  { destruct Hels0 as [->|Hrun]; [constructor|].
    eapply parse_elements_content; [|done]. apply split_lines_no_LF. }
  apply Forall_lookup. intros i e Hi.
  destruct (core_lookup _ _ _ _ Hcore Hi) as (e0 & Hi0 & He0).
  rewrite Forall_lookup in Hall. specialize (Hall _ _ Hi0).
  unfold element_core in He0.
  unfold content_of_span, span_lines in *.
  assert (content e = content e0) as -> by congruence.
  assert (element_type e = element_type e0) as -> by congruence.
  assert (metadata e = metadata e0) as -> by congruence.
  done.
Qed.

Lemma parse_document_content_witness :
  ∃ S,
    parse_document ascii_tables 4 nested_headings "unknown" = Some S
    ∧ Forall (content_of_span (split_lines nested_headings)) (elements S).
Proof.
  eexists.
  assert (∀ P Q : Prop, P → (P → Q) → P ∧ Q) as Hand by tauto.
  apply Hand.
  - vm_compute. reflexivity.
  - apply (parse_document_content ascii_tables 4 nested_headings "unknown").
Defined.
